(** * make_platform_utils: the command-chain interpreter and its line handlers

    A shallow embedding of [make_platform_utils.py].  Python [str] values are
    modelled as [string] (code points below 256), Python lists as [list],
    Python [int] as [Z].  Exceptions are explicit: every operation that can
    raise returns an [Outcome].  The [print] calls of the source write
    diagnostics only and are not part of the model. *)

From Stdlib Require Import ZArith List Bool Ascii String Lia Arith.
From Stdlib Require Import Permutation Sorted.
From Stdlib Require Import DecimalString DecimalNat HexadecimalString SpecFloat.
Import ListNotations.
Local Open Scope string_scope.
Local Open Scope list_scope.

Set Implicit Arguments.

(* ------------------------------------------------------------------ *)
(** ** Exceptions and results *)

(** The exception classes the source can raise or let escape;
    [PyException] is a plain [Exception]. *)
Inductive PyExn : Type :=
| ParameterCountError
| ValueError
| TypeError
| IndexError
| AttributeError
| OverflowError
| OSError
| ReError
| PyException.

Definition PyExn_eqb (a b : PyExn) : bool :=
  match a, b with
  | ParameterCountError, ParameterCountError
  | ValueError, ValueError
  | TypeError, TypeError
  | IndexError, IndexError
  | AttributeError, AttributeError
  | OverflowError, OverflowError
  | OSError, OSError
  | ReError, ReError
  | PyException, PyException => true
  | _, _ => false
  end.

(** A computation that either returns or raises. *)
Inductive Outcome (A : Type) : Type :=
| Return (a : A)
| Raise (e : PyExn).
Arguments Return {A} a.
Arguments Raise {A} e.

Definition bind {A B : Type} (m : Outcome A) (k : A -> Outcome B) : Outcome B :=
  match m with
  | Return a => k a
  | Raise e => Raise e
  end.

Notation "x <- m ;; k" := (bind m (fun x => k))
  (at level 61, m at next level, right associativity).

(** [[f(x) for x in l]]: evaluated left to right, the first exception wins. *)
Fixpoint mapM {A B : Type} (f : A -> Outcome B) (l : list A) : Outcome (list B) :=
  match l with
  | [] => Return []
  | x :: l' => y <- f x ;; ys <- mapM f l' ;; Return (y :: ys)
  end.

(** [class CommandResults]: the status taxonomy, with its integer codes. *)
Module CommandResults.
Inductive t : Type :=
| Ok | UndefinedError | RegexError | IOError | InvalidLine | InvalidEnvValue
| MissingParameter | UnknownArgument | NoCommands | CommandError
| CommandNotFoundError | CommandExecFailedError | CommandOSError
| InvalidOutputMode | InvalidSortFlag | InvalidSortColumn | InvalidSortValue
| InvalidSumFlag | InvalidSumValue | InvalidFilterFlag | Not.

Definition code (r : t) : Z :=
  match r with
  | Ok => 0 | UndefinedError => 1 | RegexError => 2 | IOError => 3
  | InvalidLine => 4 | InvalidEnvValue => 5 | MissingParameter => 6
  | UnknownArgument => 7 | NoCommands => 8 | CommandError => 9
  | CommandNotFoundError => 10 | CommandExecFailedError => 11
  | CommandOSError => 12 | InvalidOutputMode => 13 | InvalidSortFlag => 14
  | InvalidSortColumn => 15 | InvalidSortValue => 16 | InvalidSumFlag => 17
  | InvalidSumValue => 18 | InvalidFilterFlag => 19 | Not => 20
  end%Z.

Definition check (result : Z) : bool :=
  ((code Ok <=? result) && (result <=? code Not))%Z.

Definition eqb (a b : t) : bool := (code a =? code b)%Z.
End CommandResults.
Import CommandResults.

(** What a handler hands back: a status, or Python's [None] when the body
    falls off its end without a [return]. *)
Inductive PyRet : Type :=
| Status (r : CommandResults.t)
| PyNone.

Definition PyRet_is (r : PyRet) (c : CommandResults.t) : bool :=
  match r with
  | Status r' => CommandResults.eqb r' c
  | PyNone => false
  end.

(* ------------------------------------------------------------------ *)
(** ** Python string operations used by the source *)

Fixpoint startswith (s p : string) : bool :=
  match p, s with
  | EmptyString, _ => true
  | String b p', String a s' => Ascii.eqb a b && startswith s' p'
  | String _ _, EmptyString => false
  end.

(** [s[n:]] and [s[:n]] for [n >= 0]. *)
Fixpoint str_drop (n : nat) (s : string) : string :=
  match n, s with
  | O, _ => s
  | S n', String _ s' => str_drop n' s'
  | S _, EmptyString => EmptyString
  end.

Fixpoint str_take (n : nat) (s : string) : string :=
  match n, s with
  | O, _ => EmptyString
  | S n', String a s' => String a (str_take n' s')
  | S _, EmptyString => EmptyString
  end.

Definition endswith (s p : string) : bool :=
  Nat.leb (String.length p) (String.length s)
  && String.eqb (str_drop (String.length s - String.length p) s) p.

(** [def removeprefix(string, prefix)] *)
Definition removeprefix (s prefix : string) : string :=
  if startswith s prefix then str_drop (String.length prefix) s else s.

(** [def removesuffix(string, suffix)]: the slice is [string[:-len(suffix)]],
    which is the empty string when [suffix] is empty. *)
Definition removesuffix (s suffix : string) : string :=
  if endswith s suffix then
    match String.length suffix with
    | O => EmptyString
    | S _ => str_take (String.length s - String.length suffix) s
    end
  else s.

(** [sep.join(l)] *)
Fixpoint join (sep : string) (l : list string) : string :=
  match l with
  | [] => EmptyString
  | [x] => x
  | x :: l' => x ++ sep ++ join sep l'
  end.

Definition LF : ascii := ascii_of_nat 10.
Definition CR : ascii := ascii_of_nat 13.
Definition TAB : ascii := ascii_of_nat 9.
Definition NL : string := String LF EmptyString.

(** The line boundaries of [str.splitlines] and the white space of
    [str.strip], for code points below 256. *)
Definition is_linebreak (c : ascii) : bool :=
  existsb (Nat.eqb (nat_of_ascii c)) [10; 11; 12; 13; 28; 29; 30; 133].

Definition is_space (c : ascii) : bool :=
  existsb (Nat.eqb (nat_of_ascii c)) [9; 10; 11; 12; 13; 28; 29; 30; 31; 32; 133; 160].

(** [s.splitlines()]: a CR LF pair is one boundary, and a final boundary
    does not open a last empty line. *)
Fixpoint splitlines (s : string) : list string :=
  match s with
  | EmptyString => []
  | String c s' =>
      if is_linebreak c then
        match s' with
        | String c' s'' =>
            if Ascii.eqb c CR && Ascii.eqb c' LF
            then EmptyString :: splitlines s''
            else EmptyString :: splitlines s'
        | EmptyString => [EmptyString]
        end
      else
        match splitlines s' with
        | [] => [String c EmptyString]
        | l :: ls => String c l :: ls
        end
  end.

Fixpoint lstrip (s : string) : string :=
  match s with
  | EmptyString => EmptyString
  | String c s' => if is_space c then lstrip s' else s
  end.

Fixpoint rstrip (s : string) : string :=
  match s with
  | EmptyString => EmptyString
  | String c s' =>
      match rstrip s' with
      | EmptyString => if is_space c then EmptyString else String c EmptyString
      | r => String c r
      end
  end.

(** [s.strip()] *)
Definition strip (s : string) : string := rstrip (lstrip s).

(** [s.replace(old, new)] for a non-empty [old] (the source only replaces
    literals): occurrences are found left to right and do not overlap.
    [skip] counts the characters of a replaced occurrence still to pass. *)
Fixpoint replace_aux (old new : string) (skip : nat) (s : string) : string :=
  match s with
  | EmptyString => EmptyString
  | String c s' =>
      match skip with
      | S k => replace_aux old new k s'
      | O =>
          if startswith s old
          then new ++ replace_aux old new (String.length old - 1) s'
          else String c (replace_aux old new 0 s')
      end
  end.

Definition replace (s old new : string) : string := replace_aux old new 0 s.

(** [s.split(sep)] for a one-character separator. *)
Fixpoint split (s : string) (sep : ascii) : list string :=
  match s with
  | EmptyString => [EmptyString]
  | String c s' =>
      if Ascii.eqb c sep then EmptyString :: split s' sep
      else
        match split s' sep with
        | [] => [String c EmptyString]
        | x :: xs => String c x :: xs
        end
  end.

(** [re.split("[ \t]+", line)]: fields between maximal runs of blanks and
    tabs.  [in_sep] says that the previous character belonged to a run. *)
Definition is_blank (c : ascii) : bool := Ascii.eqb c " " || Ascii.eqb c TAB.

Fixpoint re_split_blanks_aux (in_sep : bool) (s : string) : list string :=
  match s with
  | EmptyString => [EmptyString]
  | String c s' =>
      if is_blank c then
        if in_sep then re_split_blanks_aux true s'
        else EmptyString :: re_split_blanks_aux true s'
      else
        match re_split_blanks_aux false s' with
        | [] => [String c EmptyString]
        | x :: xs => String c x :: xs
        end
  end.

Definition re_split_blanks (line : string) : list string :=
  re_split_blanks_aux false line.

(** [s.lower()] on code points below 256. *)
Definition lower_char (c : ascii) : ascii :=
  let n := nat_of_ascii c in
  if (Nat.leb 65 n && Nat.leb n 90)
     || (Nat.leb 192 n && Nat.leb n 222 && negb (Nat.eqb n 215))
  then ascii_of_nat (n + 32) else c.

Fixpoint lower (s : string) : string :=
  match s with
  | EmptyString => EmptyString
  | String c s' => String (lower_char c) (lower s')
  end.

(** [l[i]] with Python's negative indices; out of range is [IndexError]. *)
Definition py_index {A : Type} (l : list A) (i : Z) : Outcome A :=
  let n := Z.of_nat (List.length l) in
  let j := (if i <? 0 then i + n else i)%Z in
  if ((0 <=? j) && (j <? n))%Z then
    match nth_error l (Z.to_nat j) with
    | Some x => Return x
    | None => Raise IndexError
    end
  else Raise IndexError.

(** [l[a:b]] with Python's clamping of slice bounds. *)
Definition slice_bound (n i : Z) : Z :=
  (if i <? 0 then Z.max 0 (i + n) else Z.min i n)%Z.

Definition py_slice {A : Type} (l : list A) (a b : Z) : list A :=
  let n := Z.of_nat (List.length l) in
  let lo := slice_bound n a in
  let hi := slice_bound n b in
  firstn (Z.to_nat (hi - lo)) (skipn (Z.to_nat lo) l).

(** *** [int(s)] and [int(s, 16)] *)

Definition digit_value (base : Z) (c : ascii) : option Z :=
  let n := Z.of_nat (nat_of_ascii c) in
  let v := (if (48 <=? n) && (n <=? 57) then Some (n - 48)
            else if (97 <=? n) && (n <=? 122) then Some (n - 87)
            else if (65 <=? n) && (n <=? 90) then Some (n - 55)
            else None)%Z in
  match v with
  | Some d => if (d <? base)%Z then Some d else None
  | None => None
  end.

(** Digits with single underscores between them; [prev_digit] says that the
    previous character was a digit, [acc] is the value read so far. *)
Fixpoint parse_digits (base : Z) (prev_digit : bool) (acc : Z) (s : string)
  : option Z :=
  match s with
  | EmptyString => if prev_digit then Some acc else None
  | String c s' =>
      if Ascii.eqb c "_" then
        if prev_digit then parse_digits base false acc s' else None
      else
        match digit_value base c with
        | Some d => parse_digits base true (acc * base + d)%Z s'
        | None => None
        end
  end.

(** The white space that [int] skips at both ends of its argument, for
    code points below 256: the ASCII white space, and NEL and the no-break
    space, which the conversion replaces by blanks.  The separators 28 to
    31, which [str.strip] takes off, are not skipped. *)
Definition is_int_space (c : ascii) : bool :=
  existsb (Nat.eqb (nat_of_ascii c)) [9; 10; 11; 12; 13; 32; 133; 160].

Fixpoint int_lstrip (s : string) : string :=
  match s with
  | EmptyString => EmptyString
  | String c s' => if is_int_space c then int_lstrip s' else s
  end.

Fixpoint int_rstrip (s : string) : string :=
  match s with
  | EmptyString => EmptyString
  | String c s' =>
      match int_rstrip s' with
      | EmptyString => if is_int_space c then EmptyString else String c EmptyString
      | r => String c r
      end
  end.

Definition int_strip (s : string) : string := int_rstrip (int_lstrip s).

(** [int(text, base)] for base 10 and base 16.  CPython 3.11 and later
    refuse, by default, a decimal text of more than 4300 digits, and
    likewise to write an integer of more than 4300 digits in decimal
    ([sys.int_max_str_digits]).  That limit is a setting of the interpreter
    and is not part of this model: the statements that depend on it bound
    the digits. *)
Definition py_int_base (base : Z) (text : string) : Outcome Z :=
  let s := int_strip text in
  let '(neg, s) :=
    match s with
    | String "-" s' => (true, s')
    | String "+" s' => (false, s')
    | _ => (false, s)
    end in
  let s :=
    if (base =? 16)%Z && (startswith s "0x" || startswith s "0X") then
      let s' := str_drop 2 s in
      match s' with
      | String "_" s'' => s''
      | _ => s'
      end
    else s in
  match s with
  | String "_" _ => Raise ValueError
  | _ =>
      match parse_digits base false 0%Z s with
      | Some v => Return (if neg then (- v)%Z else v)
      | None => Raise ValueError
      end
  end.

Definition py_int (text : string) : Outcome Z := py_int_base 10 text.

(* ------------------------------------------------------------------ *)
(** ** The world outside the process *)

(** The operating-system calls the handlers make, as an interface: a file
    system value that the calls read and replace. *)
Class OsModule : Type := {
  FS : Type;
  (** [os.path.exists], [os.path.isdir] *)
  path_exists : FS -> string -> bool;
  path_isdir : FS -> string -> bool;
  (** [os.makedirs(path, exist_ok=True)] *)
  makedirs : FS -> string -> Outcome FS;
  (** [with open(path, 'r') as file: file.read()] *)
  open_read : FS -> string -> Outcome string
}.

(** What the interpreter asks about its host: [os.name], [sys.platform] and
    [os.environ]. *)
Record Host : Type := {
  os_name : string;
  sys_platform : string;
  environ : list (string * string)
}.

Fixpoint environ_get (e : list (string * string)) (k : string) : option string :=
  match e with
  | [] => None
  | (k', v) :: e' => if String.eqb k k' then Some v else environ_get e' k
  end.

(** [class CommandOutputMode] *)
Module CommandOutputMode.
Definition Process : string := "process".
Definition Print : string := "print".
Definition Ignore : string := "ignore".
Definition Write : string := "write".
End CommandOutputMode.

(** Arguments after conversion: [param_convert] turns some into integers. *)
Inductive Value : Type :=
| VStr (s : string)
| VInt (z : Z).

Definition is_VStr (v : Value) : bool :=
  match v with VStr _ => true | VInt _ => false end.

Section Interpreter.
Context {os : OsModule}.

(** The fields of [CommandProcessor] the handlers work on.  [self.args] is
    read and written by the three parsing methods only and is threaded
    through them as a list of its own. *)
Record CommandProcessor : Type := {
  working_dir : string;
  env : list (string * string);
  current_output : string;
  stdout_mode : string;
  stdout_path : option string;
  stderr_mode : string;
  stderr_path : option string;
  stop_on_error : bool;
  host : Host;
  fs : FS
}.

Definition set_current_output (self : CommandProcessor) (out : string) :=
  {| working_dir := working_dir self; env := env self; current_output := out;
     stdout_mode := stdout_mode self; stdout_path := stdout_path self;
     stderr_mode := stderr_mode self; stderr_path := stderr_path self;
     stop_on_error := stop_on_error self; host := host self; fs := fs self |}.

Definition set_stop_on_error (self : CommandProcessor) (b : bool) :=
  {| working_dir := working_dir self; env := env self;
     current_output := current_output self;
     stdout_mode := stdout_mode self; stdout_path := stdout_path self;
     stderr_mode := stderr_mode self; stderr_path := stderr_path self;
     stop_on_error := b; host := host self; fs := fs self |}.

Definition set_fs (self : CommandProcessor) (f : FS) :=
  {| working_dir := working_dir self; env := env self;
     current_output := current_output self;
     stdout_mode := stdout_mode self; stdout_path := stdout_path self;
     stderr_mode := stderr_mode self; stderr_path := stderr_path self;
     stop_on_error := stop_on_error self; host := host self; fs := f |}.

(** [CommandProcessor.__init__], after the argument vector is set aside. *)
Definition CommandProcessor_init (cwd : string) (h : Host) (f : FS) :=
  {| working_dir := cwd; env := environ h; current_output := EmptyString;
     stdout_mode := CommandOutputMode.Process; stdout_path := None;
     stderr_mode := CommandOutputMode.Print; stderr_path := None;
     stop_on_error := true; host := h; fs := f |}.

(** A handler: the decorated method, applied to [self] and [*args].  The
    processor it returns carries the mutations made before it returned or
    raised. *)
Definition Handler : Type :=
  CommandProcessor -> list Value -> CommandProcessor * Outcome PyRet.

(** [class Command] *)
Record Command : Type := {
  arg_long : string;
  arg_short : option string;
  param_names : list string;
  param_count : Z;
  param_until : option string;
  param_convert : option (string -> Outcome Value);
  func : Handler
}.

(** Truth value of an optional string: [None] and the empty string are
    false. *)
Definition truthy (o : option string) : bool :=
  match o with
  | Some (String _ _) => true
  | _ => false
  end.

Definition str_of_nat (n : nat) : string :=
  DecimalString.NilZero.string_of_uint (Nat.to_uint n).

(** [Command.__init__] followed by [__call__] on the decorated method. *)
Definition Command_init (arg_long : string) (arg_short : option string)
    (param_names : list string) (param_count : Z) (param_until : option string)
    (param_convert : option (string -> Outcome Value)) (f : Handler) : Command :=
  {| arg_long := arg_long;
     arg_short := arg_short;
     param_names :=
       match param_names with
       | _ :: _ => param_names
       | [] => map (fun i => ("ARG" ++ str_of_nat i)%string) (seq 0 (Z.to_nat param_count))
       end;
     param_count :=
       if (0 <=? param_count)%Z then param_count
       else if truthy param_until then (-1)%Z
       else match param_names with
            | _ :: _ => Z.of_nat (List.length param_names)
            | [] => 0%Z
            end;
     param_until := param_until;
     param_convert := param_convert;
     func := f |}.

(* ------------------------------------------------------------------ *)
(** ** Command line parsing *)

(** The flag test of [parse_command] on the head [arg] of the argument
    list: [None] when the flag is another one, else the argument list with
    the flag taken off, an [=value] put back as its new head. *)
Definition match_flag (arg : string) (rest : list string) (arg_long : string)
    (arg_short : option string) : option (list string) :=
  if startswith arg arg_long then
    let arg := removeprefix arg arg_long in
    if startswith arg "=" then Some (removeprefix arg "=" :: rest)
    else if String.eqb arg EmptyString then Some rest
    else None
  else
    match arg_short with
    | Some short => if String.eqb arg short then Some rest else None
    | None => None
    end.

(** [parse_command]: does the head of [args] name this command?  Returns the
    answer and the argument list as the method leaves it. *)
Definition parse_command (args : list string) (arg_long : string)
    (arg_short : option string) (requires : Z) : Outcome (bool * list string) :=
  match args with
  | [] => Raise IndexError
  | arg :: rest =>
      match match_flag arg rest arg_long arg_short with
      | None => Return (false, args)
      | Some args' =>
          if (Z.of_nat (List.length args') <? requires)%Z
          then Raise ParameterCountError
          else Return (true, args')
      end
  end.

Definition str_in (x : string) (l : list string) : bool := existsb (String.eqb x) l.

(** [list.index(x)] for an [x] known to occur. *)
Fixpoint list_index (x : string) (l : list string) : nat :=
  match l with
  | [] => 0
  | y :: l' => if String.eqb y x then 0 else S (list_index x l')
  end.

(** [parse_command_params]: the captured, converted parameters and the
    argument list left for the next stage. *)
Definition parse_command_params (command : Command) (self_args : list string)
  : Outcome (list Value * list string) :=
  let args :=
    if (0 <=? param_count command)%Z
    then firstn (Z.to_nat (param_count command)) self_args
    else self_args in
  let until := match param_until command with Some u => u | None => EmptyString end in
  if truthy (param_until command) && negb (str_in until args) then
    Raise ParameterCountError
  else
    let '(args, self_args) :=
      if truthy (param_until command) then
        let separator_index := list_index until args in
        let args := firstn separator_index args in
        (args, skipn (List.length args + 1) self_args)
      else (args, skipn (List.length args) self_args) in
    match param_convert command with
    | Some convert =>
        converted <- mapM convert args ;; Return (converted, self_args)
    | None => Return (map VStr args, self_args)
    end.

(** One pass of the [for] loop over the registry for the head token. *)
Inductive Dispatch : Type :=
| NoMatch
| Aborted (e : PyExn)
| Invoked (command : Command) (params : list Value) (rest : list string)
          (self : CommandProcessor) (result : Outcome PyRet).

Fixpoint dispatch (registry : list Command) (args : list string)
    (self : CommandProcessor) : Dispatch :=
  match registry with
  | [] => NoMatch
  | command :: registry' =>
      match parse_command args (arg_long command) (arg_short command)
                          (param_count command) with
      | Raise e => Aborted e
      | Return (false, _) => dispatch registry' args self
      | Return (true, args') =>
          match parse_command_params command args' with
          | Raise e => Aborted e
          | Return (params, rest) =>
              let '(self', result) := func command self params in
              Invoked command params rest self' result
          end
      end
  end.

(** The handler invocations made so far, oldest first: the long flag and the
    parameters handed over.  This log is not a variable of the source; it
    records each evaluation of [command.func(self, *args)]. *)
Definition Trace : Type := list (string * list Value).

(** How [parse_commands] ends: what it returns or raises, the processor at
    that point and the invocations made. *)
Inductive Run : Type :=
| Done (result : Outcome PyRet) (self : CommandProcessor) (calls : Trace)
| OutOfFuel.

(** An exception leaving the [try] block. *)
Definition on_exception (e : PyExn) (self : CommandProcessor) (calls : Trace) : Run :=
  if PyExn_eqb e ParameterCountError
  then Done (Return (Status MissingParameter)) self calls
  else Done (Raise e) self calls.

(** The [while] loop of [parse_commands]; [result] is the loop variable of
    the same name.  Each stage makes the argument list smaller, so the fuel
    given by [parse_commands] below is never used up. *)
Fixpoint parse_loop (registry : list Command) (fuel : nat) (args : list string)
    (self : CommandProcessor) (result : PyRet) (calls : Trace) : Run :=
  match args with
  | [] => Done (Return result) self calls
  | _ :: _ =>
      match fuel with
      | O => OutOfFuel
      | S fuel' =>
          match dispatch registry args self with
          | NoMatch => Done (Return (Status UnknownArgument)) self calls
          | Aborted e => on_exception e self calls
          | Invoked command params rest self' (Raise e) =>
              on_exception e self' (calls ++ [(arg_long command, params)])
          | Invoked command params rest self' (Return r) =>
              let calls' := calls ++ [(arg_long command, params)] in
              if PyRet_is r UnknownArgument then
                (* [print(f"... {self.args[0]}")] *)
                match rest with
                | [] => Done (Raise IndexError) self' calls'
                | _ :: _ => Done (Return r) self' calls'
                end
              else if negb (PyRet_is r Ok) && stop_on_error self' then
                (* the message joins the parameters with [' '.join(args)] *)
                if forallb is_VStr params
                then Done (Return r) self' calls'
                else Done (Raise TypeError) self' calls'
              else parse_loop registry fuel' rest self' r calls'
          end
      end
  end.

Definition args_weight (args : list string) : nat :=
  fold_right (fun a n => S (String.length a) + n) 0 args.

(** [parse_commands] *)
Definition parse_commands (registry : list Command) (args : list string)
    (self : CommandProcessor) : Run :=
  parse_loop registry (args_weight args) args self (Status NoCommands) [].

(** *** Notions used to state properties of the loop *)

(** The first command in registration order whose flag matches the head
    token, with the argument list that matching leaves. *)
Fixpoint first_match (registry : list Command) (arg : string) (rest : list string)
  : option (Command * list string) :=
  match registry with
  | [] => None
  | command :: registry' =>
      match match_flag arg rest (arg_long command) (arg_short command) with
      | Some args' => Some (command, args')
      | None => first_match registry' arg rest
      end
  end.

(** The variables of the loop at the top of an iteration. *)
Record LoopState : Type := {
  ls_args : list string;
  ls_self : CommandProcessor;
  ls_result : PyRet;
  ls_calls : Trace
}.

Definition initial (args : list string) (self : CommandProcessor) : LoopState :=
  {| ls_args := args; ls_self := self; ls_result := Status NoCommands; ls_calls := [] |}.

(** One stage that ran and let the loop go on: its handler returned [Ok],
    or something else while [stop_on_error] was off. *)
Inductive stage (registry : list Command) : LoopState -> LoopState -> Prop :=
| stage_intro : forall s1 s2 command params,
    ls_args s1 <> [] ->
    dispatch registry (ls_args s1) (ls_self s1)
      = Invoked command params (ls_args s2) (ls_self s2) (Return (ls_result s2)) ->
    PyRet_is (ls_result s2) UnknownArgument = false ->
    negb (PyRet_is (ls_result s2) Ok) && stop_on_error (ls_self s2) = false ->
    ls_calls s2 = ls_calls s1 ++ [(arg_long command, params)] ->
    stage registry s1 s2.

(** Any number of such stages. *)
Inductive reaches (registry : list Command) : LoopState -> LoopState -> Prop :=
| reaches_here : forall s, reaches registry s s
| reaches_next : forall s1 s2 s3,
    stage registry s1 s2 -> reaches registry s2 s3 -> reaches registry s1 s3.

Definition run_from (registry : list Command) (fuel : nat) (s : LoopState) : Run :=
  parse_loop registry fuel (ls_args s) (ls_self s) (ls_result s) (ls_calls s).

End Interpreter.

(* ------------------------------------------------------------------ *)
(** ** Sort keys and numbers *)

(** What [key_func] can hand to [sorted]: a string, an integer, a float, or
    [None] (an optional regex group that took no part in the match). *)
Inductive Key : Type :=
| KStr (s : string)
| KInt (z : Z)
| KFloat (f : spec_float)
| KNone.

(** The exact value of a number: [m * 2^e], an infinity, or not a number.
    Python compares integers and floats by exact value. *)
Inductive ExactNum : Type :=
| Dyadic (m e : Z)
| Infinite (negative : bool)
| NotANumber.

Definition float_value (f : spec_float) : ExactNum :=
  match f with
  | S754_zero _ => Dyadic 0 0
  | S754_infinity s => Infinite s
  | S754_nan => NotANumber
  | S754_finite s m e => Dyadic (if s then Z.neg m else Z.pos m) e
  end.

Definition dyadic_compare (m1 e1 m2 e2 : Z) : comparison :=
  let e := Z.min e1 e2 in
  (m1 * 2 ^ (e1 - e) ?= m2 * 2 ^ (e2 - e))%Z.

Definition num_compare (a b : ExactNum) : option comparison :=
  match a, b with
  | NotANumber, _ | _, NotANumber => None
  | Infinite s1, Infinite s2 =>
      Some (if s1 then (if s2 then Eq else Lt) else (if s2 then Gt else Eq))
  | Infinite s, Dyadic _ _ => Some (if s then Lt else Gt)
  | Dyadic _ _, Infinite s => Some (if s then Gt else Lt)
  | Dyadic m1 e1, Dyadic m2 e2 => Some (dyadic_compare m1 e1 m2 e2)
  end.

Definition key_num (k : Key) : option ExactNum :=
  match k with
  | KInt z => Some (Dyadic z 0)
  | KFloat f => Some (float_value f)
  | KStr _ | KNone => None
  end.

(** [a < b]: strings by code points, numbers by value, anything else is a
    [TypeError]. *)
Definition key_lt (a b : Key) : Outcome bool :=
  match a, b with
  | KStr x, KStr y => Return (String.ltb x y)
  | _, _ =>
      match key_num a, key_num b with
      | Some x, Some y =>
          Return (match num_compare x y with Some Lt => true | _ => false end)
      | _, _ => Raise TypeError
      end
  end.

(** [a == b] *)
Definition key_eqb (a b : Key) : bool :=
  match a, b with
  | KStr x, KStr y => String.eqb x y
  | KNone, KNone => true
  | _, _ =>
      match key_num a, key_num b with
      | Some x, Some y =>
          match num_compare x y with Some Eq => true | _ => false end
      | _, _ => false
      end
  end.

(** [float("inf")] and [float("-inf")] *)
Definition float_inf (negative : bool) : spec_float := S754_infinity negative.

(** [sorted] and [list.sort] are the interpreter's.  They are modelled as
    CPython 3.11 has them in [Objects/listobject.c], comparison by
    comparison, since the place an element comes to depends on which
    comparisons are made once [<] does not order the keys, as with a float
    that is no number. *)
Section Sorted.
Variable A : Type.

(** [count_run], after its first comparison: how many more elements the
    run takes in.  A run in ascending order goes on until an element is
    less than the one before it; a run in strictly descending order goes on
    as long as each element is less than the one before it. *)
Fixpoint run_rest (descending : bool) (prev : Key) (l : list (Key * A)) : Outcome nat :=
  match l with
  | [] => Return 0
  | x :: l' =>
      b <- key_lt (fst x) prev ;;
      if Bool.eqb b descending
      then n <- run_rest descending (fst x) l' ;; Return (S n)
      else Return 0
  end.

(** [count_run]: the length of the run the list begins with, and whether
    the run descends. *)
Definition count_run (l : list (Key * A)) : Outcome (nat * bool) :=
  match l with
  | [] => Return (0, false)
  | [_] => Return (1, false)
  | x :: y :: l' =>
      descending <- key_lt (fst y) (fst x) ;;
      n <- run_rest descending (fst y) l' ;;
      Return (2 + n, descending)
  end.

(** The inner loop of [binarysort]: [l] and [r] close in on the place of
    [pivot] among [keys].  The loop body runs at least once and halves
    [r - l] each time, so that a fuel of [r - l] is never used up. *)
Fixpoint bisect (fuel : nat) (pivot : Key) (keys : list Key) (l r : nat) : Outcome nat :=
  match fuel with
  | O => Return l
  | S fuel' =>
      let p := l + Nat.div2 (r - l) in
      b <- key_lt pivot (nth p keys KNone) ;;
      let l' := if b then l else S p in
      let r' := if b then p else r in
      if Nat.ltb l' r' then bisect fuel' pivot keys l' r' else Return l'
  end.

(** [binarysort]: each element of [todo] in turn is put into [done] at the
    place the binary search gives. *)
Fixpoint binarysort (done todo : list (Key * A)) : Outcome (list (Key * A)) :=
  match todo with
  | [] => Return done
  | pivot :: todo' =>
      l <- bisect (List.length done) (fst pivot) (map fst done) 0 (List.length done) ;;
      binarysort (firstn l done ++ pivot :: skipn l done) todo'
  end.

(** The ascending sort of [list.sort]: the run the list begins with is
    found, turned round if it descends, and the other elements are put into
    it by binary insertion.  For a list of fewer than 64 elements this is
    [list.sort] step for step.  A longer list is cut into several runs,
    each made this way, which are then merged; that gives the same list
    whenever [<] orders the keys, and the merge is not modelled. *)
Definition list_sort (l : list (Key * A)) : Outcome (list (Key * A)) :=
  found <- count_run l ;;
  let run := firstn (fst found) l in
  binarysort (if snd found then rev run else run) (skipn (fst found) l).

(** [sorted(l, key=key, reverse=reverse)]: the keys are computed first;
    for [reverse] the list is reversed, sorted ascending and reversed
    again. *)
Definition sorted (l : list A) (key : A -> Outcome Key) (reverse : bool)
  : Outcome (list A) :=
  keys <- mapM key l ;;
  let keyed := combine keys l in
  let keyed := if reverse then rev keyed else keyed in
  s <- list_sort keyed ;;
  Return (map snd (if reverse then rev s else s)).
End Sorted.

(** Numbers summed by [--sum]. *)
Inductive Num : Type :=
| NInt (z : Z)
| NFloat (f : spec_float).

Definition is_NInt (v : Num) : bool :=
  match v with NInt _ => true | NFloat _ => false end.

Definition str_of_Z (z : Z) : string :=
  DecimalString.NilZero.string_of_int (Z.to_int z).

Definition hex_of_Z (z : Z) : string :=
  HexadecimalString.NilZero.string_of_int (Z.to_hex_int z).

(** The parts of Python's [re] module the handlers call. *)
Class ReModule : Type := {
  Pattern : Type;
  Match : Type;
  (** [re.compile(pattern)]; [re.error] is [Raise ReError] *)
  re_compile : string -> Outcome Pattern;
  (** [pattern.search(line)] *)
  re_search : Pattern -> string -> option Match;
  (** [match.group(name)]: the text, [None] for a group that took no part,
      [IndexError] for a name the pattern does not have *)
  match_group : Match -> string -> Outcome (option string);
  (** [re.sub(pattern, repl, line, flags=re.DOTALL)] on the pattern text *)
  re_sub : string -> string -> string -> Outcome string
}.

(** Python's float parsing, float summation and formatting. *)
Class NumModule : Type := {
  (** [float(text)] *)
  py_float : string -> Outcome spec_float;
  (** [sum(values)] when a float is among the values *)
  py_sum_floats : list Num -> Outcome Num;
  (** [format(value, spec)] apart from the integer cases below *)
  py_format : Num -> string -> Outcome string
}.

(* ------------------------------------------------------------------ *)
(** ** The handlers *)

Definition DQUOTE : string := String (ascii_of_nat 34) EmptyString.
Definition SQUOTE : string := String (ascii_of_nat 39) EmptyString.
Definition BACKSLASH : string := String (ascii_of_nat 92) EmptyString.
Definition TABS : string := String TAB EmptyString.
Definition CRS : string := String CR EmptyString.

(** The escapes [\n], [\t], [\r] written out by the user, as two characters. *)
Definition ESC_N : string := String (ascii_of_nat 92) "n".
Definition ESC_T : string := String (ascii_of_nat 92) "t".
Definition ESC_R : string := String (ascii_of_nat 92) "r".

Definition is_alpha (c : ascii) : bool :=
  let n := nat_of_ascii c in
  (Nat.leb 65 n && Nat.leb n 90) || (Nat.leb 97 n && Nat.leb n 122).

(** The longest prefix of ASCII letters and what follows it: [[a-zA-Z]+]
    can only end where the letters end, since a non-letter follows it in
    each of the three path patterns. *)
Fixpoint span_alpha (s : string) : string * string :=
  match s with
  | EmptyString => (EmptyString, EmptyString)
  | String c s' =>
      if is_alpha c then let '(d, r) := span_alpha s' in (String c d, r)
      else (EmptyString, s)
  end.

Fixpoint has_char (c : ascii) (s : string) : bool :=
  match s with
  | EmptyString => false
  | String c' s' => Ascii.eqb c' c || has_char c s'
  end.

(** The group [path] with the end anchor that closes each path pattern:
    the dot matches anything but a line feed, the anchor matches at the end
    and before a line feed that ends the text. *)
Definition dot_star_end (s : string) : option string :=
  if negb (has_char LF s) then Some s
  else
    let p := removesuffix s NL in
    if endswith s NL && negb (has_char LF p) then Some p else None.

Definition drive_and_path (s : string) (seps : list ascii)
  : option (string * string) :=
  match span_alpha s with
  | (String c d, String sep rest) =>
      if existsb (Ascii.eqb sep) seps then
        match dot_star_end rest with
        | Some path => Some (String c d, path)
        | None => None
        end
      else None
  | _ => None
  end.

(** [win_path_re.match(line)]: the groups [drive] and [path]; letters, a
    colon, a slash or backslash, then the rest of the line. *)
Definition win_path_re (line : string) : option (string * string) :=
  match span_alpha line with
  | (String c d, String ":" rest) =>
      match rest with
      | String sep rest' =>
          if Ascii.eqb sep "/" || Ascii.eqb sep (ascii_of_nat 92) then
            match dot_star_end rest' with
            | Some path => Some (String c d, path)
            | None => None
            end
          else None
      | EmptyString => None
      end
  | _ => None
  end.

(** [cygwin_path_re.match(line)]: [/cygdrive/], letters, a slash, then the
    rest of the line. *)
Definition cygwin_path_re (line : string) : option (string * string) :=
  if startswith line "/cygdrive/"
  then drive_and_path (str_drop 10 line) ["/"%char]
  else None.

(** [msys2_path_re.match(line)]: a slash, letters, a slash, then the rest of
    the line. *)
Definition msys2_path_re (line : string) : option (string * string) :=
  if startswith line "/"
  then drive_and_path (str_drop 1 line) ["/"%char]
  else None.

Definition is_some {A : Type} (o : option A) : bool :=
  match o with Some _ => true | None => false end.

Fixpoint filter_map {A B : Type} (f : A -> option B) (l : list A) : list B :=
  match l with
  | [] => []
  | x :: l' =>
      match f x with
      | Some y => y :: filter_map f l'
      | None => filter_map f l'
      end
  end.

Section Handlers.
Context {os : OsModule} {re : ReModule} {num : NumModule}.

Definition ok (self : CommandProcessor) : CommandProcessor * Outcome PyRet :=
  (self, Return (Status Ok)).

Definition status (self : CommandProcessor) (r : CommandResults.t)
  : CommandProcessor * Outcome PyRet :=
  (self, Return (Status r)).

(** A call whose arguments do not fit the method's signature. *)
Definition bad_call (self : CommandProcessor) : CommandProcessor * Outcome PyRet :=
  (self, Raise TypeError).

Definition lines_of (self : CommandProcessor) : list string :=
  splitlines (current_output self).

(** [--stoponerror] *)
Definition set_exit : Handler := fun self args =>
  match args with
  | [VStr mode] =>
      let mode := lower (strip mode) in
      if negb (str_in mode ["true"; "false"]) then status self InvalidOutputMode
      else ok (set_stop_on_error self (negb (String.eqb mode "false")))
  | _ => bad_call self
  end.

(** [--help] and [--print] only write to the console. *)
Definition print_help : Handler := fun self args =>
  match args with
  | [] => ok self
  | _ => bad_call self
  end.

Definition print : Handler := print_help.

(** The separator the input handlers put after a non-empty buffer. *)
Definition start_line (self : CommandProcessor) : CommandProcessor :=
  if negb (String.eqb (current_output self) EmptyString)
  then set_current_output self (current_output self ++ NL)
  else self.

(** [--in] *)
Definition append : Handler := fun self args =>
  match args with
  | [VStr input] =>
      let self := start_line self in
      let input := replace (replace (replace input ESC_N NL) ESC_T TABS) ESC_R CRS in
      ok (set_current_output self (current_output self ++ input))
  | _ => bad_call self
  end.

(** [--read] *)
Definition read : Handler := fun self args =>
  match args with
  | [VStr path] =>
      let self := start_line self in
      match open_read (fs self) path with
      | Return text => ok (set_current_output self (current_output self ++ text))
      | Raise OSError =>
          if stop_on_error self then status self IOError else ok self
      | Raise e => (self, Raise e)
      end
  | _ => bad_call self
  end.

(** [--include] *)
Definition lines : Handler := fun self args =>
  match args with
  | [VInt line_from; VInt line_to] =>
      let lines := lines_of self in
      let line_to := if (line_to =? 0)%Z then Z.of_nat (List.length lines) else line_to in
      ok (set_current_output self (join NL (py_slice lines line_from line_to)))
  | _ => bad_call self
  end.

(** [--exclude] *)
Definition remove_lines : Handler := fun self args =>
  match args with
  | [VInt line_from; VInt line_to] =>
      let lines := lines_of self in
      let n := Z.of_nat (List.length lines) in
      let line_to := if (line_to =? 0)%Z then n else line_to in
      ok (set_current_output self
            (join NL (py_slice lines 0 line_from ++ py_slice lines line_to n)))
  | _ => bad_call self
  end.

(** [--filter] and [--filter-out]; [keep] is the truth value of the search
    that keeps a line. *)
Definition filter_by (keep : bool) : Handler := fun self args =>
  match args with
  | [VStr pattern] =>
      match re_compile pattern with
      | Raise ReError => status self RegexError
      | Raise e => (self, Raise e)
      | Return compiled_pattern =>
          let filtered_lines :=
            filter (fun line => Bool.eqb (is_some (re_search compiled_pattern line)) keep)
                   (lines_of self) in
          ok (set_current_output self (join NL filtered_lines))
      end
  | _ => bad_call self
  end.

Definition filter_lines : Handler := filter_by true.
Definition remove_lines_regex : Handler := filter_by false.

(** [--noempty] *)
Definition remove_empty_lines : Handler := fun self args =>
  match args with
  | [] =>
      let non_empty_lines :=
        filter (fun line => negb (String.eqb (strip line) EmptyString)) (lines_of self) in
      ok (set_current_output self (join NL non_empty_lines))
  | _ => bad_call self
  end.

(** [--sub] *)
Definition regex_replace : Handler := fun self args =>
  match args with
  | [VStr pattern; VStr replacements] =>
      match re_compile pattern with
      | Raise ReError => status self RegexError
      | Raise e => (self, Raise e)
      | Return _ =>
          match mapM (re_sub pattern replacements) (lines_of self) with
          | Return new_lines => ok (set_current_output self (join NL new_lines))
          | Raise e => (self, Raise e)
          end
      end
  | _ => bad_call self
  end.

(** *** [--sort] *)

Inductive Column : Type :=
| ColIndex (i : Z)
| ColPattern (p : Pattern).

(** The conversions the flags can select for a captured value. *)
Inductive NumFunc : Type :=
| NumFloat     (* float(value) *)
| NumInt       (* int(value) *)
| NumInt16.    (* int(value, 16) *)

Inductive KeyFunc : Type :=
| KeyIdentity  (* value *)
| KeyStrip     (* value.strip() *)
| KeyNumeric (f : NumFunc).

(** The local variables of [sort] once the flag loop is done. *)
Record SortFlags : Type := {
  column : Column;
  reverse : bool;
  ignore_error_lines : bool;
  use_numeric : bool;
  key_func : KeyFunc
}.

(** The value of [column=...]: an integer, else a regular expression with
    its escapes decoded and one pair of quotes removed. *)
Definition unquote (flag : string) : string :=
  removeprefix (removesuffix (removeprefix (removesuffix flag DQUOTE) DQUOTE) SQUOTE) SQUOTE.

Definition decode_escapes (flag : string) : string :=
  replace (replace (replace flag ESC_T TABS) ESC_N NL) ESC_R CRS.

Definition parse_column (flag : string) : Outcome Column :=
  match py_int flag with
  | Return n => Return (ColIndex (n - 1))
  | Raise _ =>
      p <- re_compile (unquote (decode_escapes flag)) ;; Return (ColPattern p)
  end.

Fixpoint sort_flags (split_flags : list string) (f : SortFlags)
  : SortFlags + CommandResults.t :=
  match split_flags with
  | [] => inl f
  | flag :: more =>
      let next c r i u k :=
        sort_flags more {| column := c; reverse := r; ignore_error_lines := i;
                           use_numeric := u; key_func := k |} in
      let c := column f in
      let r := reverse f in
      let i := ignore_error_lines f in
      let u := use_numeric f in
      let k := key_func f in
      if String.eqb flag "none" then next c r i u k
      else if String.eqb flag "desc" then next c true i u k
      else if String.eqb flag "asc" then next c false i u k
      else if String.eqb flag "float" then next c r i true (KeyNumeric NumFloat)
      else if String.eqb flag "int" then next c r i true (KeyNumeric NumInt)
      else if String.eqb flag "int16" then next c r i true (KeyNumeric NumInt16)
      else if String.eqb flag "strip" then next c r i u KeyStrip
      else if String.eqb flag "ignore_error_lines" then next c r true u k
      else if startswith flag "column=" then
        match parse_column (removeprefix flag "column=") with
        | Return c' => next c' r i u k
        | Raise _ => inr InvalidSortColumn
        end
      else inr InvalidSortFlag
  end.

Definition sort_defaults : SortFlags :=
  {| column := ColIndex 0; reverse := false; ignore_error_lines := false;
     use_numeric := false; key_func := KeyIdentity |}.

(** A numeric conversion applied to a captured value, which is a string or
    [None]. *)
Definition apply_num_func (f : NumFunc) (value : option string) : Outcome Num :=
  match value with
  | None => Raise TypeError
  | Some text =>
      match f with
      | NumFloat => x <- py_float text ;; Return (NFloat x)
      | NumInt => z <- py_int text ;; Return (NInt z)
      | NumInt16 => z <- py_int_base 16 text ;; Return (NInt z)
      end
  end.

Definition key_of_num (v : Num) : Key :=
  match v with
  | NInt z => KInt z
  | NFloat x => KFloat x
  end.

Definition apply_key_func (k : KeyFunc) (value : option string) : Outcome Key :=
  match k with
  | KeyIdentity =>
      Return (match value with Some text => KStr text | None => KNone end)
  | KeyStrip =>
      match value with
      | Some text => Return (KStr (strip text))
      | None => Raise AttributeError
      end
  | KeyNumeric f => v <- apply_num_func f value ;; Return (key_of_num v)
  end.

(** The key given to a line the flags say to ignore. *)
Definition error_key (f : SortFlags) : Key :=
  if use_numeric f then KFloat (float_inf (reverse f)) else KStr EmptyString.

(** The exception raised for a capture that cannot be converted: its message
    reads the group again, which raises first when the group is missing. *)
Definition conversion_error (m : Match) : PyExn :=
  match match_group m "value" with
  | Raise e => e
  | Return _ => PyException
  end.

(** [get_value] of [sort] *)
Definition sort_get_value (f : SortFlags) (line : string) : Outcome Key :=
  match column f with
  | ColIndex column =>
      let split_line := re_split_blanks line in
      if (column >=? Z.of_nat (List.length split_line))%Z then
        if ignore_error_lines f then Return (error_key f) else Raise PyException
      else
        field <- py_index split_line column ;;
        apply_key_func (key_func f) (Some field)
  | ColPattern column =>
      match re_search column line with
      | Some m =>
          match (value <- match_group m "value" ;; apply_key_func (key_func f) value) with
          | Return k => Return k
          | Raise _ =>
              if ignore_error_lines f then Return (error_key f)
              else Raise (conversion_error m)
          end
      | None =>
          if ignore_error_lines f then Return (error_key f) else Raise PyException
      end
  end.

Definition sort : Handler := fun self args =>
  match args with
  | [VStr flags] =>
      match sort_flags (split flags ",") sort_defaults with
      | inr e => status self e
      | inl f =>
          let lines := lines_of self in
          (* the validation pass *)
          match mapM (sort_get_value f) lines with
          | Raise _ => status self InvalidSortValue
          | Return _ =>
              match sorted lines (sort_get_value f) (reverse f) with
              | Return lines => ok (set_current_output self (join NL lines))
              | Raise e => (self, Raise e)
              end
          end
      end
  | _ => bad_call self
  end.

(** [--unique]: [unique_lines[-1]] is read before anything is appended. *)
Fixpoint unique_loop (lines unique_lines : list string) : Outcome (list string) :=
  match lines with
  | [] => Return unique_lines
  | line :: more =>
      last <- py_index unique_lines (-1) ;;
      if negb (String.eqb line last)
      then unique_loop more (unique_lines ++ [line])
      else unique_loop more unique_lines
  end.

Definition unique : Handler := fun self args =>
  match args with
  | [] =>
      match unique_loop (lines_of self) [] with
      | Return unique_lines => ok (set_current_output self (join NL unique_lines))
      | Raise e => (self, Raise e)
      end
  | _ => bad_call self
  end.

(** [--reverse], [--first], [--last], [--count] *)
Definition reverse_lines : Handler := fun self args =>
  match args with
  | [] => ok (set_current_output self (join NL (rev (lines_of self))))
  | _ => bad_call self
  end.

Definition first_line : Handler := fun self args =>
  match args with
  | [] => ok (set_current_output self (hd EmptyString (lines_of self)))
  | _ => bad_call self
  end.

Definition last_line : Handler := fun self args =>
  match args with
  | [] => ok (set_current_output self (last (lines_of self) EmptyString))
  | _ => bad_call self
  end.

Definition count_lines : Handler := fun self args =>
  match args with
  | [] => ok (set_current_output self (str_of_nat (List.length (lines_of self))))
  | _ => bad_call self
  end.

(** *** [--sum] *)

Inductive OutFunc : Type :=
| OutFloat      (* f"{value:f}" *)
| OutHex        (* f"{value:x}" *)
| OutInt        (* f"{value:d}" *)
| OutPrecision. (* f"{value:.{flag}f}", [flag] read when the total is formatted *)

(** The local variables of [sum_lines] once the flag loop is done;
    [flag_var] is the loop variable [flag] as the last pass left it, which
    is what the precision format reads. *)
Record SumFlags : Type := {
  sum_column : Column;
  sum_ignore_error_lines : bool;
  sum_key_func : NumFunc;
  out_func : OutFunc;
  flag_var : string
}.

(** [column=...] of [sum_lines], with the value [flag] is left at. *)
Definition sum_parse_column (flag : string) : Outcome Column * string :=
  match py_int flag with
  | Return n => (Return (ColIndex (n - 1)), flag)
  | Raise _ =>
      let flag := decode_escapes flag in
      (p <- re_compile (unquote flag) ;; Return (ColPattern p), flag)
  end.

Fixpoint sum_flags (split_flags : list string) (f : SumFlags)
  : SumFlags + CommandResults.t :=
  match split_flags with
  | [] => inl f
  | flag :: more =>
      let next c i k o v :=
        sum_flags more {| sum_column := c; sum_ignore_error_lines := i;
                          sum_key_func := k; out_func := o; flag_var := v |} in
      let c := sum_column f in
      let i := sum_ignore_error_lines f in
      let k := sum_key_func f in
      let o := out_func f in
      if String.eqb flag "none" || String.eqb flag "float" then next c i k o flag
      else if String.eqb flag "int16" then next c i NumInt16 OutHex flag
      else if String.eqb flag "int" then next c i NumInt OutInt flag
      else if startswith flag "float=" then
        next c i k OutPrecision (removeprefix flag "float=")
      else if String.eqb flag "ignore_error_lines" then next c true k o flag
      else if startswith flag "column=" then
        match sum_parse_column (removeprefix flag "column=") with
        | (Return c', flag') => next c' i k o flag'
        | (Raise _, _) => inr InvalidSortColumn
        end
      else inr InvalidSumFlag
  end.

Definition sum_defaults : SumFlags :=
  {| sum_column := ColIndex 0; sum_ignore_error_lines := false;
     sum_key_func := NumFloat; out_func := OutFloat; flag_var := EmptyString |}.

(** [get_value] of [sum_lines] *)
Definition sum_get_value (f : SumFlags) (line : string) : Outcome Num :=
  match sum_column f with
  | ColIndex column =>
      let split_line := re_split_blanks line in
      if (column >=? Z.of_nat (List.length split_line))%Z then
        if sum_ignore_error_lines f then Return (NInt 0) else Raise PyException
      else
        field <- py_index split_line column ;;
        apply_num_func (sum_key_func f) (Some field)
  | ColPattern column =>
      match re_search column line with
      | Some m =>
          match (value <- match_group m "value" ;; apply_num_func (sum_key_func f) value) with
          | Return v => Return v
          | Raise _ =>
              if sum_ignore_error_lines f then Return (NInt 0)
              else Raise (conversion_error m)
          end
      | None =>
          if sum_ignore_error_lines f then Return (NInt 0) else Raise PyException
      end
  end.

(** [sum(values)]: exact on integers. *)
Definition py_sum (values : list Num) : Outcome Num :=
  if forallb is_NInt values then
    Return (NInt (fold_left (fun acc v => match v with NInt z => acc + z | NFloat _ => acc end)%Z
                            values 0%Z))
  else py_sum_floats values.

(** [format(value, spec)]: the integer presentations are written out (see
    [py_int_base] for the limit on decimal digits, which is not modelled). *)
Definition format_value (value : Num) (spec : string) : Outcome string :=
  match value with
  | NInt z =>
      if String.eqb spec "d" then Return (str_of_Z z)
      else if String.eqb spec "x" then Return (hex_of_Z z)
      else py_format value spec
  | NFloat _ =>
      if String.eqb spec "d" || String.eqb spec "x" then Raise ValueError
      else py_format value spec
  end.

Definition apply_out_func (f : SumFlags) (value : Num) : Outcome string :=
  match out_func f with
  | OutFloat => format_value value "f"
  | OutHex => format_value value "x"
  | OutInt => format_value value "d"
  | OutPrecision => format_value value ("." ++ flag_var f ++ "f")
  end.

Definition sum_lines : Handler := fun self args =>
  match args with
  | [VStr flags] =>
      match sum_flags (split flags ",") sum_defaults with
      | inr e => status self e
      | inl f =>
          let lines := lines_of self in
          (* the validation pass *)
          match mapM (sum_get_value f) lines with
          | Raise _ => status self InvalidSumValue
          | Return _ =>
              match (values <- mapM (sum_get_value f) lines ;;
                     result <- py_sum values ;;
                     apply_out_func f result) with
              | Return text => ok (set_current_output self text)
              | Raise e => (self, Raise e)
              end
          end
      end
  | _ => bad_call self
  end.

(** *** Path translation and directories *)

Definition on_windows (self : CommandProcessor) : bool :=
  String.eqb (os_name (host self)) "nt"
  || String.eqb (sys_platform (host self)) "cygwin".

Definition is_cygwin_env (self : CommandProcessor) : bool :=
  path_isdir (fs self) "/cygdrive".

Definition is_msys2_env (self : CommandProcessor) : bool :=
  let environ := environ (host self) in
  is_some (environ_get environ "MSYSTEM")
  || path_exists (fs self) "/mingw64"
  || path_exists (fs self) "/mingw32"
  || String.eqb (lower (match environ_get environ "MSYS" with
                        | Some v => v
                        | None => EmptyString
                        end)) "true".

(** The body of the loop of [env_path]: the line appended to [new_lines],
    if any. *)
Definition env_path_line (self : CommandProcessor) (line : string) : option string :=
  let line := replace (strip line) BACKSLASH "/" in
  match win_path_re line with
  | Some (drive, path) =>
      let drive := lower drive in
      let line :=
        if is_cygwin_env self then ("/cygdrive/" ++ drive ++ "/" ++ path)%string
        else if is_msys2_env self then ("/" ++ drive ++ "/" ++ path)%string
        else line in
      Some (removesuffix (replace line "//" "/") "/")
  | None => None
  end.

(** [--env-path] *)
Definition env_path : Handler := fun self args =>
  match args with
  | [] =>
      if on_windows self then
        ok (set_current_output self
              (join NL (filter_map (env_path_line self) (lines_of self))))
      else ok self
  | _ => bad_call self
  end.

(** The body of the loop of [platform_path]. *)
Definition platform_path_line (self : CommandProcessor) (line : string) : string :=
  let line := replace (strip line) BACKSLASH "/" in
  if is_cygwin_env self then
    match cygwin_path_re line with
    | Some (drive, path) => (lower drive ++ ":/" ++ path)%string
    | None => line
    end
  else if is_msys2_env self then
    match msys2_path_re line with
    | Some (drive, path) => (lower drive ++ ":/" ++ path)%string
    | None => line
    end
  else line.

(** [--platform-path] *)
Definition platform_path : Handler := fun self args =>
  match args with
  | [] =>
      if on_windows self then
        ok (set_current_output self
              (join NL (map (platform_path_line self) (lines_of self))))
      else ok self
  | _ => bad_call self
  end.

(** [--shell-list] *)
Definition shell_list : Handler := fun self args =>
  match args with
  | [] =>
      let sep :=
        if String.eqb (os_name (host self)) "nt" && negb (is_cygwin_env self)
        then ";" else ":" in
      ok (set_current_output self (join sep (lines_of self)))
  | _ => bad_call self
  end.

(** [--ensure-dir] *)
Definition ensure_dir_explicit : Handler := fun self args =>
  match args with
  | [VStr path] =>
      match makedirs (fs self) path with
      | Return fs' => ok (set_fs self fs')
      | Raise OSError => status self IOError
      | Raise e => (self, Raise e)
      end
  | _ => bad_call self
  end.

(** [--ensure-dirs]: the [return] sits inside the [if], and the end of the
    loop is the end of the method. *)
Fixpoint ensure_dirs_loop (self : CommandProcessor) (lines : list string)
  : CommandProcessor * Outcome PyRet :=
  match lines with
  | [] => (self, Return PyNone)
  | line :: more =>
      let path := strip line in
      if negb (String.eqb path EmptyString) && negb (path_exists (fs self) path) then
        match makedirs (fs self) path with
        | Return fs' => ok (set_fs self fs')
        | Raise OSError => status self IOError
        | Raise e => (self, Raise e)
        end
      else ensure_dirs_loop self more
  end.

Definition ensure_dirs : Handler := fun self args =>
  match args with
  | [VStr _] => ensure_dirs_loop self (lines_of self)
  | _ => bad_call self
  end.

(** *** The registry *)

(** The handlers that only wrap a process, clock or file-system call are
    taken as given, under the name of their method. *)
Variable extern : string -> Handler.

Definition int_converter (x : string) : Outcome Value :=
  z <- py_int x ;; Return (VInt z).

(** The decorated methods in the order of the class dictionary, which is the
    order [parse_commands] scans them in.  [platform_exec] and
    [platform_open] are defined twice: each keeps the place of its first
    definition and the body of its second. *)
Definition registry : list Command :=
  [ Command_init "--env" None ["KEY=VALUE"] (-1) None None (extern "set_env");
    Command_init "--stdout" None ["MODE|PATH"] (-1) None None (extern "set_stdout");
    Command_init "--stderr" None ["MODE|PATH"] (-1) None None (extern "set_stderr");
    Command_init "--stoponerror" None ["MODE"] (-1) None None set_exit;
    Command_init "--help" (Some "-h") [] (-1) None None print_help;
    Command_init "--platform-exec" None [] (-1) None None (extern "platform_exec");
    Command_init "--platform-open" None [] (-1) None None (extern "platform_open");
    Command_init "--exec" (Some "-e") ["COMMAND"; "ARGS..."] (-1) (Some ";") None
                 (extern "run_command");
    Command_init "--in" (Some "-i") ["STR"] (-1) None None append;
    Command_init "--read" (Some "-r") ["PATH"] (-1) None None read;
    Command_init "--platform" (Some "-p") [] (-1) None None (extern "platform");
    Command_init "--cygwin" (Some "-c") [] (-1) None None (extern "cygwin_version");
    Command_init "--mingw" (Some "-m") [] (-1) None None (extern "mingw_version");
    Command_init "--timestamp" None [] (-1) None None (extern "timestamp");
    Command_init "--out" (Some "-o") ["PATH"] (-1) None None (extern "write_file");
    Command_init "--append" (Some "-a") ["PATH"] (-1) None None (extern "append_file");
    Command_init "--print" None [] (-1) None None print;
    Command_init "--foreach" None ["COMMAND"; "ARGS..."] (-1) (Some ";") None
                 (extern "for_each_line");
    Command_init "--include" None ["FROM"; "TO"] (-1) None (Some int_converter) lines;
    Command_init "--exclude" None ["FROM"; "TO"] (-1) None (Some int_converter)
                 remove_lines;
    Command_init "--lower" (Some "-l") [] (-1) None None (extern "to_lower");
    Command_init "--upper" (Some "-u") [] (-1) None None (extern "to_upper");
    Command_init "--filter" (Some "-f") ["REGEX"] (-1) None None filter_lines;
    Command_init "--filter-out" None ["REGEX"] (-1) None None remove_lines_regex;
    Command_init "--noempty" None [] (-1) None None remove_empty_lines;
    Command_init "--sub" (Some "-s") ["REGEX"; "SUB"] 2 None None regex_replace;
    Command_init "--sort" None ["FLAGS"] (-1) None None sort;
    Command_init "--unique" None [] (-1) None None unique;
    Command_init "--reverse" None [] (-1) None None reverse_lines;
    Command_init "--first" None [] (-1) None None first_line;
    Command_init "--last" None [] (-1) None None last_line;
    Command_init "--sum" None ["FLAGS"] (-1) None None sum_lines;
    Command_init "--count" None [] (-1) None None count_lines;
    Command_init "--env-path" None [] (-1) None None env_path;
    Command_init "--platform-path" None [] (-1) None None platform_path;
    Command_init "--shell-list" None [] (-1) None None shell_list;
    Command_init "--dirname" None [] (-1) None None (extern "dirname");
    Command_init "--basename" None [] (-1) None None (extern "basename");
    Command_init "--touch" None ["PATH"] (-1) None None (extern "touch");
    Command_init "--symlink" None ["TARGET"; "LINK"] (-1) None None (extern "symlink");
    Command_init "--ensure-dir" None ["PATH"] (-1) None None ensure_dir_explicit;
    Command_init "--ensure-dirs" None ["PATH"] (-1) None None ensure_dirs;
    Command_init "--glob" None [] (-1) None None (extern "glob_lines");
    Command_init "--exists" None [] (-1) None None (extern "exists");
    Command_init "--print-valid" None ["FLAGS"] (-1) None None (extern "print_valid") ].

End Handlers.

(* ------------------------------------------------------------------ *)
(** ** Further handlers *)

(** [d[key] = value] on a dictionary kept as a list in insertion order: an
    existing key keeps its place. *)
Fixpoint dict_set (d : list (string * string)) (key value : string)
  : list (string * string) :=
  match d with
  | [] => [(key, value)]
  | (k, v) :: d' =>
      if String.eqb k key then (k, value) :: d'
      else (k, v) :: dict_set d' key value
  end.

(** [s.split(sep, 1)]: the text before the first separator and the text
    after it; without a separator the whole text and nothing. *)
Fixpoint split_once (s : string) (sep : ascii) : string * option string :=
  match s with
  | EmptyString => (EmptyString, None)
  | String c s' =>
      if Ascii.eqb c sep then (EmptyString, Some s')
      else let '(a, b) := split_once s' sep in (String c a, b)
  end.

Section FurtherHandlers.
Context {os : OsModule}.

Definition set_env_dict (self : CommandProcessor) (d : list (string * string)) :=
  {| working_dir := working_dir self; env := d;
     current_output := current_output self;
     stdout_mode := stdout_mode self; stdout_path := stdout_path self;
     stderr_mode := stderr_mode self; stderr_path := stderr_path self;
     stop_on_error := stop_on_error self; host := host self; fs := fs self |}.

(** [--env] *)
Definition set_env : Handler := fun self args =>
  match args with
  | [VStr text] =>
      if has_char "=" text then
        match split_once text "=" with
        | (key, Some value) => ok (set_env_dict self (dict_set (env self) key value))
        | (_, None) => (self, Raise ValueError)
        end
      else status self InvalidEnvValue
  | _ => bad_call self
  end.

(** [--lower] *)
Definition to_lower : Handler := fun self args =>
  match args with
  | [] => ok (set_current_output self (lower (current_output self)))
  | _ => bad_call self
  end.

(** [--stdout] and [--stderr]; the parameter is a string, since neither
    command has a converter. *)
Definition set_stdout_fields (self : CommandProcessor) (mode : string)
    (path : option string) :=
  {| working_dir := working_dir self; env := env self;
     current_output := current_output self;
     stdout_mode := mode; stdout_path := path;
     stderr_mode := stderr_mode self; stderr_path := stderr_path self;
     stop_on_error := stop_on_error self; host := host self; fs := fs self |}.

Definition set_stderr_fields (self : CommandProcessor) (mode : string)
    (path : option string) :=
  {| working_dir := working_dir self; env := env self;
     current_output := current_output self;
     stdout_mode := stdout_mode self; stdout_path := stdout_path self;
     stderr_mode := mode; stderr_path := path;
     stop_on_error := stop_on_error self; host := host self; fs := fs self |}.

Definition console_modes : list string :=
  [CommandOutputMode.Process; CommandOutputMode.Print; CommandOutputMode.Ignore].

Definition set_stdout : Handler := fun self args =>
  match args with
  | [VStr mode] =>
      if str_in mode console_modes
      then ok (set_stdout_fields self mode None)
      else ok (set_stdout_fields self CommandOutputMode.Write (Some mode))
  | _ => bad_call self
  end.

Definition set_stderr : Handler := fun self args =>
  match args with
  | [VStr mode] =>
      if str_in mode console_modes
      then ok (set_stderr_fields self mode None)
      else ok (set_stderr_fields self CommandOutputMode.Write (Some mode))
  | _ => bad_call self
  end.

(** [--platform] *)
Definition platform_name (h : Host) : string :=
  if String.eqb (os_name h) "nt" || String.eqb (sys_platform h) "cygwin" then "Windows"
  else if String.eqb (sys_platform h) "linux" then "Linux"
  else if String.eqb (sys_platform h) "darwin" then "MacOS"
  else "Unknown".

Definition platform : Handler := fun self args =>
  match args with
  | [] =>
      let self := start_line self in
      ok (set_current_output self (current_output self ++ platform_name (host self)))
  | _ => bad_call self
  end.

(** [--platform-exec] and [--platform-open]: the second definition of each
    method is the one the class keeps. *)
Definition platform_exec : Handler := fun self args =>
  match args with
  | [] =>
      let self := start_line self in
      let extension :=
        if String.eqb (os_name (host self)) "nt"
           || String.eqb (sys_platform (host self)) "cygwin"
        then ".exe" else EmptyString in
      ok (set_current_output self (current_output self ++ extension))
  | _ => bad_call self
  end.

Definition platform_open : Handler := fun self args =>
  match args with
  | [] =>
      let self := start_line self in
      ok (set_current_output self (current_output self ++ EmptyString))
  | _ => bad_call self
  end.

(** [exec_cmd] starts a process and waits for it.  It is taken as given: from
    the processor, the command and its arguments it yields the file system
    the process leaves and either the status and captured text it returns
    or the exception it lets escape. *)
Variable exec_cmd :
  CommandProcessor -> Value -> list Value -> FS * Outcome (CommandResults.t * string).

(** [--exec] *)
Definition run_command : Handler := fun self args =>
  match args with
  | command :: args =>
      match exec_cmd self command args with
      | (fs', Return (result, output)) =>
          let self := start_line (set_fs self fs') in
          let self := set_current_output self (current_output self ++ output) in
          if negb (stop_on_error self) then ok self else status self result
      | (fs', Raise e) => (set_fs self fs', Raise e)
      end
  | [] => bad_call self
  end.



End FurtherHandlers.

(* ------------------------------------------------------------------ *)
(** ** Notions used to state properties of the handlers *)

Fixpoint str_forall (p : ascii -> bool) (s : string) : bool :=
  match s with
  | EmptyString => true
  | String c s' => p c && str_forall p s'
  end.

(** [sub in s] *)
Fixpoint contains (s sub : string) : bool :=
  startswith s sub
  || match s with
     | EmptyString => false
     | String _ s' => contains s' sub
     end.

(** What follows the drive in a path that the translations have nothing
    to tidy in: not empty, on one line, no slash at either end, no doubled
    slash and no white space at the end. *)
Definition tidy_rest (path : string) : bool :=
  negb (String.eqb path EmptyString)
  && str_forall (fun c => negb (is_linebreak c)) path
  && negb (startswith path "/")
  && negb (contains path "//")
  && negb (endswith path "/")
  && String.eqb (rstrip path) path.

(** A handler that ends in one of two ways: it gives the processor back
    as it got it, or it returns [Ok]. *)
Definition unchanged_or_ok {os : OsModule} (h : Handler) : Prop :=
  forall self args,
    fst (h self args) = self \/ snd (h self args) = Return (Status Ok).

(** The key of a line under the flags [f] is equal to [k]. *)
Definition has_key {re : ReModule} {num : NumModule} (f : SortFlags) (k : Key)
    (line : string) : bool :=
  match sort_get_value f line with
  | Return k' => key_eqb k k'
  | Raise _ => false
  end.

(** A text without a line boundary. *)
Definition one_line (s : string) : bool :=
  str_forall (fun c => negb (is_linebreak c)) s.

(** The text ends with a line boundary. *)
Fixpoint ends_with_linebreak (s : string) : bool :=
  match s with
  | EmptyString => false
  | String c EmptyString => is_linebreak c
  | String _ s' => ends_with_linebreak s'
  end.


(** An output mode and its path fit together: a console mode has no path,
    and the mode [write] has one. *)
Definition mode_fits (mode : string) (path : option string) : bool :=
  if str_in mode console_modes then negb (is_some path)
  else String.eqb mode CommandOutputMode.Write && is_some path.

(** The keys that [<] orders among themselves are the strings on one side
    and, on the other, the numbers apart from the float that is no
    number. *)
Inductive KeyKind : Type :=
| TextKey
| NumberKey.

Definition key_kind (k : Key) : option KeyKind :=
  match k with
  | KStr _ => Some TextKey
  | KInt _ => Some NumberKey
  | KFloat S754_nan => None
  | KFloat _ => Some NumberKey
  | KNone => None
  end.

(** An integer with at most 4300 decimal digits. *)
Definition within_digit_limit (z : Z) : bool := (Z.abs z <? 10 ^ 4300)%Z.

(* ------------------------------------------------------------------ *)
(** ** Stand-ins for the outside world

    Small implementations of the three interfaces, used to run the
    interpreter on concrete command lines. *)

Module TestDoubles.

(** A file system in memory: the directories and files that exist, and the
    paths the system refuses to create. *)
Record MemFS : Type := {
  dirs : list string;
  files : list (string * string);
  denied : list string
}.

Definition mem_exists (f : MemFS) (p : string) : bool :=
  str_in p (dirs f) || is_some (environ_get (files f) p).

Definition mem_makedirs (f : MemFS) (p : string) : Outcome MemFS :=
  if str_in p (denied f) then Raise OSError
  else Return {| dirs := p :: dirs f; files := files f; denied := denied f |}.

Definition mem_open_read (f : MemFS) (p : string) : Outcome string :=
  match environ_get (files f) p with
  | Some text => Return text
  | None => Raise OSError
  end.

Definition mem_os : OsModule :=
  {| FS := MemFS;
     path_exists := mem_exists;
     path_isdir := fun f p => str_in p (dirs f);
     makedirs := mem_makedirs;
     open_read := mem_open_read |}.

(** A regular-expression engine for the patterns that are plain text:
    letters, digits and blanks stand for themselves and searching is
    looking for a substring; any other pattern is reported as [re.error]. *)
Definition is_literal_char (c : ascii) : bool :=
  let n := nat_of_ascii c in
  is_alpha c || (Nat.leb 48 n && Nat.leb n 57) || Ascii.eqb c " ".

Fixpoint is_literal (s : string) : bool :=
  match s with
  | EmptyString => true
  | String c s' => is_literal_char c && is_literal s'
  end.

Definition literal_re : ReModule :=
  {| Pattern := string;
     Match := unit;
     re_compile := fun p =>
       if is_literal p && negb (String.eqb p EmptyString) then Return p
       else Raise ReError;
     re_search := fun p line => if contains line p then Some tt else None;
     match_group := fun _ _ => Raise IndexError;
     re_sub := fun p repl line =>
       if is_literal p && negb (String.eqb p EmptyString) && is_literal repl
       then Return (replace line p repl) else Raise ReError |}.

(** Numbers without floats: every float conversion is refused. *)
Definition no_floats : NumModule :=
  {| py_float := fun _ => Raise ValueError;
     py_sum_floats := fun _ => Raise TypeError;
     py_format := fun _ _ => Raise ValueError |}.

(** Numbers with a few floats: [float] reads [nan] and the numerals of at
    most fifteen digits, which are floats exactly, and refuses every other
    text; sums and formats of floats are refused. *)
Definition is_digit (c : ascii) : bool :=
  Nat.leb 48 (nat_of_ascii c) && Nat.leb (nat_of_ascii c) 57.

Definition float_of_numeral (text : string) : Outcome spec_float :=
  if String.eqb text "nan" then Return S754_nan
  else if str_forall is_digit text && Nat.leb 1 (String.length text)
          && Nat.leb (String.length text) 15 then
    match parse_digits 10 false 0%Z text with
    | Some (Zpos m) => Return (S754_finite false m 0)
    | Some _ => Return (S754_zero false)
    | None => Raise ValueError
    end
  else Raise ValueError.

Definition few_floats : NumModule :=
  {| py_float := float_of_numeral;
     py_sum_floats := fun _ => Raise TypeError;
     py_format := fun _ _ => Raise ValueError |}.

(** The handlers outside the model all report success and change
    nothing. *)
Definition idle (os : OsModule) : string -> @Handler os :=
  fun _ self _ => (self, Return (Status Ok)).

Definition windows_host : Host :=
  {| os_name := "nt"; sys_platform := "win32"; environ := [] |}.

Definition linux_host : Host :=
  {| os_name := "posix"; sys_platform := "linux"; environ := [] |}.

Definition empty_fs : MemFS := {| dirs := []; files := []; denied := [] |}.

(** A Windows host with [/cygdrive]. *)
Definition cygwin_fs : MemFS :=
  {| dirs := ["/cygdrive"]; files := []; denied := [] |}.

Definition fresh (h : Host) (f : MemFS) : @CommandProcessor mem_os :=
  CommandProcessor_init (os := mem_os) "/work" h f.

Definition test_registry : list (@Command mem_os) :=
  registry (os := mem_os) (re := literal_re) (num := no_floats) (@idle mem_os).

Definition run (args : list string) (self : @CommandProcessor mem_os) : @Run mem_os :=
  parse_commands test_registry args self.

End TestDoubles.

(** A stand-in for [exec_cmd]: [echo] prints its arguments, any other
    command is not found; the file system stays as it is. *)
Module Processes.
Import TestDoubles.

Definition text_of (v : Value) : string :=
  match v with
  | VStr s => s
  | VInt z => str_of_Z z
  end.

Definition echo_only (self : @CommandProcessor mem_os) (command : Value)
    (args : list Value) : MemFS * Outcome (CommandResults.t * string) :=
  (fs self,
   if String.eqb (text_of command) "echo"
   then Return (Ok, join " " (map text_of args))
   else Return (CommandNotFoundError, EmptyString)).

End Processes.

(* ================================================================== *)
(** * Properties *)

(** ** Strings *)

Lemma str_drop_length (n : nat) (s : string) :
  String.length (str_drop n s) = String.length s - n.
Proof.
  revert s; induction n as [|n IH]; intros [|c s]; simpl; auto.
Qed.

Lemma startswith_length (s p : string) :
  startswith s p = true -> String.length p <= String.length s.
Proof.
  revert s; induction p as [|b p IH]; intros [|a s]; simpl; try lia; try discriminate.
  intros H. apply andb_true_iff in H as [_ H]. apply IH in H. lia.
Qed.

Lemma removeprefix_length (s p : string) :
  startswith s p = true ->
  String.length (removeprefix s p) = String.length s - String.length p.
Proof.
  intros H. unfold removeprefix. rewrite H. apply str_drop_length.
Qed.

(** ** The interpreter *)

Section InterpreterFacts.
Context {os : OsModule}.
Variable registry : list Command.

Lemma args_weight_skipn (k : nat) (l : list string) :
  args_weight (skipn k l) <= args_weight l.
Proof.
  revert l; induction k as [|k IH]; intros [|a l]; simpl; auto.
  specialize (IH l). unfold args_weight in *. lia.
Qed.

(** Taking a flag off the argument list makes the list lighter. *)
Lemma match_flag_weight arg rest long short args' :
  match_flag arg rest long short = Some args' ->
  args_weight args' < args_weight (arg :: rest).
Proof.
  unfold match_flag.
  destruct (startswith arg long) eqn:Hl.
  - destruct (startswith (removeprefix arg long) "=") eqn:He.
    + intros [= <-]. simpl.
      pose proof (removeprefix_length _ _ He) as H1.
      pose proof (removeprefix_length _ _ Hl) as H2.
      pose proof (startswith_length _ _ He) as H3.
      simpl in H1, H3. lia.
    + destruct (String.eqb (removeprefix arg long) EmptyString); [|discriminate].
      intros [= <-]. simpl. lia.
  - destruct short as [short|]; [|discriminate].
    destruct (String.eqb arg short); [|discriminate].
    intros [= <-]. simpl. lia.
Qed.

Lemma parse_command_params_weight command args params rest :
  parse_command_params command args = Return (params, rest) ->
  args_weight rest <= args_weight args.
Proof.
  unfold parse_command_params.
  destruct (truthy (param_until command) && negb _); [discriminate|].
  destruct (truthy (param_until command)).
  - destruct (param_convert command) as [convert|].
    + destruct (mapM convert _); simpl; [|discriminate].
      intros [= _ <-]. apply args_weight_skipn.
    + intros [= _ <-]. apply args_weight_skipn.
  - destruct (param_convert command) as [convert|].
    + destruct (mapM convert _); simpl; [|discriminate].
      intros [= _ <-]. apply args_weight_skipn.
    + intros [= _ <-]. apply args_weight_skipn.
Qed.

(** The scan of the registry stops at the first command whose flag matches
    the head token. *)
Lemma dispatch_first_match arg rest self :
  dispatch registry (arg :: rest) self =
  match first_match registry arg rest with
  | None => NoMatch
  | Some (command, args') =>
      if (Z.of_nat (List.length args') <? param_count command)%Z
      then Aborted ParameterCountError
      else
        match parse_command_params command args' with
        | Raise e => Aborted e
        | Return (params, rest') =>
            let '(self', result) := func command self params in
            Invoked command params rest' self' result
        end
  end.
Proof.
  induction registry as [|command registry' IH]; simpl; [reflexivity|].
  destruct (match_flag arg rest (arg_long command) (arg_short command)) as [args'|].
  - destruct (Z.of_nat (List.length args') <? param_count command)%Z; reflexivity.
  - exact IH.
Qed.

Lemma dispatch_weight args self command params rest self' result :
  dispatch registry args self = Invoked command params rest self' result ->
  args_weight rest < args_weight args.
Proof.
  destruct args as [|arg more].
  - destruct registry; simpl; discriminate.
  - rewrite dispatch_first_match.
    destruct (first_match registry arg more) as [[c args']|] eqn:Hm; [|discriminate].
    assert (Hw : args_weight args' < args_weight (arg :: more)).
    { clear - Hm. induction registry as [|c0 r IH]; simpl in Hm; [discriminate|].
      destruct (match_flag arg more (arg_long c0) (arg_short c0)) eqn:Hf.
      - injection Hm as _ <-. eapply match_flag_weight; eauto.
      - auto. }
    destruct (Z.of_nat (List.length args') <? param_count c)%Z; [discriminate|].
    destruct (parse_command_params c args') as [[ps rest']|e] eqn:Hp; [|discriminate].
    destruct (func c self ps) as [s o].
    intros [= _ _ <- _ _].
    apply parse_command_params_weight in Hp. lia.
Qed.

(** The loop never runs out of the fuel [parse_commands] gives it. *)
Lemma parse_loop_terminates fuel args self result calls :
  args_weight args <= fuel ->
  parse_loop registry fuel args self result calls <> OutOfFuel.
Proof.
  revert args self result calls.
  induction fuel as [|fuel IH]; intros args self result calls Hw.
  - destruct args as [|a l]; simpl; [discriminate|]. simpl in Hw. lia.
  - destruct args as [|a l]; simpl; [discriminate|].
    destruct (dispatch registry (a :: l) self) as [| e | c ps rest s' [r|e]] eqn:Hd.
    + discriminate.
    + unfold on_exception. destruct (PyExn_eqb e ParameterCountError); discriminate.
    + apply dispatch_weight in Hd.
      destruct (PyRet_is r UnknownArgument).
      * destruct rest; discriminate.
      * destruct (negb (PyRet_is r Ok) && stop_on_error s').
        -- destruct (forallb is_VStr ps); discriminate.
        -- apply IH. lia.
    + unfold on_exception. destruct (PyExn_eqb e ParameterCountError); discriminate.
Qed.

Lemma parse_commands_terminates args self :
  parse_commands registry args self <> OutOfFuel.
Proof.
  apply parse_loop_terminates. lia.
Qed.

(** A stage that lets the loop go on uses up one unit of fuel. *)
Lemma run_from_stage s1 s2 fuel :
  stage registry s1 s2 ->
  run_from registry (S fuel) s1 = run_from registry fuel s2.
Proof.
  intros [s1' s2' command params Hne Hd Hu Hs Hc].
  destruct s1' as [args self result calls], s2' as [rest self' r calls'].
  unfold run_from. simpl in *.
  destruct args as [|a l]; [contradiction|].
  rewrite Hd, Hu, Hs, Hc. reflexivity.
Qed.

Lemma stage_weight s1 s2 :
  stage registry s1 s2 -> args_weight (ls_args s2) < args_weight (ls_args s1).
Proof.
  intros [s1' s2' command params Hne Hd Hu Hs Hc]. eapply dispatch_weight; eauto.
Qed.

(** Running from a state is running from any state it reaches. *)
Lemma run_from_reaches s1 s2 :
  reaches registry s1 s2 ->
  forall fuel, args_weight (ls_args s1) <= fuel ->
  exists fuel', args_weight (ls_args s2) <= fuel' /\
                run_from registry fuel s1 = run_from registry fuel' s2.
Proof.
  induction 1 as [s | s1 s2 s3 Hst Hr IH]; intros fuel Hw.
  - exists fuel. auto.
  - pose proof (stage_weight Hst) as Hlt.
    destruct fuel as [|fuel]; [lia|].
    destruct (IH fuel ltac:(lia)) as (fuel' & Hw' & Heq).
    exists fuel'. split; [assumption|].
    rewrite (run_from_stage fuel Hst). exact Heq.
Qed.

(** What the run does once the loop stands at a head token, whatever came
    before. *)
Lemma parse_commands_at args0 self0 arg rest self result calls (final : Run) :
  reaches registry (initial args0 self0)
    {| ls_args := arg :: rest; ls_self := self; ls_result := result; ls_calls := calls |} ->
  (forall fuel, parse_loop registry (S fuel) (arg :: rest) self result calls = final) ->
  parse_commands registry args0 self0 = final.
Proof.
  intros Hr Hfinal.
  destruct (run_from_reaches Hr (fuel := args_weight args0)) as (fuel' & Hw & Heq);
    [simpl; lia|].
  unfold parse_commands. change (run_from registry (args_weight args0) (initial args0 self0) = final).
  rewrite Heq. unfold run_from. simpl ls_args in *. simpl ls_self. simpl ls_result. simpl ls_calls.
  destruct fuel' as [|fuel']; [simpl in Hw; lia|].
  apply Hfinal.
Qed.

End InterpreterFacts.

(** ** Arity and dispatch errors *)

(** A list comprehension raises exactly when one of its elements does. *)
Lemma mapM_raises_iff {A B : Type} (f : A -> Outcome B) (l : list A) :
  (exists e, mapM f l = Raise e) <-> (exists x e, In x l /\ f x = Raise e).
Proof.
  induction l as [|x l IH]; simpl.
  - split; [intros [e H]; discriminate | intros (x & e & [] & _)].
  - destruct (f x) as [y|e] eqn:Hx; simpl.
    + destruct (mapM f l) as [ys|e'] eqn:Hl; simpl.
      * split; [intros [e H]; discriminate|].
        intros (x' & e' & [<-|Hin] & Hf); [congruence|].
        destruct IH as [_ IH]. destruct IH as [e'' He'']; [eauto | discriminate].
      * split; [|eauto]. intros _.
        destruct IH as [IH _]. destruct IH as (x' & e'' & Hin & Hf); eauto 6.
    + split; eauto 6.
Qed.

Section ArityFacts.
Context {os : OsModule}.

(** C1. Fixed arity: when the loop stands at a token whose first matching
    command wants more parameters than the argument list holds once the flag
    is taken off (an [=value] counts as the first of them), the run ends with
    [MissingParameter], and neither the processor nor the log of handler
    invocations has moved: the handler was not called. *)
Theorem fixed_arity_missing_parameter
    (registry : list Command) (args0 : list string) (self0 : CommandProcessor)
    (arg : string) (rest : list string) (self : CommandProcessor)
    (result : PyRet) (calls : Trace) (command : Command) (args' : list string) :
  reaches registry (initial args0 self0)
    {| ls_args := arg :: rest; ls_self := self; ls_result := result; ls_calls := calls |} ->
  first_match registry arg rest = Some (command, args') ->
  (Z.of_nat (List.length args') < param_count command)%Z ->
  parse_commands registry args0 self0
    = Done (Return (Status MissingParameter)) self calls.
Proof.
  intros Hr Hm Hlt.
  apply (parse_commands_at Hr). intros fuel. simpl.
  rewrite dispatch_first_match, Hm.
  apply Z.ltb_lt in Hlt. rewrite Hlt. reflexivity.
Qed.

(** C4. Unknown flag: when the loop stands at a token that no registered
    command matches, the run ends there with [UnknownArgument], whatever
    [stop_on_error] is, and no further handler is called. *)
Theorem unknown_argument_halts
    (registry : list Command) (args0 : list string) (self0 : CommandProcessor)
    (arg : string) (rest : list string) (self : CommandProcessor)
    (result : PyRet) (calls : Trace) :
  reaches registry (initial args0 self0)
    {| ls_args := arg :: rest; ls_self := self; ls_result := result; ls_calls := calls |} ->
  first_match registry arg rest = None ->
  parse_commands registry args0 self0
    = Done (Return (Status UnknownArgument)) self calls.
Proof.
  intros Hr Hm.
  apply (parse_commands_at Hr). intros fuel. simpl.
  rewrite dispatch_first_match, Hm. reflexivity.
Qed.

Lemma str_in_In (x : string) (l : list string) : str_in x l = true <-> In x l.
Proof.
  unfold str_in. rewrite existsb_exists. split.
  - intros (y & Hin & Heq). apply String.eqb_eq in Heq. subst. assumption.
  - intros Hin. exists x. split; [assumption | apply String.eqb_refl].
Qed.

Lemma str_in_not_In (x : string) (l : list string) : ~ In x l -> str_in x l = false.
Proof.
  intros H. destruct (str_in x l) eqn:E; [|reflexivity].
  apply str_in_In in E. contradiction.
Qed.

Lemma list_index_app (x : string) (before after : list string) :
  ~ In x before -> list_index x (before ++ x :: after) = List.length before.
Proof.
  induction before as [|y before IH]; simpl; intros Hn.
  - rewrite String.eqb_refl. reflexivity.
  - destruct (String.eqb y x) eqn:E.
    + apply String.eqb_eq in E. subst. exfalso. auto.
    + rewrite IH; auto.
Qed.

Lemma firstn_length_app {A : Type} (l1 l2 : list A) :
  firstn (List.length l1) (l1 ++ l2) = l1.
Proof.
  induction l1 as [|x l1 IH]; simpl; [destruct l2; reflexivity|]. rewrite IH. reflexivity.
Qed.

Lemma skipn_length_app {A : Type} (l1 : list A) (x : A) (l2 : list A) :
  skipn (List.length l1 + 1) (l1 ++ x :: l2) = l2.
Proof.
  induction l1 as [|y l1 IH]; simpl; [reflexivity|]. exact IH.
Qed.

Lemma truthy_Some (token : string) : token <> EmptyString -> truthy (Some token) = true.
Proof.
  destruct token; [contradiction | reflexivity].
Qed.

(** C5. A command declared with a terminator and no parameter count
    captures the tokens before the first terminator and leaves the tokens
    after it: the terminator is neither a parameter nor left in the list.
    Without a terminator the parameters cannot be read, and a run that
    stands at such a command ends with [MissingParameter]. *)
Theorem until_terminator_capture
    (long : string) (short : option string) (names : list string) (count : Z)
    (token : string) (convert : option (string -> Outcome Value)) (f : Handler) :
  (count < 0)%Z ->
  token <> EmptyString ->
  let command := Command_init long short names count (Some token) convert f in
  (forall before after : list string,
      ~ In token before ->
      parse_command_params command (before ++ token :: after)
      = match convert with
        | None => Return (map VStr before, after)
        | Some c => converted <- mapM c before ;; Return (converted, after)
        end)
  /\ (forall args : list string,
        ~ In token args ->
        parse_command_params command args = Raise ParameterCountError)
  /\ (forall registry args0 self0 arg rest self result calls args',
        reaches registry (initial args0 self0)
          {| ls_args := arg :: rest; ls_self := self; ls_result := result;
             ls_calls := calls |} ->
        first_match registry arg rest = Some (command, args') ->
        ~ In token args' ->
        parse_commands registry args0 self0
          = Done (Return (Status MissingParameter)) self calls).
Proof.
  intros Hcount Htoken command.
  assert (Hpc : param_count command = (-1)%Z).
  { unfold command, Command_init. cbn [param_count].
    destruct (0 <=? count)%Z eqn:E; [apply Z.leb_le in E; lia|].
    rewrite (truthy_Some Htoken). reflexivity. }
  assert (Hpu : param_until command = Some token) by reflexivity.
  assert (Hcv : param_convert command = convert) by reflexivity.
  assert (Hmissing : forall args, ~ In token args ->
            parse_command_params command args = Raise ParameterCountError).
  { intros args Hn. unfold parse_command_params.
    rewrite Hpc, Hpu. change (0 <=? -1)%Z with false. cbv beta zeta iota.
    rewrite (truthy_Some Htoken), (str_in_not_In _ _ Hn). reflexivity. }
  split; [|split].
  - intros before after Hn. unfold parse_command_params.
    rewrite Hpc, Hpu, Hcv. change (0 <=? -1)%Z with false. cbv beta zeta iota.
    rewrite (truthy_Some Htoken).
    assert (Hin : str_in token (before ++ token :: after) = true).
    { apply str_in_In. apply in_or_app. right. left. reflexivity. }
    rewrite Hin. simpl negb. simpl andb. cbv beta zeta iota.
    rewrite list_index_app by assumption.
    rewrite firstn_length_app, skipn_length_app.
    destruct convert; reflexivity.
  - exact Hmissing.
  - intros registry args0 self0 arg rest self result calls args' Hr Hm Hn.
    apply (parse_commands_at Hr). intros fuel. simpl.
    rewrite dispatch_first_match, Hm, Hpc.
    destruct (Z.of_nat (List.length args') <? -1)%Z eqn:E; [apply Z.ltb_lt in E; lia|].
    rewrite (Hmissing _ Hn). reflexivity.
Qed.

(** C2, as the code has it.  When the loop stands at a fixed-arity command
    with a converter and enough tokens, and the converter raises on one of
    the captured tokens, that exception leaves [parse_commands]: the run
    returns no status at all, and the handler is not called.  (Only a
    [ParameterCountError] would be turned into [MissingParameter].) *)
Theorem converter_failure_escapes
    (registry : list Command) (args0 : list string) (self0 : CommandProcessor)
    (arg : string) (rest : list string) (self : CommandProcessor)
    (result : PyRet) (calls : Trace) (command : Command) (args' : list string)
    (convert : string -> Outcome Value) (e : PyExn) :
  reaches registry (initial args0 self0)
    {| ls_args := arg :: rest; ls_self := self; ls_result := result; ls_calls := calls |} ->
  first_match registry arg rest = Some (command, args') ->
  param_until command = None ->
  (0 <= param_count command <= Z.of_nat (List.length args'))%Z ->
  param_convert command = Some convert ->
  mapM convert (firstn (Z.to_nat (param_count command)) args') = Raise e ->
  e <> ParameterCountError ->
  parse_commands registry args0 self0 = Done (Raise e) self calls.
Proof.
  intros Hr Hm Hu [Hlo Hhi] Hc He Hne.
  apply (parse_commands_at Hr). intros fuel. simpl.
  rewrite dispatch_first_match, Hm.
  destruct (Z.of_nat (List.length args') <? param_count command)%Z eqn:E;
    [apply Z.ltb_lt in E; lia|].
  unfold parse_command_params. rewrite Hu, Hc. simpl truthy. simpl andb. cbv beta zeta iota.
  apply Z.leb_le in Hlo. rewrite Hlo, He. simpl.
  unfold on_exception. destruct e; try reflexivity. contradiction.
Qed.

End ArityFacts.

(** The integer converter of [--include] and [--exclude] raises nothing but
    [ValueError]. *)
Lemma py_int_base_raises (base : Z) (text : string) (e : PyExn) :
  py_int_base base text = Raise e -> e = ValueError.
Proof.
  unfold py_int_base.
  destruct (match int_strip text with
            | String "-" s' => (true, s')
            | String "+" s' => (false, s')
            | _ => (false, int_strip text)
            end) as [neg s].
  match goal with |- context [match ?x with String _ _ => _ | EmptyString => _ end] =>
    destruct x as [|c s1] end.
  - destruct (parse_digits base false 0 EmptyString); [discriminate | congruence].
  - destruct (Ascii.eqb c "_") eqn:Ec.
    + apply Ascii.eqb_eq in Ec. subst. congruence.
    + assert (Hgen : forall (X : Outcome Z),
                 match parse_digits base false 0 (String c s1) with
                 | Some v => Return (if neg then (- v)%Z else v)
                 | None => Raise ValueError
                 end = Raise e -> e = ValueError).
      { intros _. destruct (parse_digits _ _ _ _); [discriminate | congruence]. }
      destruct c as [[] [] [] [] [] [] [] []]; try discriminate Ec;
        exact (Hgen (Return 0%Z)).
Qed.

Lemma int_converter_raises (x : string) (e : PyExn) :
  int_converter x = Raise e -> e = ValueError.
Proof.
  unfold int_converter, py_int.
  destruct (py_int_base 10 x) as [z|e'] eqn:E; simpl; [discriminate|].
  intros [= <-]. exact (py_int_base_raises _ _ E).
Qed.

(** ** Concrete runs for the arity and dispatch properties *)

Section ArityRuns.
Import TestDoubles.

Let start : CommandProcessor (os := mem_os) := fresh linux_host empty_fs.

(** Proves one stage between two given loop states by running it. *)
Ltac run_stage :=
  eapply stage_intro;
  [ simpl; discriminate | reflexivity | reflexivity | reflexivity | reflexivity ].

(** [--in=x --sub a]: [--sub] wants two parameters and one is left. *)
Lemma fixed_arity_missing_parameter_witness :
  run ["--in=x"; "--sub"; "a"] start
  = Done (Return (Status MissingParameter)) (set_current_output start "x")
         [("--in", [VStr "x"])].
Proof.
  unfold run.
  eapply (fixed_arity_missing_parameter (registry := test_registry)
            (arg := "--sub") (rest := ["a"]) (result := Status Ok)).
  - eapply reaches_next; [| apply reaches_here]; run_stage.
  - reflexivity.
  - reflexivity.
Defined.

(** [--stoponerror false --in=x --bogus --first]: the unknown flag ends the
    run although errors are not to stop it. *)
Lemma unknown_argument_halts_witness :
  run ["--stoponerror"; "false"; "--in=x"; "--bogus"; "--first"] start
  = Done (Return (Status UnknownArgument))
         (set_current_output (set_stop_on_error start false) "x")
         [("--stoponerror", [VStr "false"]); ("--in", [VStr "x"])].
Proof.
  unfold run.
  eapply (unknown_argument_halts (registry := test_registry)
            (arg := "--bogus") (rest := ["--first"]) (result := Status Ok)).
  - eapply reaches_next with
      (s2 := {| ls_args := ["--in=x"; "--bogus"; "--first"];
                ls_self := set_stop_on_error start false;
                ls_result := Status Ok;
                ls_calls := [("--stoponerror", [VStr "false"])] |});
      [run_stage|].
    eapply reaches_next; [| apply reaches_here]; run_stage.
  - reflexivity.
Defined.

(** [--exec] as the registry declares it, with [;] as its terminator. *)
Lemma until_terminator_capture_witness :
  let command :=
    Command_init "--exec" (Some "-e") ["COMMAND"; "ARGS..."] (-1) (Some ";") None
                 (@idle mem_os "run_command") in
  parse_command_params command ["make"; "-j"; ";"; "--first"; ";"]
    = Return ([VStr "make"; VStr "-j"], ["--first"; ";"])
  /\ parse_command_params command ["make"; "-j"] = Raise ParameterCountError
  /\ run ["--in=x"; "--exec"; "make"; "-j"] start
     = Done (Return (Status MissingParameter)) (set_current_output start "x")
            [("--in", [VStr "x"])].
Proof.
  intros command.
  destruct (@until_terminator_capture mem_os "--exec" (Some "-e")
              ["COMMAND"; "ARGS..."] (-1)%Z ";" None (@idle mem_os "run_command"))
    as (Hcapture & Hmissing & Hrun); [lia | discriminate |].
  split; [|split].
  - apply (Hcapture ["make"; "-j"] ["--first"; ";"]).
    simpl. intros [H | [H | []]]; discriminate.
  - apply Hmissing. simpl. intros [H | [H | []]]; discriminate.
  - unfold run.
    eapply (Hrun test_registry _ _ "--exec" ["make"; "-j"] _ (Status Ok)).
    + eapply reaches_next; [| apply reaches_here]; run_stage.
    + reflexivity.
    + simpl. intros [H | [H | []]]; discriminate.
Defined.

(** [--include abc 0] *)
Lemma converter_failure_escapes_witness :
  run ["--in=x"; "--include"; "abc"; "0"] start
  = Done (Raise ValueError) (set_current_output start "x") [("--in", [VStr "x"])].
Proof.
  unfold run.
  eapply (converter_failure_escapes (registry := test_registry)
            (arg := "--include") (rest := ["abc"; "0"]) (result := Status Ok)
            (convert := int_converter)).
  - eapply reaches_next; [| apply reaches_here]; run_stage.
  - reflexivity.
  - reflexivity.
  - split; discriminate.
  - reflexivity.
  - reflexivity.
  - discriminate.
Defined.

(** C2 fails on the code: the run of [--include abc 0] does not end with the
    status [MissingParameter]; it ends with a [ValueError] that nothing
    catches. *)
Lemma converter_failure_is_not_missing_parameter :
  run ["--include"; "abc"; "0"] start = Done (Raise ValueError) start []
  /\ run ["--include"; "abc"; "0"] start
     <> Done (Return (Status MissingParameter)) start [].
Proof.
  assert (H : run ["--include"; "abc"; "0"] start = Done (Raise ValueError) start [])
    by reflexivity.
  split; [exact H|]. rewrite H. discriminate.
Qed.

End ArityRuns.

(** ** Handlers that touch the buffer and the file system *)

Section HandlerFacts.
Context {os : OsModule}.

(** The first pass of the loop of [unique] reads the last element of an
    empty list. *)
Lemma unique_loop_raises (line : string) (more : list string) :
  unique_loop (line :: more) [] = Raise IndexError.
Proof. reflexivity. Qed.

Lemma splitlines_nonempty (s : string) : s <> EmptyString -> splitlines s <> [].
Proof.
  destruct s as [|c s]; [contradiction|]. intros _. simpl.
  destruct (is_linebreak c).
  - destruct s as [|c' s']; [discriminate|].
    destruct (Ascii.eqb c CR && Ascii.eqb c' LF); discriminate.
  - destruct (splitlines s); discriminate.
Qed.

(** On every buffer that is not empty [--unique] raises [IndexError]. *)
Lemma unique_raises_unless_empty (self : CommandProcessor) :
  current_output self <> EmptyString -> unique self [] = (self, Raise IndexError).
Proof.
  intros Hne. unfold unique, lines_of.
  destruct (splitlines (current_output self)) as [|line more] eqn:E.
  - exfalso. exact (splitlines_nonempty Hne E).
  - reflexivity.
Qed.

(** C7, on the code: for the buffer with the lines a, a, b, a the handler
    of [--unique] does not return; it raises [IndexError] and the buffer
    stays as it was. *)
Theorem unique_raises_on_first_line (self : CommandProcessor) :
  let buffer := join NL ["a"; "a"; "b"; "a"] in
  unique (set_current_output self buffer) []
  = (set_current_output self buffer, Raise IndexError).
Proof. reflexivity. Qed.

Lemma ensure_dirs_loop_skips (self : CommandProcessor) (skipped rest : list string) :
  Forall (fun line => strip line = EmptyString
                      \/ path_exists (fs self) (strip line) = true) skipped ->
  ensure_dirs_loop self (skipped ++ rest) = ensure_dirs_loop self rest.
Proof.
  induction 1 as [|line skipped Hline _ IH]; simpl; [reflexivity|].
  destruct Hline as [Hblank | Hexists].
  - rewrite Hblank. simpl. exact IH.
  - rewrite Hexists. rewrite andb_false_r. exact IH.
Qed.

Lemma ensure_dirs_loop_fs (self : CommandProcessor) (lines : list string) :
  fs (fst (ensure_dirs_loop self lines)) = fs self
  \/ exists line, In line lines
       /\ makedirs (fs self) (strip line) = Return (fs (fst (ensure_dirs_loop self lines))).
Proof.
  induction lines as [|line more IH]; simpl; [left; reflexivity|].
  destruct (negb (String.eqb (strip line) EmptyString) && negb (path_exists (fs self) (strip line))).
  - destruct (makedirs (fs self) (strip line)) as [fs'|e] eqn:Hm.
    + right. exists line. split; [left; reflexivity | exact Hm].
    + left. destruct e; reflexivity.
  - destruct IH as [IH | (l & Hin & Hm)]; [left; exact IH|].
    right. exists l. split; [right; exact Hin | exact Hm].
Qed.

(** C9. [--ensure-dirs] calls [makedirs] at most once: for the first line
    that is not blank and does not exist, and it returns [Ok] right after a
    successful call, whatever lines follow.  When every line is blank or
    exists the handler returns [None], which is no status.  In every case
    the file system it leaves is the one it found or the result of one
    [makedirs] call on it. *)
Theorem ensure_dirs_first_missing (self : CommandProcessor) (arg : string) :
  (forall (skipped : list string) (line : string) (more : list string) (fs' : FS),
      lines_of self = skipped ++ line :: more ->
      Forall (fun l => strip l = EmptyString
                       \/ path_exists (fs self) (strip l) = true) skipped ->
      strip line <> EmptyString ->
      path_exists (fs self) (strip line) = false ->
      makedirs (fs self) (strip line) = Return fs' ->
      ensure_dirs self [VStr arg] = (set_fs self fs', Return (Status Ok)))
  /\ (Forall (fun l => strip l = EmptyString
                       \/ path_exists (fs self) (strip l) = true) (lines_of self) ->
      ensure_dirs self [VStr arg] = (self, Return PyNone))
  /\ (fs (fst (ensure_dirs self [VStr arg])) = fs self
      \/ exists line, In line (lines_of self)
           /\ makedirs (fs self) (strip line)
              = Return (fs (fst (ensure_dirs self [VStr arg])))).
Proof.
  split; [|split].
  - intros skipped line more fs' Hlines Hskip Hblank Hexists Hmk.
    unfold ensure_dirs. rewrite Hlines. rewrite ensure_dirs_loop_skips by assumption. simpl.
    apply String.eqb_neq in Hblank. rewrite Hblank, Hexists, Hmk. reflexivity.
  - intros Hall. unfold ensure_dirs.
    rewrite <- (app_nil_r (lines_of self)).
    rewrite ensure_dirs_loop_skips by assumption. reflexivity.
  - unfold ensure_dirs. apply ensure_dirs_loop_fs.
Qed.

(** C10. [--read] on a buffer that is not empty appends the line feed
    before it opens the file: when opening fails with [OSError] the buffer
    keeps that line feed, and the handler returns [IOError] if
    [stop_on_error] is set and [Ok] if it is not. *)
Theorem read_failure_keeps_separator (self : CommandProcessor) (path : string) :
  current_output self <> EmptyString ->
  open_read (fs self) path = Raise OSError ->
  read self [VStr path]
  = (set_current_output self (current_output self ++ NL),
     Return (Status (if stop_on_error self then IOError else Ok))).
Proof.
  intros Hne Hopen. unfold read, start_line.
  apply String.eqb_neq in Hne. rewrite Hne. simpl.
  rewrite Hopen. destruct (stop_on_error self); reflexivity.
Qed.

End HandlerFacts.

Section HandlerRuns.
Import TestDoubles.

(** The buffer holds [old], a blank line and [new]; only [old] exists. *)
Lemma ensure_dirs_first_missing_witness :
  let self := set_current_output
                (fresh linux_host {| dirs := ["old"]; files := []; denied := [] |})
                (join NL ["old"; " "; "new"; "newer"]) in
  ensure_dirs self [VStr "unused"]
  = (set_fs (os := mem_os) self {| dirs := ["new"; "old"]; files := []; denied := [] |},
     Return (Status Ok))
  /\ ensure_dirs (set_current_output self (join NL ["old"; " "])) [VStr "unused"]
     = (set_current_output self (join NL ["old"; " "]), Return PyNone).
Proof.
  intros self. split.
  - apply (proj1 (ensure_dirs_first_missing self "unused") ["old"; " "] "new" ["newer"]).
    + reflexivity.
    + constructor; [right; reflexivity | constructor; [left; reflexivity | constructor]].
    + discriminate.
    + reflexivity.
    + reflexivity.
  - apply (proj1 (proj2 (ensure_dirs_first_missing
                           (set_current_output self (join NL ["old"; " "])) "unused"))).
    constructor; [right; reflexivity | constructor; [left; reflexivity | constructor]].
Defined.

(** Reading a file that does not exist into the buffer [x]. *)
Lemma read_failure_keeps_separator_witness :
  let self := set_current_output (fresh linux_host empty_fs) "x" in
  read self [VStr "missing.txt"]
  = (set_current_output self (String "x" NL), Return (Status IOError))
  /\ read (set_stop_on_error self false) [VStr "missing.txt"]
     = (set_current_output (set_stop_on_error self false) (String "x" NL),
        Return (Status Ok)).
Proof.
  intros self. split.
  - apply (read_failure_keeps_separator self "missing.txt"); [discriminate | reflexivity].
  - apply (read_failure_keeps_separator (set_stop_on_error self false) "missing.txt");
      [discriminate | reflexivity].
Defined.

End HandlerRuns.

(** ** Path translation *)

Lemma append_assoc (a b c : string) : ((a ++ b) ++ c)%string = (a ++ b ++ c)%string.
Proof.
  induction a as [|x a IH]; simpl; [reflexivity|]. rewrite IH. reflexivity.
Qed.

Lemma str_forall_app (p : ascii -> bool) (a b : string) :
  str_forall p (a ++ b) = str_forall p a && str_forall p b.
Proof.
  induction a as [|x a IH]; simpl; [reflexivity|]. rewrite IH. apply andb_assoc.
Qed.

Lemma str_forall_impl (p q : ascii -> bool) (s : string) :
  (forall c, p c = true -> q c = true) ->
  str_forall p s = true -> str_forall q s = true.
Proof.
  intros Hpq. induction s as [|c s IH]; simpl; [reflexivity|].
  intros H. apply andb_true_iff in H as [Hc Hs].
  rewrite (Hpq _ Hc), (IH Hs). reflexivity.
Qed.

(** What being an ASCII letter excludes. *)
Lemma is_alpha_plain (c : ascii) :
  is_alpha c = true ->
  is_linebreak c = false /\ is_space c = false
  /\ Ascii.eqb c "/" = false /\ Ascii.eqb c (ascii_of_nat 92) = false
  /\ is_alpha (lower_char c) = true /\ lower_char (lower_char c) = lower_char c.
Proof.
  destruct c as [[] [] [] [] [] [] [] []]; intros H; try discriminate H;
    repeat split; reflexivity.
Qed.

Lemma lower_alpha (d : string) :
  str_forall is_alpha d = true ->
  str_forall is_alpha (lower d) = true /\ lower (lower d) = lower d.
Proof.
  induction d as [|c d IH]; simpl; [auto|].
  intros H. apply andb_true_iff in H as [Hc Hd].
  destruct (IH Hd) as [IH1 IH2].
  destruct (is_alpha_plain c Hc) as (_ & _ & _ & _ & Hl & Hll).
  rewrite Hl, IH1, Hll, IH2. auto.
Qed.

(** A text of one line is its own only line. *)
Lemma splitlines_one_line (s : string) :
  s <> EmptyString ->
  str_forall (fun c => negb (is_linebreak c)) s = true ->
  splitlines s = [s].
Proof.
  induction s as [|c s IH]; [contradiction|]. intros _ H. simpl in H.
  apply andb_true_iff in H as [Hc Hs]. apply negb_true_iff in Hc.
  simpl. rewrite Hc.
  destruct s as [|c' s']; [reflexivity|].
  rewrite IH; [reflexivity | discriminate | exact Hs].
Qed.

Lemma rstrip_app (a b : string) :
  b <> EmptyString -> rstrip b = b -> rstrip (a ++ b) = (a ++ b)%string.
Proof.
  intros Hne Hb. induction a as [|c a IH]; simpl; [exact Hb|].
  rewrite IH. destruct (a ++ b)%string eqn:E; [|reflexivity].
  destruct a; simpl in E; [contradiction | discriminate].
Qed.

Lemma startswith_empty (s : string) : startswith s EmptyString = true.
Proof. destruct s; reflexivity. Qed.

(** Replacing one character by another. *)
Lemma replace_char_cons (old new c : ascii) (s : string) :
  replace (String c s) (String old EmptyString) (String new EmptyString)
  = String (if Ascii.eqb c old then new else c)
           (replace s (String old EmptyString) (String new EmptyString)).
Proof.
  unfold replace. simpl. rewrite startswith_empty.
  destruct (Ascii.eqb c old); reflexivity.
Qed.

Lemma replace_char_app (old new : ascii) (a b : string) :
  replace (a ++ b) (String old EmptyString) (String new EmptyString)
  = (replace a (String old EmptyString) (String new EmptyString)
     ++ replace b (String old EmptyString) (String new EmptyString))%string.
Proof.
  induction a as [|c a IH]; [reflexivity|].
  change (String c a ++ b)%string with (String c (a ++ b)).
  rewrite !replace_char_cons, IH. reflexivity.
Qed.

Lemma replace_char_absent (old new : ascii) (s : string) :
  has_char old s = false -> replace s (String old EmptyString) (String new EmptyString) = s.
Proof.
  induction s as [|c s IH]; [reflexivity|]. simpl. intros H.
  apply orb_false_iff in H as [Hc Hs].
  rewrite replace_char_cons, Hc, (IH Hs). reflexivity.
Qed.

Lemma replace_char_gone (old new : ascii) (s : string) :
  Ascii.eqb new old = false ->
  has_char old (replace s (String old EmptyString) (String new EmptyString)) = false.
Proof.
  intros Hne. induction s as [|c s IH]; [reflexivity|].
  rewrite replace_char_cons. simpl. rewrite IH, orb_false_r.
  destruct (Ascii.eqb c old) eqn:E; [exact Hne | exact E].
Qed.

Lemma replace_char_length (old new : ascii) (s : string) :
  String.length (replace s (String old EmptyString) (String new EmptyString)) = String.length s.
Proof.
  induction s as [|c s IH]; [reflexivity|].
  rewrite replace_char_cons. simpl. rewrite IH. reflexivity.
Qed.

Lemma replace_char_forall (p : ascii -> bool) (old new : ascii) (s : string) :
  p old = p new ->
  str_forall p (replace s (String old EmptyString) (String new EmptyString)) = str_forall p s.
Proof.
  intros Hp. induction s as [|c s IH]; [reflexivity|].
  rewrite replace_char_cons. simpl. rewrite IH.
  destruct (Ascii.eqb c old) eqn:E; [|reflexivity].
  apply Ascii.eqb_eq in E. subst. rewrite Hp. reflexivity.
Qed.

Lemma rstrip_replace_char (old new : ascii) (s : string) :
  is_space old = is_space new ->
  rstrip (replace s (String old EmptyString) (String new EmptyString))
  = replace (rstrip s) (String old EmptyString) (String new EmptyString).
Proof.
  intros Hsp. induction s as [|c s IH]; [reflexivity|].
  rewrite replace_char_cons. simpl. rewrite IH.
  assert (Hc : is_space (if Ascii.eqb c old then new else c) = is_space c).
  { destruct (Ascii.eqb c old) eqn:E; [|reflexivity].
    apply Ascii.eqb_eq in E. subst. auto. }
  destruct (rstrip s) as [|y z].
  - change (replace EmptyString (String old EmptyString) (String new EmptyString)) with EmptyString.
    rewrite Hc. destruct (is_space c); [reflexivity|].
    rewrite replace_char_cons. reflexivity.
  - rewrite !replace_char_cons. reflexivity.
Qed.

Lemma rstrip_length (s : string) : String.length (rstrip s) <= String.length s.
Proof.
  induction s as [|c s IH]; simpl; [lia|].
  destruct (rstrip s); [destruct (is_space c)|]; simpl in *; lia.
Qed.

Lemma rstrip_full (s : string) :
  String.length (rstrip s) = String.length s -> rstrip s = s.
Proof.
  induction s as [|c s IH]; [reflexivity|]. simpl.
  pose proof (rstrip_length s) as Hle.
  destruct (rstrip s) as [|y z] eqn:E.
  - destruct (is_space c); simpl; intros H; [discriminate|].
    destruct s; [reflexivity | simpl in H; discriminate].
  - simpl. intros H. rewrite IH; [reflexivity | simpl in *; lia].
Qed.

(** A text without white space at its end keeps none when its back-slashes
    become slashes, and the other way round. *)
Lemma rstrip_slashes (s : string) :
  rstrip (replace s BACKSLASH "/") = replace s BACKSLASH "/" -> rstrip s = s.
Proof.
  unfold BACKSLASH. rewrite rstrip_replace_char by reflexivity.
  intros H. apply rstrip_full.
  apply (f_equal String.length) in H. rewrite !replace_char_length in H. exact H.
Qed.

Lemma span_alpha_app (d : string) (c : ascii) (rest : string) :
  str_forall is_alpha d = true -> is_alpha c = false ->
  span_alpha (d ++ String c rest) = (d, String c rest).
Proof.
  intros Hd Hc. induction d as [|x d IH]; simpl.
  - rewrite Hc. reflexivity.
  - simpl in Hd. apply andb_true_iff in Hd as [Hx Hd].
    rewrite Hx, (IH Hd). reflexivity.
Qed.

Lemma one_line_no_LF (s : string) :
  str_forall (fun c => negb (is_linebreak c)) s = true -> has_char LF s = false.
Proof.
  induction s as [|c s IH]; [reflexivity|]. simpl. intros H.
  apply andb_true_iff in H as [Hc Hs]. rewrite (IH Hs), orb_false_r.
  destruct (Ascii.eqb c LF) eqn:E; [|reflexivity].
  apply Ascii.eqb_eq in E. subst. discriminate.
Qed.

Lemma dot_star_end_one_line (s : string) :
  str_forall (fun c => negb (is_linebreak c)) s = true -> dot_star_end s = Some s.
Proof.
  intros H. unfold dot_star_end. rewrite (one_line_no_LF _ H). reflexivity.
Qed.

(** A text without an occurrence of [old] is left alone by [replace]. *)
Lemma replace_absent (old new s : string) :
  contains s old = false -> replace s old new = s.
Proof.
  unfold replace. induction s as [|c s IH]; [reflexivity|]. intros H.
  change (contains (String c s) old)
    with (startswith (String c s) old || contains s old) in H.
  apply orb_false_iff in H as [Hst Hs].
  change (replace_aux old new 0 (String c s))
    with (if startswith (String c s) old
          then (new ++ replace_aux old new (String.length old - 1) s)%string
          else String c (replace_aux old new 0 s)).
  rewrite Hst, (IH Hs). reflexivity.
Qed.

Lemma contains_slashes_alpha (d t : string) :
  str_forall is_alpha d = true ->
  contains (d ++ t) "//" = contains t "//".
Proof.
  induction d as [|c d IH]; [reflexivity|]. simpl str_forall. intros H.
  apply andb_true_iff in H as [Hc Hd].
  destruct (is_alpha_plain c Hc) as (_ & _ & Hs & _).
  change (contains (String c d ++ t) "//")
    with (startswith (String c (d ++ t)) "//" || contains (d ++ t) "//").
  simpl startswith. rewrite Hs, (IH Hd). reflexivity.
Qed.

Lemma endswith_cons (c : ascii) (s suffix : string) :
  String.length suffix <= String.length s ->
  endswith (String c s) suffix = endswith s suffix.
Proof.
  intros Hle. unfold endswith. simpl String.length.
  replace (S (String.length s) - String.length suffix)
    with (S (String.length s - String.length suffix)) by lia.
  simpl str_drop.
  destruct (Nat.leb_spec (String.length suffix) (String.length s)); [|lia].
  destruct (Nat.leb_spec (String.length suffix) (S (String.length s))); [|lia].
  reflexivity.
Qed.

Lemma append_length (a b : string) :
  String.length (a ++ b) = String.length a + String.length b.
Proof.
  induction a as [|c a IH]; simpl; [reflexivity|]. rewrite IH. reflexivity.
Qed.

Lemma endswith_app (a b suffix : string) :
  String.length suffix <= String.length b ->
  endswith (a ++ b) suffix = endswith b suffix.
Proof.
  intros Hle. induction a as [|c a IH]; [reflexivity|].
  change (String c a ++ b)%string with (String c (a ++ b)).
  rewrite endswith_cons; [exact IH|]. rewrite append_length. lia.
Qed.

Lemma removesuffix_absent (s suffix : string) :
  endswith s suffix = false -> removesuffix s suffix = s.
Proof.
  intros H. unfold removesuffix. rewrite H. reflexivity.
Qed.

Lemma has_char_app (c : ascii) (a b : string) :
  has_char c (a ++ b) = has_char c a || has_char c b.
Proof.
  induction a as [|x a IH]; simpl; [reflexivity|]. rewrite IH. apply orb_assoc.
Qed.

Lemma alpha_no_backslash (d : string) :
  str_forall is_alpha d = true -> has_char (ascii_of_nat 92) d = false.
Proof.
  induction d as [|c d IH]; [reflexivity|]. simpl. intros H.
  apply andb_true_iff in H as [Hc Hd].
  destruct (is_alpha_plain c Hc) as (_ & _ & _ & Hb & _).
  rewrite Hb, (IH Hd). reflexivity.
Qed.

Lemma alpha_one_line (d : string) :
  str_forall is_alpha d = true ->
  str_forall (fun c => negb (is_linebreak c)) d = true.
Proof.
  apply str_forall_impl. intros c Hc.
  destruct (is_alpha_plain c Hc) as (Hl & _). rewrite Hl. reflexivity.
Qed.

Lemma contains_cygdrive (t : string) :
  contains ("/cygdrive/" ++ t) "//" = startswith t "/" || contains t "//".
Proof.
  destruct t as [|c t]; [reflexivity|].
  cbn -[Ascii.eqb]. rewrite startswith_empty. reflexivity.
Qed.

Section PathFacts.
Context {os : OsModule}.
Variable self : CommandProcessor.
Variables drive path : string.
Variable sep : ascii.

Let rest : string := replace path BACKSLASH "/".
Let entered : string := (drive ++ String ":" (String sep path))%string.
Let cygwin_form : string := ("/cygdrive/" ++ lower drive ++ "/" ++ rest)%string.
Let native_form : string := (lower drive ++ ":/" ++ rest)%string.

Hypothesis Hcygwin : is_cygwin_env self = true.
Hypothesis Hdrive : drive <> EmptyString.
Hypothesis Halpha : str_forall is_alpha drive = true.
Hypothesis Hsep : sep = "/"%char \/ sep = ascii_of_nat 92.
Hypothesis Htidy : tidy_rest rest = true.

Lemma tidy_rest_parts :
  rest <> EmptyString
  /\ str_forall (fun c => negb (is_linebreak c)) rest = true
  /\ startswith rest "/" = false
  /\ contains rest "//" = false
  /\ endswith rest "/" = false
  /\ rstrip rest = rest.
Proof.
  unfold tidy_rest in Htidy.
  repeat (apply andb_true_iff in Htidy as [Htidy ?]).
  repeat match goal with
         | H : negb _ = true |- _ => apply negb_true_iff in H
         end.
  repeat split; try assumption.
  - intros E. rewrite E in Htidy. discriminate.
  - apply String.eqb_eq. assumption.
Qed.

Lemma path_parts :
  path <> EmptyString
  /\ str_forall (fun c => negb (is_linebreak c)) path = true
  /\ rstrip path = path.
Proof.
  destruct tidy_rest_parts as (Hne & Hline & _ & _ & _ & Hstrip).
  split; [|split].
  - intros E. apply Hne. unfold rest. rewrite E. reflexivity.
  - unfold rest, BACKSLASH in Hline.
    rewrite replace_char_forall in Hline by reflexivity. exact Hline.
  - apply rstrip_slashes. exact Hstrip.
Qed.

Lemma lstrip_alpha (d t : string) :
  d <> EmptyString -> str_forall is_alpha d = true ->
  lstrip (d ++ t) = (d ++ t)%string.
Proof.
  destruct d as [|c d]; [contradiction|]. simpl. intros _ H.
  apply andb_true_iff in H as [Hc _].
  destruct (is_alpha_plain c Hc) as (_ & Hsp & _).
  rewrite Hsp. reflexivity.
Qed.

Lemma entered_strip : strip entered = entered.
Proof.
  destruct path_parts as (Hne & _ & Hstrip).
  unfold strip, entered. rewrite lstrip_alpha by assumption.
  replace (drive ++ String ":" (String sep path))%string
    with ((drive ++ String ":" (String sep EmptyString)) ++ path)%string
    by (rewrite append_assoc; reflexivity).
  apply rstrip_app; assumption.
Qed.

Lemma entered_slashes :
  replace entered BACKSLASH "/" = (drive ++ String ":" (String "/" rest))%string.
Proof.
  unfold entered, BACKSLASH. rewrite replace_char_app.
  rewrite replace_char_absent by (apply alpha_no_backslash; exact Halpha).
  rewrite !replace_char_cons.
  destruct Hsep as [-> | ->]; reflexivity.
Qed.

Lemma win_path_re_entered :
  win_path_re (drive ++ String ":" (String "/" rest)) = Some (drive, rest).
Proof.
  destruct tidy_rest_parts as (_ & Hline & _).
  unfold win_path_re.
  rewrite span_alpha_app by (exact Halpha || reflexivity).
  destruct drive as [|c d]; [contradiction|].
  simpl. rewrite dot_star_end_one_line by exact Hline. reflexivity.
Qed.

Lemma cygwin_form_tidy :
  removesuffix (replace cygwin_form "//" "/") "/" = cygwin_form.
Proof.
  destruct tidy_rest_parts as (Hne & _ & Hstart & Hdouble & Hend & _).
  destruct (lower_alpha _ Halpha) as [Hl _].
  assert (Hc : contains cygwin_form "//" = false).
  { unfold cygwin_form. rewrite contains_cygdrive.
    rewrite contains_slashes_alpha by exact Hl.
    change (contains ("/" ++ rest) "//")
      with (startswith (String "/" rest) "//" || contains rest "//").
    simpl startswith. rewrite Hstart, Hdouble.
    destruct drive as [|c d]; [contradiction|].
    simpl in Halpha. apply andb_true_iff in Halpha as [Hx _].
    destruct (is_alpha_plain c Hx) as (_ & _ & _ & _ & Hlx & _).
    destruct (is_alpha_plain _ Hlx) as (_ & _ & Hs & _).
    simpl. rewrite Hs. reflexivity. }
  rewrite replace_absent by exact Hc.
  apply removesuffix_absent.
  unfold cygwin_form.
  replace ("/cygdrive/" ++ lower drive ++ "/" ++ rest)%string
    with (("/cygdrive/" ++ lower drive ++ "/") ++ rest)%string
    by (rewrite !append_assoc; reflexivity).
  rewrite endswith_app; [exact Hend|].
  destruct rest; [contradiction | simpl; lia].
Qed.

(** The loop body of [env_path] on the entered path. *)
Lemma env_path_line_cygwin (self' : CommandProcessor) :
  is_cygwin_env self' = true ->
  env_path_line self' entered = Some cygwin_form.
Proof.
  intros Hcyg. unfold env_path_line.
  rewrite entered_strip, entered_slashes, win_path_re_entered, Hcyg.
  fold cygwin_form. rewrite cygwin_form_tidy. reflexivity.
Qed.

Lemma entered_one_line : splitlines entered = [entered].
Proof.
  destruct path_parts as (_ & Hline & _).
  apply splitlines_one_line.
  - unfold entered. destruct drive; [contradiction | discriminate].
  - unfold entered. rewrite str_forall_app, alpha_one_line by exact Halpha.
    simpl. rewrite Hline.
    destruct Hsep as [-> | ->]; reflexivity.
Qed.

Lemma cygwin_form_one_line : splitlines cygwin_form = [cygwin_form].
Proof.
  destruct tidy_rest_parts as (_ & Hline & _).
  destruct (lower_alpha _ Halpha) as [Hl _].
  apply splitlines_one_line; [discriminate|].
  unfold cygwin_form.
  change ("/cygdrive/" ++ lower drive ++ "/" ++ rest)%string
    with ("/cygdrive/" ++ (lower drive ++ String "/" rest))%string.
  rewrite !str_forall_app, (alpha_one_line _ Hl).
  simpl. rewrite Hline. reflexivity.
Qed.

Lemma cygwin_form_strip : strip cygwin_form = cygwin_form.
Proof.
  destruct tidy_rest_parts as (Hne & _ & _ & _ & _ & Hstrip).
  unfold strip.
  assert (Hl : lstrip cygwin_form = cygwin_form) by reflexivity.
  rewrite Hl. unfold cygwin_form.
  replace ("/cygdrive/" ++ lower drive ++ "/" ++ rest)%string
    with (("/cygdrive/" ++ lower drive ++ "/") ++ rest)%string
    by (rewrite !append_assoc; reflexivity).
  apply rstrip_app; assumption.
Qed.

Lemma cygwin_form_slashes : replace cygwin_form BACKSLASH "/" = cygwin_form.
Proof.
  destruct (lower_alpha _ Halpha) as [Hl _].
  unfold BACKSLASH. apply replace_char_absent.
  unfold cygwin_form.
  change ("/cygdrive/" ++ lower drive ++ "/" ++ rest)%string
    with ("/cygdrive/" ++ (lower drive ++ String "/" rest))%string.
  rewrite !has_char_app, (alpha_no_backslash _ Hl).
  simpl. unfold rest, BACKSLASH. rewrite replace_char_gone by reflexivity. reflexivity.
Qed.

Lemma cygwin_path_re_form : cygwin_path_re cygwin_form = Some (lower drive, rest).
Proof.
  destruct tidy_rest_parts as (_ & Hline & _).
  destruct (lower_alpha _ Halpha) as [Hl _].
  unfold cygwin_path_re, cygwin_form.
  change (startswith ("/cygdrive/" ++ lower drive ++ "/" ++ rest) "/cygdrive/")
    with (startswith (lower drive ++ "/" ++ rest) EmptyString).
  rewrite startswith_empty.
  change (str_drop 10 ("/cygdrive/" ++ lower drive ++ "/" ++ rest))
    with (lower drive ++ String "/" rest)%string.
  unfold drive_and_path.
  rewrite span_alpha_app by (exact Hl || reflexivity).
  destruct drive as [|c d]; [contradiction|].
  simpl. rewrite dot_star_end_one_line by exact Hline. reflexivity.
Qed.

(** The loop body of [platform_path] on the Cygwin form. *)
Lemma platform_path_line_cygwin (self' : CommandProcessor) :
  is_cygwin_env self' = true ->
  platform_path_line self' cygwin_form = native_form.
Proof.
  intros Hcyg. unfold platform_path_line.
  rewrite cygwin_form_strip, cygwin_form_slashes, Hcyg, cygwin_path_re_form.
  destruct (lower_alpha _ Halpha) as [_ Hll]. rewrite Hll. reflexivity.
Qed.

End PathFacts.

Section RoundTrip.
Context {os : OsModule}.

(** C6, as the code has it.  Under Cygwin on Windows, [--env-path] turns a
    drive-letter path into its [/cygdrive] form and [--platform-path] turns
    that into the drive form with the drive in lower case and every
    back-slash a slash, for a path that is tidy after the drive.  The
    original is given back only when it already has that form. *)
Theorem cygwin_round_trip_normalises
    (self : CommandProcessor) (drive path : string) (sep : ascii) :
  on_windows self = true ->
  is_cygwin_env self = true ->
  drive <> EmptyString ->
  str_forall is_alpha drive = true ->
  sep = "/"%char \/ sep = ascii_of_nat 92 ->
  tidy_rest (replace path BACKSLASH "/") = true ->
  let rest := replace path BACKSLASH "/" in
  let entered := set_current_output self (drive ++ String ":" (String sep path)) in
  let in_env := set_current_output self ("/cygdrive/" ++ lower drive ++ "/" ++ rest) in
  env_path entered [] = (in_env, Return (Status Ok))
  /\ platform_path in_env []
     = (set_current_output self (lower drive ++ ":/" ++ rest), Return (Status Ok)).
Proof.
  intros Hwin Hcyg Hdrive Halpha Hsep Htidy rest entered in_env.
  subst rest. split.
  - unfold env_path.
    change (on_windows entered) with (on_windows self). rewrite Hwin.
    change (lines_of entered) with (splitlines (drive ++ String ":" (String sep path))).
    rewrite entered_one_line by assumption. cbn [filter_map].
    rewrite env_path_line_cygwin by (assumption || exact Hcyg).
    reflexivity.
  - unfold platform_path.
    change (on_windows in_env) with (on_windows self). rewrite Hwin.
    change (lines_of in_env)
      with (splitlines ("/cygdrive/" ++ lower drive ++ "/" ++ replace path BACKSLASH "/")).
    rewrite cygwin_form_one_line by assumption. cbn [map].
    rewrite platform_path_line_cygwin by (assumption || exact Hcyg).
    reflexivity.
Qed.

End RoundTrip.

Section PathRuns.
Import TestDoubles.

Let cygwin : CommandProcessor (os := mem_os) := fresh windows_host cygwin_fs.

(** The path of the specification, [C:\Users\x]. *)
Lemma cygwin_round_trip_normalises_witness :
  env_path (set_current_output cygwin "C:\Users\x") []
  = (set_current_output cygwin "/cygdrive/c/Users/x", Return (Status Ok))
  /\ platform_path (set_current_output cygwin "/cygdrive/c/Users/x") []
     = (set_current_output cygwin "c:/Users/x", Return (Status Ok)).
Proof.
  apply (@cygwin_round_trip_normalises mem_os cygwin "C" "Users\x" (ascii_of_nat 92));
    try reflexivity.
  - discriminate.
  - right. reflexivity.
Defined.

(** C6 fails on the code: under Cygwin the two translations turn
    [C:\Users\x] into [c:/Users/x], which is neither the original nor the
    [C:/Users/x] of the specification. *)
Lemma cygwin_round_trip_changes_path :
  let entered := set_current_output cygwin "C:\Users\x" in
  let back := fst (platform_path (fst (env_path entered [])) []) in
  current_output back = "c:/Users/x"
  /\ current_output back <> current_output entered
  /\ current_output back <> "C:/Users/x".
Proof.
  simpl. repeat split; discriminate.
Qed.

End PathRuns.

(** ** Stages that fail leave the buffer alone *)

Section Atomicity.
Context {os : OsModule} {re : ReModule} {num : NumModule}.

(** Splits the argument list of a handler call by shape. *)
Ltac handler_cases args :=
  let v := fresh "v" in
  let w := fresh "w" in
  let more := fresh "more" in
  destruct args as [|[v|v] [|[w|w] [|? more]]]; try (left; reflexivity).

Lemma filter_by_atomic (keep : bool) : unchanged_or_ok (filter_by keep).
Proof.
  intros self args. unfold filter_by. handler_cases args.
  destruct (re_compile v) as [p|[]]; (left; reflexivity) || (right; reflexivity).
Qed.

Lemma regex_replace_atomic : unchanged_or_ok regex_replace.
Proof.
  intros self args. unfold regex_replace. handler_cases args.
  destruct (re_compile v) as [p|[]]; try (left; reflexivity).
  destruct (mapM (re_sub v w) (lines_of self)); [right | left]; reflexivity.
Qed.

Lemma sort_atomic : unchanged_or_ok sort.
Proof.
  intros self args. unfold sort. handler_cases args.
  destruct (sort_flags (split v ",") sort_defaults) as [f|e]; [|left; reflexivity].
  destruct (mapM (sort_get_value f) (lines_of self)); [|left; reflexivity].
  destruct (sorted (lines_of self) (sort_get_value f) (reverse f));
    [right | left]; reflexivity.
Qed.

Lemma sum_lines_atomic : unchanged_or_ok sum_lines.
Proof.
  intros self args. unfold sum_lines. handler_cases args.
  destruct (sum_flags (split v ",") sum_defaults) as [f|e]; [|left; reflexivity].
  destruct (mapM (sum_get_value f) (lines_of self)) as [values|]; [|left; reflexivity].
  simpl bind.
  destruct (py_sum values) as [total|]; [|left; reflexivity]. simpl bind.
  destruct (apply_out_func f total); [right | left]; reflexivity.
Qed.

(** A line without the wanted column, where the flags do not say to ignore
    it, has no key. *)
Lemma sort_missing_column (f : SortFlags) (line : string) (c : Z) :
  column f = ColIndex c ->
  (Z.of_nat (List.length (re_split_blanks line)) <= c)%Z ->
  ignore_error_lines f = false ->
  sort_get_value f line = Raise PyException.
Proof.
  intros Hc Hlen Hign. unfold sort_get_value. rewrite Hc, Hign.
  destruct (c >=? Z.of_nat (List.length (re_split_blanks line)))%Z eqn:E;
    [reflexivity|].
  rewrite Z.geb_leb in E. apply Z.leb_gt in E. lia.
Qed.

(** A field that is no number has no numeric key, with or without
    [ignore_error_lines]: in a column given by position the conversion
    error is not caught. *)
Lemma sort_unconvertible_field (f : SortFlags) (line field : string) (c : Z) (n : NumFunc)
    (e : PyExn) :
  column f = ColIndex c ->
  (c < Z.of_nat (List.length (re_split_blanks line)))%Z ->
  py_index (re_split_blanks line) c = Return field ->
  key_func f = KeyNumeric n ->
  apply_num_func n (Some field) = Raise e ->
  sort_get_value f line = Raise e.
Proof.
  intros Hc Hlen Hfield Hk Hconv. unfold sort_get_value. rewrite Hc.
  destruct (c >=? Z.of_nat (List.length (re_split_blanks line)))%Z eqn:E.
  - rewrite Z.geb_leb in E. apply Z.leb_le in E. lia.
  - rewrite Hfield. simpl. rewrite Hk. unfold apply_key_func. rewrite Hconv. reflexivity.
Qed.

(** C3. A regular expression that does not compile makes [--filter],
    [--filter-out] and [--sub] return [RegexError]; a flag list that is
    rejected (a column expression that does not compile among the causes)
    makes [--sort] and [--sum] return the status of the flag loop; a line
    whose key or value cannot be computed makes [--sort] return
    [InvalidSortValue] and [--sum] return [InvalidSumValue]; and each time
    the processor, the buffer with it, is the one from before the stage.
    More generally these five handlers change the processor only when they
    return [Ok]. *)
Theorem failed_stage_keeps_buffer (self : CommandProcessor) :
  (forall pattern : string,
      re_compile pattern = Raise ReError ->
      filter_lines self [VStr pattern] = (self, Return (Status RegexError))
      /\ remove_lines_regex self [VStr pattern] = (self, Return (Status RegexError))
      /\ forall replacements : string,
           regex_replace self [VStr pattern; VStr replacements]
           = (self, Return (Status RegexError)))
  /\ (forall (flags : string) (e : CommandResults.t),
        sort_flags (split flags ",") sort_defaults = inr e ->
        sort self [VStr flags] = (self, Return (Status e)))
  /\ (forall (flags : string) (f : SortFlags),
        sort_flags (split flags ",") sort_defaults = inl f ->
        (exists line e, In line (lines_of self) /\ sort_get_value f line = Raise e) ->
        sort self [VStr flags] = (self, Return (Status InvalidSortValue)))
  /\ (forall (flags : string) (e : CommandResults.t),
        sum_flags (split flags ",") sum_defaults = inr e ->
        sum_lines self [VStr flags] = (self, Return (Status e)))
  /\ (forall (flags : string) (f : SumFlags),
        sum_flags (split flags ",") sum_defaults = inl f ->
        (exists line e, In line (lines_of self) /\ sum_get_value f line = Raise e) ->
        sum_lines self [VStr flags] = (self, Return (Status InvalidSumValue)))
  /\ (forall (h : Handler) (args : list Value),
        In h [filter_lines; remove_lines_regex; regex_replace; sort; sum_lines] ->
        snd (h self args) <> Return (Status Ok) ->
        fst (h self args) = self).
Proof.
  split; [|split; [|split; [|split; [|split]]]].
  - intros pattern Hre. unfold filter_lines, remove_lines_regex, filter_by, regex_replace.
    rewrite Hre. auto.
  - intros flags e Hf. unfold sort. rewrite Hf. reflexivity.
  - intros flags f Hf Hbad. unfold sort. rewrite Hf.
    apply mapM_raises_iff in Hbad as [e He]. rewrite He. reflexivity.
  - intros flags e Hf. unfold sum_lines. rewrite Hf. reflexivity.
  - intros flags f Hf Hbad. unfold sum_lines. rewrite Hf.
    apply mapM_raises_iff in Hbad as [e He]. rewrite He. reflexivity.
  - intros h args Hin Hnot.
    assert (Hh : unchanged_or_ok h).
    { simpl in Hin.
      destruct Hin as [<- | [<- | [<- | [<- | [<- | []]]]]];
        auto using filter_by_atomic, regex_replace_atomic, sort_atomic, sum_lines_atomic.
      - apply (filter_by_atomic true).
      - apply (filter_by_atomic false). }
    destruct (Hh self args) as [H | H]; [exact H | contradiction].
Qed.

End Atomicity.

Section AtomicityRuns.
Import TestDoubles.

Let with_buffer (lines : list string) : CommandProcessor (os := mem_os) :=
  set_current_output (fresh linux_host empty_fs) (join NL lines).

(** An unbalanced pattern, a line without a second column, and a first
    column that is no integer. *)
Lemma failed_stage_keeps_buffer_witness :
  filter_lines (re := literal_re) (with_buffer ["x"]) [VStr "("]
  = (with_buffer ["x"], Return (Status RegexError))
  /\ sort (re := literal_re) (num := no_floats) (with_buffer ["a b"; "c"]) [VStr "column=2"]
     = (with_buffer ["a b"; "c"], Return (Status InvalidSortValue))
  /\ sum_lines (re := literal_re) (num := no_floats) (with_buffer ["3 a"; "x b"])
       [VStr "column=1,int"]
     = (with_buffer ["3 a"; "x b"], Return (Status InvalidSumValue)).
Proof.
  split; [|split].
  - apply (proj1 (failed_stage_keeps_buffer (re := literal_re) (num := no_floats)
                    (with_buffer ["x"])) "(").
    reflexivity.
  - eapply (proj1 (proj2 (proj2 (failed_stage_keeps_buffer (re := literal_re)
                                   (num := no_floats) (with_buffer ["a b"; "c"]))))).
    + reflexivity.
    + exists "c", PyException. split; [right; left; reflexivity | reflexivity].
  - eapply (proj1 (proj2 (proj2 (proj2 (proj2
              (failed_stage_keeps_buffer (re := literal_re) (num := no_floats)
                 (with_buffer ["3 a"; "x b"]))))))).
    + reflexivity.
    + exists "x b", ValueError. split; [right; left; reflexivity | reflexivity].
Defined.

End AtomicityRuns.

(** ** The order of sort keys *)

Lemma Z_mul_compare_r (a b c : Z) :
  (0 < c)%Z -> (a * c ?= b * c)%Z = (a ?= b)%Z.
Proof.
  intros Hc. destruct (Z.compare_spec a b) as [-> | H | H].
  - apply Z.compare_refl.
  - apply Z.compare_lt_iff. apply Z.mul_lt_mono_pos_r; assumption.
  - apply Z.compare_gt_iff. apply Z.mul_lt_mono_pos_r; assumption.
Qed.

Lemma dyadic_compare_scaled (m1 e1 m2 e2 E : Z) :
  (E <= e1)%Z -> (E <= e2)%Z ->
  dyadic_compare m1 e1 m2 e2 = (m1 * 2 ^ (e1 - E) ?= m2 * 2 ^ (e2 - E))%Z.
Proof.
  intros H1 H2. unfold dyadic_compare.
  set (e := Z.min e1 e2).
  assert (He : (E <= e)%Z) by (unfold e; lia).
  assert (He1 : (e <= e1)%Z) by (unfold e; lia).
  assert (He2 : (e <= e2)%Z) by (unfold e; lia).
  replace (e1 - E)%Z with ((e1 - e) + (e - E))%Z by lia.
  replace (e2 - E)%Z with ((e2 - e) + (e - E))%Z by lia.
  rewrite !Z.pow_add_r by lia. rewrite !Z.mul_assoc.
  symmetry. apply Z_mul_compare_r.
  apply Z.pow_pos_nonneg; lia.
Qed.

Lemma Some_cmp_inj (a b : comparison) : Some a = Some b -> a = b.
Proof. congruence. Qed.

Lemma Z_compare_Lt (a b : Z) : (a ?= b)%Z = Lt -> (a < b)%Z.
Proof. intros H. exact H. Qed.

Lemma num_lt_trans (a b c : ExactNum) :
  num_compare a b = Some Lt -> num_compare b c = Some Lt ->
  num_compare a c = Some Lt.
Proof.
  destruct a as [m1 e1|[]|], b as [m2 e2|[]|], c as [m3 e3|[]|]; simpl;
    intros H1 H2; try congruence.
  apply Some_cmp_inj in H1, H2. f_equal.
  pose (E := Z.min e1 (Z.min e2 e3)).
  rewrite (@dyadic_compare_scaled m1 e1 m2 e2 E) in H1 by (unfold E; lia).
  rewrite (@dyadic_compare_scaled m2 e2 m3 e3 E) in H2 by (unfold E; lia).
  rewrite (@dyadic_compare_scaled m1 e1 m3 e3 E) by (unfold E; lia).
  clearbody E.
  apply Z_compare_Lt in H1, H2. apply Z.compare_lt_iff. lia.
Qed.

Lemma num_lt_irrefl_eq (k x z : ExactNum) :
  num_compare k x = Some Eq -> num_compare k z = Some Eq ->
  num_compare x z <> Some Lt.
Proof.
  destruct k as [m1 e1|[]|], x as [m2 e2|[]|], z as [m3 e3|[]|]; simpl;
    intros H1 H2 H3; try congruence.
  apply Some_cmp_inj in H1, H2, H3.
  pose (E := Z.min e1 (Z.min e2 e3)).
  rewrite (@dyadic_compare_scaled m1 e1 m2 e2 E) in H1 by (unfold E; lia).
  rewrite (@dyadic_compare_scaled m1 e1 m3 e3 E) in H2 by (unfold E; lia).
  rewrite (@dyadic_compare_scaled m2 e2 m3 e3 E) in H3 by (unfold E; lia).
  clearbody E.
  apply Z.compare_eq_iff in H1, H2. apply Z_compare_Lt in H3. lia.
Qed.

Lemma num_lt_asym (a b : ExactNum) :
  num_compare a b = Some Lt -> num_compare b a <> Some Lt.
Proof.
  destruct a as [m1 e1|[]|], b as [m2 e2|[]|]; simpl; intros H1 H2; try congruence.
  apply Some_cmp_inj in H1, H2.
  pose (E := Z.min e1 e2).
  rewrite (@dyadic_compare_scaled m1 e1 m2 e2 E) in H1 by (unfold E; lia).
  rewrite (@dyadic_compare_scaled m2 e2 m1 e1 E) in H2 by (unfold E; lia).
  clearbody E.
  apply Z_compare_Lt in H1, H2. lia.
Qed.

Lemma num_eq_lt (k x z y : ExactNum) :
  num_compare k x = Some Eq -> num_compare k z = Some Eq ->
  num_compare x y = Some Lt -> num_compare z y = Some Lt.
Proof.
  destruct k as [m1 e1|[]|], x as [m2 e2|[]|], z as [m3 e3|[]|], y as [m4 e4|[]|];
    simpl; intros H1 H2 H3; try congruence.
  apply Some_cmp_inj in H1, H2, H3. f_equal.
  pose (E := Z.min (Z.min e1 e2) (Z.min e3 e4)).
  rewrite (@dyadic_compare_scaled m1 e1 m2 e2 E) in H1 by (unfold E; lia).
  rewrite (@dyadic_compare_scaled m1 e1 m3 e3 E) in H2 by (unfold E; lia).
  rewrite (@dyadic_compare_scaled m2 e2 m4 e4 E) in H3 by (unfold E; lia).
  rewrite (@dyadic_compare_scaled m3 e3 m4 e4 E) by (unfold E; lia).
  clearbody E.
  apply Z.compare_eq_iff in H1, H2. apply Z_compare_Lt in H3.
  apply Z.compare_lt_iff. lia.
Qed.

(** Strings in the order of their code points. *)
Lemma ascii_compare_lt (a b : ascii) :
  Ascii.compare a b = Lt -> (N_of_ascii a < N_of_ascii b)%N.
Proof. intros H. exact H. Qed.

Lemma ascii_lt_compare (a b : ascii) :
  (N_of_ascii a < N_of_ascii b)%N -> Ascii.compare a b = Lt.
Proof. intros H. exact H. Qed.

Lemma ascii_compare_refl (a : ascii) : Ascii.compare a a = Eq.
Proof. unfold Ascii.compare. apply N.compare_refl. Qed.

Lemma str_compare_refl (s : string) : String.compare s s = Eq.
Proof.
  induction s as [|c s IH]; simpl; [reflexivity|].
  rewrite ascii_compare_refl. exact IH.
Qed.

Lemma str_compare_trans (x y z : string) :
  String.compare x y = Lt -> String.compare y z = Lt -> String.compare x z = Lt.
Proof.
  revert y z. induction x as [|a x IH]; intros [|b y] [|c z]; simpl;
    try discriminate; try reflexivity.
  destruct (Ascii.compare a b) eqn:Hab; try discriminate;
    destruct (Ascii.compare b c) eqn:Hbc; try discriminate; intros H1 H2.
  - apply Ascii.compare_eq_iff in Hab, Hbc. subst.
    rewrite ascii_compare_refl. eapply IH; eauto.
  - apply Ascii.compare_eq_iff in Hab. subst. rewrite Hbc. reflexivity.
  - apply Ascii.compare_eq_iff in Hbc. subst. rewrite Hab. reflexivity.
  - apply ascii_compare_lt in Hab, Hbc.
    assert (Hac : Ascii.compare a c = Lt) by (apply ascii_lt_compare; lia).
    rewrite Hac. reflexivity.
Qed.

Lemma str_ltb_compare (x y : string) : String.ltb x y = true <-> String.compare x y = Lt.
Proof.
  unfold String.ltb. destruct (String.compare x y); split; congruence.
Qed.

(** *** [<] and [==] on keys *)

Local Notation "a '<k' b" := (key_lt a b = Return true) (at level 70).

Lemma key_lt_num (a b : Key) :
  a <k b ->
  (exists x y, a = KStr x /\ b = KStr y /\ String.compare x y = Lt)
  \/ (exists x y, key_num a = Some x /\ key_num b = Some y /\ num_compare x y = Some Lt).
Proof.
  destruct a as [x|x|x|], b as [y|y|y|]; unfold key_lt; cbn [key_num]; intros H;
    try discriminate H.
  - injection H as H. left. exists x, y. rewrite str_ltb_compare in H. auto.
  - right. eexists _, _. split; [reflexivity | split; [reflexivity|]].
    destruct (num_compare (Dyadic x 0) (Dyadic y 0)) as [[]|]; try discriminate H; reflexivity.
  - right. eexists _, _. split; [reflexivity | split; [reflexivity|]].
    destruct (num_compare (Dyadic x 0) (float_value y)) as [[]|]; try discriminate H; reflexivity.
  - right. eexists _, _. split; [reflexivity | split; [reflexivity|]].
    destruct (num_compare (float_value x) (Dyadic y 0)) as [[]|]; try discriminate H; reflexivity.
  - right. eexists _, _. split; [reflexivity | split; [reflexivity|]].
    destruct (num_compare (float_value x) (float_value y)) as [[]|]; try discriminate H; reflexivity.
Qed.

Lemma key_lt_of_num (a b : Key) (x y : ExactNum) :
  key_num a = Some x -> key_num b = Some y -> num_compare x y = Some Lt -> a <k b.
Proof.
  destruct a, b; unfold key_lt; cbn [key_num]; try discriminate;
    intros [= <-] [= <-] H; rewrite H; reflexivity.
Qed.

Lemma key_lt_trans (a b c : Key) : a <k b -> b <k c -> a <k c.
Proof.
  intros H1 H2.
  destruct (key_lt_num _ _ H1) as [(x & y & -> & -> & Hxy) | (x & y & Ha & Hb & Hxy)];
    destruct (key_lt_num _ _ H2) as [(y' & z & E & -> & Hyz) | (y' & z & Hb' & Hc & Hyz)].
  - injection E as <-. simpl. f_equal. apply str_ltb_compare.
    eapply str_compare_trans; eauto.
  - discriminate.
  - subst. discriminate.
  - rewrite Hb in Hb'. injection Hb' as <-.
    eapply key_lt_of_num; eauto using num_lt_trans.
Qed.

Lemma key_lt_asym (a b : Key) : a <k b -> ~ b <k a.
Proof.
  intros H1 H2.
  destruct (key_lt_num _ _ H1) as [(x & y & -> & -> & Hxy) | (x & y & Ha & Hb & Hxy)];
    destruct (key_lt_num _ _ H2) as [(y' & z & E & E' & Hyz) | (y' & z & Hb' & Hc & Hyz)].
  - injection E as <-. injection E' as <-.
    pose proof (str_compare_trans _ _ _ Hxy Hyz) as H.
    rewrite str_compare_refl in H. discriminate.
  - discriminate.
  - subst. discriminate.
  - rewrite Hb in Hb'. injection Hb' as <-. rewrite Ha in Hc. injection Hc as <-.
    exact (num_lt_asym _ _ Hxy Hyz).
Qed.

(** Keys that are equal to one key are not below each other, and are below
    the same keys. *)
Lemma key_eqb_cases (k x : Key) :
  key_eqb k x = true ->
  (exists s, k = KStr s /\ x = KStr s)
  \/ (k = KNone /\ x = KNone)
  \/ (exists a b, key_num k = Some a /\ key_num x = Some b /\ num_compare a b = Some Eq).
Proof.
  destruct k as [s|z|f|], x as [s'|z'|f'|]; unfold key_eqb; cbn [key_num]; intros H;
    try discriminate H.
  - apply String.eqb_eq in H. subst. left. eauto.
  - right. right. eexists _, _. split; [reflexivity | split; [reflexivity|]].
    destruct (num_compare (Dyadic z 0) (Dyadic z' 0)) as [[]|]; try discriminate H; reflexivity.
  - right. right. eexists _, _. split; [reflexivity | split; [reflexivity|]].
    destruct (num_compare (Dyadic z 0) (float_value f')) as [[]|]; try discriminate H; reflexivity.
  - right. right. eexists _, _. split; [reflexivity | split; [reflexivity|]].
    destruct (num_compare (float_value f) (Dyadic z' 0)) as [[]|]; try discriminate H; reflexivity.
  - right. right. eexists _, _. split; [reflexivity | split; [reflexivity|]].
    destruct (num_compare (float_value f) (float_value f')) as [[]|]; try discriminate H; reflexivity.
  - auto.
Qed.

Lemma key_eq_not_lt (k x z : Key) :
  key_eqb k x = true -> key_eqb k z = true -> ~ x <k z.
Proof.
  intros Hx Hz Hlt.
  destruct (key_eqb_cases _ _ Hx) as [(s & -> & ->) | [[-> ->] | (a & b & Hk & Hb & Hab)]].
  - destruct (key_eqb_cases _ _ Hz) as [(s' & E & ->) | [[E _] | (a & b & Hk & _)]];
      try discriminate.
    injection E as <-. simpl in Hlt. injection Hlt as Hlt.
    apply str_ltb_compare in Hlt. rewrite str_compare_refl in Hlt. discriminate.
  - discriminate.
  - destruct (key_eqb_cases _ _ Hz) as [(s' & -> & _) | [[-> _] | (a' & c & Hk' & Hc & Hac)]];
      try discriminate.
    rewrite Hk in Hk'. injection Hk' as <-.
    destruct (key_lt_num _ _ Hlt) as [(s & t & -> & _) | (b' & c' & Hb' & Hc' & Hbc)];
      [discriminate|].
    rewrite Hb in Hb'. injection Hb' as <-. rewrite Hc in Hc'. injection Hc' as <-.
    exact (num_lt_irrefl_eq _ _ _ Hab Hac Hbc).
Qed.

Lemma key_eq_lt (k x z y : Key) :
  key_eqb k x = true -> key_eqb k z = true -> x <k y -> z <k y.
Proof.
  intros Hx Hz Hlt.
  destruct (key_eqb_cases _ _ Hx) as [(s & -> & ->) | [[-> ->] | (a & b & Hk & Hb & Hab)]].
  - destruct (key_eqb_cases _ _ Hz) as [(s' & E & ->) | [[E _] | (a & b & Hk & _)]];
      try discriminate.
    injection E as <-. exact Hlt.
  - discriminate.
  - destruct (key_eqb_cases _ _ Hz) as [(s' & -> & _) | [[-> _] | (a' & c & Hk' & Hc & Hac)]];
      try discriminate.
    rewrite Hk in Hk'. injection Hk' as <-.
    destruct (key_lt_num _ _ Hlt) as [(s & t & -> & _) | (b' & d & Hb' & Hd & Hbd)];
      [discriminate|].
    rewrite Hb in Hb'. injection Hb' as <-.
    eapply key_lt_of_num; eauto using num_eq_lt.
Qed.

(** *** The stable sort *)

(** **** Keys of one kind *)

Lemma num_compare_total (a b : ExactNum) :
  a <> NotANumber -> b <> NotANumber -> exists c, num_compare a b = Some c.
Proof.
  destruct a as [m1 e1|s1|], b as [m2 e2|s2|]; simpl; intros Ha Hb;
    try contradiction; eauto.
Qed.

Lemma Z_compare_not_Lt (a b : Z) : (a ?= b)%Z <> Lt <-> (b <= a)%Z.
Proof.
  destruct (Z.compare_spec a b); split; intros; try lia; try congruence.
Qed.

(** [<=] on numbers is transitive. *)
Lemma num_le_trans (a b c : ExactNum) :
  a <> NotANumber -> b <> NotANumber -> c <> NotANumber ->
  num_compare b a <> Some Lt -> num_compare c b <> Some Lt ->
  num_compare c a <> Some Lt.
Proof.
  destruct a as [m1 e1|[]|], b as [m2 e2|[]|], c as [m3 e3|[]|]; simpl;
    intros Ha Hb Hc H1 H2 H3; try contradiction; try congruence.
  apply Some_cmp_inj in H3.
  assert (H1' : dyadic_compare m2 e2 m1 e1 <> Lt) by congruence.
  assert (H2' : dyadic_compare m3 e3 m2 e2 <> Lt) by congruence.
  clear H1 H2.
  pose (E := Z.min e1 (Z.min e2 e3)).
  rewrite (@dyadic_compare_scaled m2 e2 m1 e1 E) in H1' by (unfold E; lia).
  rewrite (@dyadic_compare_scaled m3 e3 m2 e2 E) in H2' by (unfold E; lia).
  rewrite (@dyadic_compare_scaled m3 e3 m1 e1 E) in H3 by (unfold E; lia).
  clearbody E.
  apply Z_compare_not_Lt in H1', H2'. apply Z_compare_Lt in H3. lia.
Qed.

Lemma key_kind_num (k : Key) :
  key_kind k = Some NumberKey ->
  exists x, key_num k = Some x /\ x <> NotANumber.
Proof.
  destruct k as [s|z|f|]; simpl; try discriminate.
  - intros _. eexists. split; [reflexivity | discriminate].
  - destruct f; try discriminate; intros _; eexists; (split; [reflexivity | discriminate]).
Qed.

Lemma key_kind_text (k : Key) :
  key_kind k = Some TextKey -> exists s, k = KStr s.
Proof.
  destruct k as [s|z|f|]; simpl; try discriminate; [eauto|].
  destruct f; discriminate.
Qed.

Lemma key_lt_numbers (a b : Key) (x y : ExactNum) :
  key_num a = Some x -> key_num b = Some y ->
  key_lt a b = Return (match num_compare x y with Some Lt => true | _ => false end).
Proof.
  destruct a, b; unfold key_lt; cbn [key_num]; try discriminate;
    intros [= <-] [= <-]; reflexivity.
Qed.

(** Keys of one kind can be compared. *)
Lemma key_lt_total (c : KeyKind) (a b : Key) :
  key_kind a = Some c -> key_kind b = Some c -> exists v, key_lt a b = Return v.
Proof.
  destruct c; intros Ha Hb.
  - destruct (key_kind_text _ Ha) as [x ->], (key_kind_text _ Hb) as [y ->].
    simpl. eauto.
  - destruct (key_kind_num _ Ha) as (x & Hx & _), (key_kind_num _ Hb) as (y & Hy & _).
    rewrite (key_lt_numbers _ _ Hx Hy). eauto.
Qed.

(** Keys that were compared, none of them the float that is no number, are
    of one kind. *)
Lemma key_lt_kind (a b : Key) (v : bool) :
  key_lt a b = Return v ->
  a <> KFloat S754_nan -> b <> KFloat S754_nan ->
  exists c, key_kind a = Some c /\ key_kind b = Some c.
Proof.
  destruct a as [x|x|x|], b as [y|y|y|]; unfold key_lt; cbn [key_num];
    intros H Ha Hb; try discriminate H.
  - exists TextKey. auto.
  - exists NumberKey. auto.
  - exists NumberKey. split; [reflexivity|]. destruct y; try reflexivity. contradiction.
  - exists NumberKey. split; [|reflexivity]. destruct x; try reflexivity. contradiction.
  - exists NumberKey. split.
    + destruct x; try reflexivity. contradiction.
    + destruct y; try reflexivity. contradiction.
Qed.

Lemma str_ltb_false (x y : string) :
  String.ltb x y = false <-> String.compare x y <> Lt.
Proof.
  unfold String.ltb. destruct (String.compare x y); split; congruence.
Qed.

Lemma str_le_trans (x y z : string) :
  String.compare y x <> Lt -> String.compare z y <> Lt -> String.compare z x <> Lt.
Proof.
  intros H1 H2 H3.
  destruct (String.compare y x) eqn:Hyx; [| contradiction |].
  - apply String.compare_eq_iff in Hyx. subst. contradiction.
  - assert (Hxy : String.compare x y = Lt).
    { rewrite String.compare_antisym, Hyx. reflexivity. }
    apply H2. eapply str_compare_trans; eauto.
Qed.

(** [<=] on the keys of one kind is transitive. *)
Lemma key_le_trans (c : KeyKind) (x y z : Key) :
  key_kind x = Some c -> key_kind y = Some c -> key_kind z = Some c ->
  key_lt y x = Return false -> key_lt z y = Return false ->
  key_lt z x = Return false.
Proof.
  destruct c; intros Hx Hy Hz.
  - destruct (key_kind_text _ Hx) as [a ->], (key_kind_text _ Hy) as [b ->],
      (key_kind_text _ Hz) as [d ->].
    simpl. intros [= H1] [= H2]. f_equal.
    apply str_ltb_false in H1, H2. apply str_ltb_false.
    eapply str_le_trans; eauto.
  - destruct (key_kind_num _ Hx) as (a & Ha & Na), (key_kind_num _ Hy) as (b & Hb & Nb),
      (key_kind_num _ Hz) as (d & Hd & Nd).
    rewrite (key_lt_numbers _ _ Hb Ha), (key_lt_numbers _ _ Hd Hb),
      (key_lt_numbers _ _ Hd Ha).
    intros [= H1] [= H2]. f_equal.
    assert (H1' : num_compare b a <> Some Lt)
      by (intros E; rewrite E in H1; discriminate).
    assert (H2' : num_compare d b <> Some Lt)
      by (intros E; rewrite E in H2; discriminate).
    pose proof (num_le_trans Na Nb Nd H1' H2') as H3.
    destruct (num_compare d a) as [[]|]; try reflexivity. contradiction.
Qed.

(** What is below a key is below every key that is not below that one. *)
Lemma key_lt_le_trans (c : KeyKind) (x y z : Key) :
  key_kind x = Some c -> key_kind y = Some c -> key_kind z = Some c ->
  x <k y -> key_lt z y = Return false -> x <k z.
Proof.
  intros Hx Hy Hz Hxy Hyz.
  destruct (@key_lt_total c x z Hx Hz) as [[] Hv]; [exact Hv|].
  pose proof (@key_le_trans c y z x Hy Hz Hx Hyz Hv) as H. congruence.
Qed.

(** Without the float that is no number, the keys that were compared are of
    one kind, and [<=] is transitive on them. *)
Lemma key_le_trans_plain (x y z : Key) :
  x <> KFloat S754_nan -> y <> KFloat S754_nan -> z <> KFloat S754_nan ->
  key_lt y x = Return false -> key_lt z y = Return false ->
  key_lt z x = Return false.
Proof.
  intros Nx Ny Nz H1 H2.
  destruct (key_lt_kind H1 Ny Nx) as (c & Hy & Hx).
  destruct (key_lt_kind H2 Nz Ny) as (c' & Hz & Hy').
  assert (E : c' = c) by congruence. subst c'.
  exact (@key_le_trans c x y z Hx Hy Hz H1 H2).
Qed.

Lemma key_lt_le_trans_plain (x y z : Key) :
  x <> KFloat S754_nan -> y <> KFloat S754_nan -> z <> KFloat S754_nan ->
  x <k y -> key_lt z y = Return false -> x <k z.
Proof.
  intros Nx Ny Nz H1 H2.
  destruct (key_lt_kind H1 Nx Ny) as (c & Hx & Hy).
  destruct (key_lt_kind H2 Nz Ny) as (c' & Hz & Hy').
  assert (E : c' = c) by congruence. subst c'.
  exact (@key_lt_le_trans c x y z Hx Hy Hz H1 H2).
Qed.

(** What is below a key has that key not below it. *)
Lemma key_lt_flip (a b : Key) : a <k b -> key_lt b a = Return false.
Proof.
  intros H.
  assert (Hv : exists v, key_lt b a = Return v).
  { destruct (key_lt_num _ _ H) as [(x & y & -> & -> & _) | (x & y & Ha & Hb & _)].
    - simpl. eauto.
    - rewrite (key_lt_numbers _ _ Hb Ha). eauto. }
  destruct Hv as [[] Hv]; [|exact Hv].
  exfalso. exact (@key_lt_asym a b H Hv).
Qed.

(** **** Lists in order *)

Lemma StronglySorted_app {A : Type} (R : A -> A -> Prop) (l1 l2 : list A) :
  StronglySorted R l1 -> StronglySorted R l2 ->
  (forall x y, In x l1 -> In y l2 -> R x y) ->
  StronglySorted R (l1 ++ l2).
Proof.
  induction l1 as [|a l1 IH]; intros H1 H2 H12; [exact H2|].
  apply StronglySorted_inv in H1 as [H1 Ha]. simpl. constructor.
  - apply IH; [exact H1 | exact H2 |]. intros x y Hx Hy. apply H12; [right|]; assumption.
  - apply Forall_app. split; [exact Ha|].
    apply Forall_forall. intros y Hy. apply H12; [left; reflexivity | exact Hy].
Qed.

Lemma StronglySorted_app_inv {A : Type} (R : A -> A -> Prop) (l1 l2 : list A) :
  StronglySorted R (l1 ++ l2) ->
  StronglySorted R l1 /\ StronglySorted R l2
  /\ forall x y, In x l1 -> In y l2 -> R x y.
Proof.
  induction l1 as [|a l1 IH]; simpl; intros H.
  - split; [constructor|]. split; [exact H|]. intros x y [].
  - apply StronglySorted_inv in H as [H Ha].
    destruct (IH H) as (H1 & H2 & H12).
    apply Forall_app in Ha as [Ha1 Ha2].
    split; [constructor; assumption|]. split; [exact H2|].
    intros x y [<- | Hx] Hy.
    + rewrite Forall_forall in Ha2. apply Ha2. exact Hy.
    + apply H12; assumption.
Qed.

Lemma StronglySorted_rev {A : Type} (R : A -> A -> Prop) (l : list A) :
  StronglySorted R l -> StronglySorted (fun x y => R y x) (rev l).
Proof.
  induction 1 as [|a l Hl IH Ha]; [constructor|]. simpl.
  apply StronglySorted_app; [exact IH | repeat constructor |].
  intros x y Hx [<- | []]. apply in_rev in Hx.
  rewrite Forall_forall in Ha. apply Ha. exact Hx.
Qed.

Lemma StronglySorted_map_in {A B : Type} (R : A -> A -> Prop) (R' : B -> B -> Prop)
    (g : A -> B) (l : list A) :
  (forall x y, In x l -> In y l -> R x y -> R' (g x) (g y)) ->
  StronglySorted R l -> StronglySorted R' (map g l).
Proof.
  intros Hg H. induction H as [|a l Hl IH Ha]; [constructor|]. simpl. constructor.
  - apply IH. intros x y Hx Hy. apply Hg; right; assumption.
  - apply Forall_forall. intros b Hb. apply in_map_iff in Hb as (y & <- & Hy).
    rewrite Forall_forall in Ha. apply Hg; [left; reflexivity | right; exact Hy | auto].
Qed.

Lemma StronglySorted_nth {A : Type} (R : A -> A -> Prop) (l : list A) (d : A) :
  StronglySorted R l ->
  forall i j, i < j -> j < List.length l -> R (nth i l d) (nth j l d).
Proof.
  induction 1 as [|a l Hl IH Ha]; intros i j Hij Hj; simpl in Hj; [lia|].
  destruct j as [|j]; [lia|]. destruct i as [|i]; simpl.
  - rewrite Forall_forall in Ha. apply Ha. apply nth_In. lia.
  - apply IH; lia.
Qed.

Lemma Forall_firstn_nth {A : Type} (P : A -> Prop) (l : list A) (d : A) (n : nat) :
  (forall i, i < n -> i < List.length l -> P (nth i l d)) -> Forall P (firstn n l).
Proof.
  revert n. induction l as [|a l IH]; intros [|n] H; simpl; try constructor.
  - apply (H 0); simpl; lia.
  - apply IH. intros i Hi Hl. apply (H (S i)); simpl; lia.
Qed.

Lemma Forall_skipn_nth {A : Type} (P : A -> Prop) (l : list A) (d : A) (n : nat) :
  (forall i, n <= i -> i < List.length l -> P (nth i l d)) -> Forall P (skipn n l).
Proof.
  revert n. induction l as [|a l IH]; intros [|n] H; simpl; try constructor.
  - apply (H 0); simpl; lia.
  - apply (IH 0). intros i Hi Hl. apply (H (S i)); simpl; lia.
  - apply IH. intros i Hi Hl. apply (H (S i)); simpl; lia.
Qed.

Lemma filter_none {B : Type} (p : B -> bool) (l : list B) :
  (forall z, In z l -> p z = false) -> filter p l = [].
Proof.
  induction l as [|y l IH]; simpl; intros H; [reflexivity|].
  rewrite (H y (or_introl eq_refl)). apply IH. auto.
Qed.

Lemma insert_perm {A : Type} (x : A) (l : list A) (n : nat) :
  Permutation (firstn n l ++ x :: skipn n l) (x :: l).
Proof.
  rewrite <- (firstn_skipn n l) at 3.
  apply Permutation_sym, Permutation_middle.
Qed.

(** **** The binary search *)

Section BisectFacts.
Variable pivot : Key.
Variable keys : list Key.

(** Keys of one kind: the search returns a place. *)
Lemma bisect_returns (c : KeyKind) :
  key_kind pivot = Some c -> Forall (fun k => key_kind k = Some c) keys ->
  forall fuel l r, l < r -> r <= List.length keys ->
  exists pos, bisect fuel pivot keys l r = Return pos.
Proof.
  intros Hp Hkeys. induction fuel as [|fuel IH]; intros l r Hlr Hr; cbn [bisect].
  - eauto.
  - cbv zeta.
    pose proof (Nat.lt_div2 (r - l) ltac:(lia)) as Hhalf.
    set (d := Nat.div2 (r - l)) in *. clearbody d.
    set (p := l + d) in *.
    assert (Hk : key_kind (nth p keys KNone) = Some c).
    { rewrite Forall_forall in Hkeys. apply Hkeys, nth_In. unfold p. lia. }
    destruct (@key_lt_total c pivot (nth p keys KNone) Hp Hk) as [b ->]. cbn [bind].
    destruct b.
    + destruct (Nat.ltb_spec l p); [apply IH; unfold p; lia | eauto].
    + destruct (Nat.ltb_spec (S p) r); [apply IH; lia | eauto].
Qed.

(** Keys in order, none of them the float that is no number: the place the
    search returns has the keys that are not above the pivot on its left
    and the keys above the pivot on its right. *)
Lemma bisect_spec :
  pivot <> KFloat S754_nan -> Forall (fun k => k <> KFloat S754_nan) keys ->
  StronglySorted (fun y z : Key => key_lt z y = Return false) keys ->
  forall fuel l r pos,
    l < r -> r <= List.length keys -> r - l <= fuel ->
    (forall i, i < l -> key_lt pivot (nth i keys KNone) = Return false) ->
    (forall i, r <= i -> i < List.length keys -> pivot <k nth i keys KNone) ->
    bisect fuel pivot keys l r = Return pos ->
    pos <= List.length keys
    /\ (forall i, i < pos -> key_lt pivot (nth i keys KNone) = Return false)
    /\ (forall i, pos <= i -> i < List.length keys -> pivot <k nth i keys KNone).
Proof.
  intros Np Nkeys Hsorted.
  assert (Nnth : forall i, i < List.length keys -> nth i keys KNone <> KFloat S754_nan).
  { intros i Hi. rewrite Forall_forall in Nkeys. apply Nkeys, nth_In, Hi. }
  induction fuel as [|fuel IH]; intros l r pos Hlr Hr Hfuel Hbelow Habove; [lia|].
  cbn [bisect]. cbv zeta.
  pose proof (Nat.lt_div2 (r - l) ltac:(lia)) as Hhalf.
  set (d := Nat.div2 (r - l)) in *. clearbody d.
  set (p := l + d) in *.
  assert (Hp : l <= p < r) by (unfold p; lia).
  destruct (key_lt pivot (nth p keys KNone)) as [[]|] eqn:Hb; cbn [bind];
    [| |discriminate].
  - assert (Habove' : forall i, p <= i -> i < List.length keys -> pivot <k nth i keys KNone).
    { intros i Hi Hlen. destruct (Nat.eq_dec i p) as [-> | Hne]; [exact Hb|].
      apply (@key_lt_le_trans_plain pivot (nth p keys KNone) (nth i keys KNone));
        [exact Np | apply Nnth; lia | apply Nnth; lia | exact Hb |].
      apply (StronglySorted_nth KNone Hsorted); lia. }
    destruct (Nat.ltb_spec l p).
    + apply IH; [lia | lia | unfold p; lia | exact Hbelow | exact Habove'].
    + intros [= <-]. split; [lia|]. split; [exact Hbelow|].
      intros i Hi. apply Habove'. lia.
  - assert (Hbelow' : forall i, i < S p -> key_lt pivot (nth i keys KNone) = Return false).
    { intros i Hi. destruct (Nat.eq_dec i p) as [-> | Hne]; [exact Hb|].
      apply (@key_le_trans_plain (nth i keys KNone) (nth p keys KNone) pivot);
        [apply Nnth; lia | apply Nnth; lia | exact Np | | exact Hb].
      apply (StronglySorted_nth KNone Hsorted); lia. }
    destruct (Nat.ltb_spec (S p) r).
    + apply IH; [lia | lia | lia | exact Hbelow' | exact Habove].
    + intros [= <-]. split; [lia|]. split; [exact Hbelow'|].
      intros i Hi. apply Habove. lia.
Qed.

End BisectFacts.

(** **** The sort *)

Section SortedFacts.
Variable A : Type.

(** No element is below one that stands before it. *)
Local Notation "'ordered'" :=
  (StronglySorted (fun y z : Key * A => key_lt (fst z) (fst y) = Return false)).

(** Each element is below the one before it. *)
Local Notation "'falling'" :=
  (StronglySorted (fun y z : Key * A => fst z <k fst y)).

Local Notation "'plain'" :=
  (Forall (fun p : Key * A => fst p <> KFloat S754_nan)).

Local Notation "'kinded' c" :=
  (Forall (fun p : Key * A => key_kind (fst p) = Some c)) (at level 10, c at level 9).

Local Notation "'same_key' k" := (fun p : Key * A => key_eqb k (fst p))
  (at level 10, k at level 9).

(* The run the list begins with *)

Lemma run_rest_length (descending : bool) (l : list (Key * A)) :
  forall prev n, run_rest descending prev l = Return n -> n <= List.length l.
Proof.
  induction l as [|x l IH]; intros prev n; cbn [run_rest].
  - intros [= <-]. simpl. lia.
  - destruct (key_lt (fst x) prev) as [b|]; cbn [bind]; [|discriminate].
    destruct (Bool.eqb b descending).
    + destruct (run_rest descending (fst x) l) as [m|] eqn:Hm; cbn [bind]; [|discriminate].
      intros [= <-]. specialize (IH _ _ Hm). simpl. lia.
    + intros [= <-]. lia.
Qed.

Lemma run_rest_rising (l : list (Key * A)) :
  plain l ->
  forall prev n, prev <> KFloat S754_nan ->
    run_rest false prev l = Return n ->
    ordered (firstn n l)
    /\ Forall (fun z => key_lt (fst z) prev = Return false) (firstn n l).
Proof.
  induction 1 as [|x l Nx Nl IH]; intros prev n Np; cbn [run_rest].
  - intros [= <-]. split; constructor.
  - destruct (key_lt (fst x) prev) as [[]|] eqn:Hb; cbn [bind Bool.eqb]; [| |discriminate].
    + intros [= <-]. split; constructor.
    + destruct (run_rest false (fst x) l) as [m|] eqn:Hm; cbn [bind]; [|discriminate].
      intros [= <-]. destruct (IH _ _ Nx Hm) as [Hord Hall]. cbn [firstn].
      split; [constructor; assumption|]. constructor; [exact Hb|].
      assert (Nfirst : plain (firstn m l)).
      { rewrite <- (firstn_skipn m l) in Nl. apply Forall_app in Nl. tauto. }
      rewrite Forall_forall in Hall, Nfirst |- *. intros z Hz.
      apply (@key_le_trans_plain prev (fst x) (fst z));
        [exact Np | exact Nx | apply Nfirst; exact Hz | exact Hb | apply Hall; exact Hz].
Qed.

Lemma run_rest_falling (l : list (Key * A)) :
  forall prev n,
    run_rest true prev l = Return n ->
    falling (firstn n l)
    /\ Forall (fun z => fst z <k prev) (firstn n l).
Proof.
  induction l as [|x l IH]; intros prev n; cbn [run_rest].
  - intros [= <-]. split; constructor.
  - destruct (key_lt (fst x) prev) as [[]|] eqn:Hb; cbn [bind Bool.eqb]; [| |discriminate].
    + destruct (run_rest true (fst x) l) as [m|] eqn:Hm; cbn [bind]; [|discriminate].
      intros [= <-]. destruct (IH _ _ Hm) as [Hord Hall]. cbn [firstn].
      split; [constructor; assumption|]. constructor; [exact Hb|].
      rewrite Forall_forall in Hall |- *. intros z Hz.
      exact (key_lt_trans _ _ _ (Hall z Hz) Hb).
    + intros [= <-]. split; constructor.
Qed.

Lemma run_rest_returns (c : KeyKind) (descending : bool) (l : list (Key * A)) :
  kinded c l ->
  forall prev, key_kind prev = Some c -> exists n, run_rest descending prev l = Return n.
Proof.
  induction 1 as [|x l Hx Hl IH]; intros prev Hp; cbn [run_rest]; [eauto|].
  destruct (@key_lt_total c (fst x) prev Hx Hp) as [b ->]. cbn [bind].
  destruct (Bool.eqb b descending); [|eauto].
  destruct (IH _ Hx) as [n ->]. cbn [bind]. eauto.
Qed.

Lemma count_run_length (l : list (Key * A)) (n : nat) (descending : bool) :
  count_run l = Return (n, descending) -> n <= List.length l.
Proof.
  destruct l as [|x [|y l]]; cbn [count_run].
  - intros [= <- _]. simpl. lia.
  - intros [= <- _]. simpl. lia.
  - destruct (key_lt (fst y) (fst x)) as [b|]; cbn [bind]; [|discriminate].
    destruct (run_rest b (fst y) l) as [m|] eqn:Hm; cbn [bind]; [|discriminate].
    intros [= <- _]. apply run_rest_length in Hm. simpl. lia.
Qed.

(** The run is in order, rising or falling. *)
Lemma count_run_spec (l : list (Key * A)) (n : nat) (descending : bool) :
  plain l ->
  count_run l = Return (n, descending) ->
  if descending then falling (firstn n l) else ordered (firstn n l).
Proof.
  intros Nl. destruct l as [|x [|y l]]; cbn [count_run].
  - intros [= <- <-]. constructor.
  - intros [= <- <-]. repeat constructor.
  - apply Forall_inv_tail in Nl as Nyl. apply Forall_inv in Nl as Nx.
    apply Forall_inv_tail in Nyl as Nl'. apply Forall_inv in Nyl as Ny.
    destruct (key_lt (fst y) (fst x)) as [b|] eqn:Hb; cbn [bind]; [|discriminate].
    destruct (run_rest b (fst y) l) as [m|] eqn:Hm; cbn [bind]; [|discriminate].
    intros [= <- <-]. cbn [Nat.add firstn]. destruct b.
    + destruct (@run_rest_falling l _ _ Hm) as [Hord Hall].
      constructor; [constructor; assumption|]. constructor; [exact Hb|].
      rewrite Forall_forall in Hall |- *. intros z Hz.
      exact (key_lt_trans _ _ _ (Hall z Hz) Hb).
    + destruct (@run_rest_rising l Nl' _ _ Ny Hm) as [Hord Hall].
      constructor; [constructor; assumption|]. constructor; [exact Hb|].
      assert (Nfirst : plain (firstn m l)).
      { rewrite <- (firstn_skipn m l) in Nl'. apply Forall_app in Nl'. tauto. }
      rewrite Forall_forall in Hall, Nfirst |- *. intros z Hz.
      apply (@key_le_trans_plain (fst x) (fst y) (fst z));
        [exact Nx | exact Ny | apply Nfirst; exact Hz | exact Hb | apply Hall; exact Hz].
Qed.

Lemma count_run_returns (c : KeyKind) (l : list (Key * A)) :
  kinded c l -> exists n descending, count_run l = Return (n, descending).
Proof.
  intros Hl. destruct l as [|x [|y l]]; cbn [count_run]; [eauto | eauto |].
  apply Forall_inv_tail in Hl as Hyl. apply Forall_inv in Hl as Hx.
  apply Forall_inv_tail in Hyl as Hl'. apply Forall_inv in Hyl as Hy.
  destruct (@key_lt_total c (fst y) (fst x) Hy Hx) as [b ->]. cbn [bind].
  destruct (@run_rest_returns c b l Hl' _ Hy) as [n ->]. cbn [bind]. eauto.
Qed.

(** A falling run holds each key once, so that turning it round moves no
    element past one with an equal key. *)
Lemma falling_rev (l : list (Key * A)) :
  falling l ->
  ordered (rev l) /\ forall k, filter (same_key k) (rev l) = filter (same_key k) l.
Proof.
  intros H. split.
  - apply StronglySorted_rev in H.
    induction H as [|a r Hr IH Ha]; constructor; [exact IH|].
    rewrite Forall_forall in Ha |- *. intros z Hz. exact (key_lt_flip _ _ (Ha z Hz)).
  - intros k. induction H as [|x l Hl IH Hx]; [reflexivity|].
    cbn [rev]. rewrite filter_app, IH. cbn [filter].
    destruct (key_eqb k (fst x)) eqn:Hkx; [|apply app_nil_r].
    assert (Hnone : filter (same_key k) l = []).
    { apply filter_none. intros z Hz.
      destruct (key_eqb k (fst z)) eqn:Hkz; [exfalso | reflexivity].
      rewrite Forall_forall in Hx.
      exact (key_eq_not_lt _ _ _ Hkz Hkx (Hx z Hz)). }
    rewrite Hnone. reflexivity.
Qed.

(* Binary insertion *)

Lemma bisect_place (pivot : Key * A) (done : list (Key * A)) (pos : nat) :
  fst pivot <> KFloat S754_nan -> plain done -> ordered done ->
  bisect (List.length done) (fst pivot) (map fst done) 0 (List.length done) = Return pos ->
  Forall (fun z => key_lt (fst pivot) (fst z) = Return false) (firstn pos done)
  /\ Forall (fun z => fst pivot <k fst z) (skipn pos done).
Proof.
  intros Np Ndone Hord Hpos.
  destruct done as [|x done'] eqn:E.
  { injection Hpos as <-. split; constructor. }
  rewrite <- E in *. assert (Hlen : 0 < List.length done) by (rewrite E; simpl; lia).
  clear E x done'.
  assert (Nkeys : Forall (fun k => k <> KFloat S754_nan) (map fst done)).
  { apply Forall_map. exact Ndone. }
  assert (Hsorted : StronglySorted (fun y z : Key => key_lt z y = Return false)
                                   (map fst done)).
  { eapply StronglySorted_map_in; [|exact Hord]. intros y z _ _ H. exact H. }
  destruct (@bisect_spec (fst pivot) (map fst done) Np Nkeys Hsorted
              (List.length done) 0 (List.length done) pos) as (Hle & Hbelow & Habove);
    [lia | rewrite length_map; lia | lia | intros i Hi; lia
    | intros i Hi; rewrite length_map; lia | exact Hpos |].
  split.
  - apply Forall_map with (f := fst)
                          (P := fun k => key_lt (fst pivot) k = Return false).
    rewrite <- firstn_map.
    apply Forall_firstn_nth with (d := KNone). intros i Hi _. apply Hbelow. exact Hi.
  - apply Forall_map with (f := fst) (P := fun k => fst pivot <k k).
    rewrite <- skipn_map.
    apply Forall_skipn_nth with (d := KNone). intros i Hi Hl. apply Habove; assumption.
Qed.

(** Put in at its place, the new element leaves the list in order and comes
    after the elements with an equal key. *)
Lemma insert_ordered (pivot : Key * A) (done : list (Key * A)) (pos : nat) :
  ordered done ->
  Forall (fun z => key_lt (fst pivot) (fst z) = Return false) (firstn pos done) ->
  Forall (fun z => fst pivot <k fst z) (skipn pos done) ->
  ordered (firstn pos done ++ pivot :: skipn pos done)
  /\ forall k, filter (same_key k) (firstn pos done ++ pivot :: skipn pos done)
               = filter (same_key k) done ++ filter (same_key k) [pivot].
Proof.
  intros Hord Hbelow Habove.
  rewrite <- (firstn_skipn pos done) in Hord.
  apply StronglySorted_app_inv in Hord as (H1 & H2 & H12).
  rewrite Forall_forall in Hbelow, Habove.
  split.
  - apply StronglySorted_app; [exact H1 | |].
    + constructor; [exact H2|]. apply Forall_forall. intros z Hz.
      exact (key_lt_flip _ _ (Habove z Hz)).
    + intros x y Hx [<- | Hy]; [apply Hbelow; exact Hx | apply H12; assumption].
  - intros k.
    assert (E : filter (same_key k) done
                = filter (same_key k) (firstn pos done)
                  ++ filter (same_key k) (skipn pos done))
      by (rewrite <- filter_app, firstn_skipn; reflexivity).
    rewrite E, filter_app. cbn [filter].
    destruct (key_eqb k (fst pivot)) eqn:Hkp.
    + assert (Hnone : filter (same_key k) (skipn pos done) = []).
      { apply filter_none. intros z Hz.
        destruct (key_eqb k (fst z)) eqn:Hkz; [exfalso | reflexivity].
        exact (key_eq_not_lt _ _ _ Hkp Hkz (Habove z Hz)). }
      rewrite Hnone, app_nil_r. reflexivity.
    + rewrite app_nil_r. reflexivity.
Qed.

Lemma binarysort_perm (todo : list (Key * A)) :
  forall done s, binarysort done todo = Return s -> Permutation s (done ++ todo).
Proof.
  induction todo as [|pivot todo IH]; intros done s; cbn [binarysort].
  - intros [= <-]. rewrite app_nil_r. apply Permutation_refl.
  - destruct (bisect _ _ _ _ _) as [pos|]; cbn [bind]; [|discriminate].
    intros H. rewrite (IH _ _ H). rewrite insert_perm.
    apply Permutation_middle.
Qed.

Lemma binarysort_spec (todo : list (Key * A)) :
  plain todo ->
  forall done s,
    plain done -> ordered done ->
    binarysort done todo = Return s ->
    ordered s
    /\ forall k, filter (same_key k) s
                 = filter (same_key k) done ++ filter (same_key k) todo.
Proof.
  induction 1 as [|pivot todo Np Ntodo IH]; intros done s Ndone Hord; cbn [binarysort].
  - intros [= <-]. split; [exact Hord|]. intros k. cbn [filter]. rewrite app_nil_r.
    reflexivity.
  - destruct (bisect _ _ _ _ _) as [pos|] eqn:Hpos; cbn [bind]; [|discriminate].
    intros Hs.
    destruct (@bisect_place pivot done pos Np Ndone Hord Hpos) as [Hbelow Habove].
    destruct (@insert_ordered pivot done pos Hord Hbelow Habove) as [Hord' Hfilter].
    assert (Ndone' : plain (firstn pos done ++ pivot :: skipn pos done)).
    { eapply Permutation_Forall; [apply Permutation_sym, insert_perm|].
      constructor; assumption. }
    destruct (IH _ _ Ndone' Hord' Hs) as [Hs_ord Hs_filter].
    split; [exact Hs_ord|]. intros k.
    rewrite Hs_filter, Hfilter, <- app_assoc. f_equal. cbn [filter].
    destruct (key_eqb k (fst pivot)); reflexivity.
Qed.

Lemma binarysort_returns (c : KeyKind) (todo : list (Key * A)) :
  kinded c todo ->
  forall done, kinded c done -> exists s, binarysort done todo = Return s.
Proof.
  induction 1 as [|pivot todo Hp Htodo IH]; intros done Hdone; cbn [binarysort]; [eauto|].
  assert (Hpos : exists pos,
             bisect (List.length done) (fst pivot) (map fst done) 0 (List.length done)
             = Return pos).
  { destruct done as [|x done'] eqn:E; [simpl; eauto|]. rewrite <- E in *.
    apply (@bisect_returns (fst pivot) (map fst done) c Hp).
    - apply Forall_map. exact Hdone.
    - rewrite E. simpl. lia.
    - rewrite length_map. lia. }
  destruct Hpos as [pos ->]. cbn [bind]. apply IH.
  eapply Permutation_Forall; [apply Permutation_sym, insert_perm|].
  constructor; assumption.
Qed.

(* list_sort and sorted *)

Lemma list_sort_perm (l s : list (Key * A)) :
  list_sort l = Return s -> Permutation s l.
Proof.
  unfold list_sort.
  destruct (count_run l) as [[n descending]|]; cbn [bind fst snd]; [|discriminate].
  intros H. rewrite (@binarysort_perm _ _ _ H).
  transitivity (firstn n l ++ skipn n l); [|rewrite firstn_skipn; reflexivity].
  apply Permutation_app_tail.
  destruct descending; [apply Permutation_sym, Permutation_rev | apply Permutation_refl].
Qed.

(** Without the float that is no number among the keys, what [list_sort]
    returns is in order, and the elements with equal keys stand as they
    stood. *)
Lemma list_sort_spec (l s : list (Key * A)) :
  plain l ->
  list_sort l = Return s ->
  ordered s /\ forall k, filter (same_key k) s = filter (same_key k) l.
Proof.
  intros Nl. unfold list_sort.
  destruct (count_run l) as [[n descending]|] eqn:Hrun; cbn [bind fst snd]; [|discriminate].
  intros Hs.
  pose proof (@count_run_spec l n descending Nl Hrun) as Hfirst.
  assert (Nparts : plain (firstn n l) /\ plain (skipn n l)).
  { rewrite <- (firstn_skipn n l) in Nl. apply Forall_app in Nl. exact Nl. }
  destruct Nparts as [Nfirst Nrest].
  assert (Hstart : ordered (if descending then rev (firstn n l) else firstn n l)
                   /\ plain (if descending then rev (firstn n l) else firstn n l)
                   /\ forall k, filter (same_key k)
                                  (if descending then rev (firstn n l) else firstn n l)
                                = filter (same_key k) (firstn n l)).
  { destruct descending.
    - destruct (@falling_rev _ Hfirst) as [H1 H2].
      split; [exact H1|]. split; [apply Forall_rev; exact Nfirst | exact H2].
    - split; [exact Hfirst|]. split; [exact Nfirst | reflexivity]. }
  destruct Hstart as (Hord & Nstart & Hsame).
  destruct (@binarysort_spec _ Nrest _ s Nstart Hord Hs) as [Hs_ord Hs_filter].
  split; [exact Hs_ord|]. intros k.
  rewrite Hs_filter, Hsame, <- filter_app, firstn_skipn. reflexivity.
Qed.

Lemma list_sort_returns (c : KeyKind) (l : list (Key * A)) :
  kinded c l -> exists s, list_sort l = Return s.
Proof.
  intros Hl. unfold list_sort.
  destruct (@count_run_returns c l Hl) as (n & descending & ->). cbn [bind fst snd].
  rewrite <- (firstn_skipn n l) in Hl. apply Forall_app in Hl as [Hfirst Hrest].
  apply (@binarysort_returns c _ Hrest).
  destruct descending; [apply Forall_rev|]; exact Hfirst.
Qed.

(** The keys a list comprehension returns belong to the elements. *)
Lemma mapM_combine (key : A -> Outcome Key) (l : list A) (keys : list Key) :
  mapM key l = Return keys ->
  map snd (combine keys l) = l
  /\ Forall (fun p => key (snd p) = Return (fst p)) (combine keys l).
Proof.
  revert keys. induction l as [|a l IH]; simpl; intros keys.
  - intros [= <-]. split; constructor.
  - destruct (key a) as [ka|] eqn:Ha; simpl; [|discriminate].
    destruct (mapM key l) as [ks|]; simpl; [|discriminate].
    intros [= <-]. destruct (IH ks eq_refl) as [Hm Hf].
    simpl. rewrite Hm. split; [reflexivity|]. constructor; assumption.
Qed.

Lemma filter_map_snd (key : A -> Outcome Key) (k : Key) (l : list (Key * A)) :
  Forall (fun p => key (snd p) = Return (fst p)) l ->
  filter (fun a => match key a with Return k' => key_eqb k k' | Raise _ => false end)
         (map snd l)
  = map snd (filter (same_key k) l).
Proof.
  induction 1 as [|p l Hp _ IH]; simpl; [reflexivity|].
  rewrite Hp, IH. destruct (key_eqb k (fst p)); reflexivity.
Qed.

(** [sorted] returns its input in another order. *)
Lemma sorted_perm (l out : list A) (key : A -> Outcome Key) (reverse : bool) :
  sorted l key reverse = Return out -> Permutation out l.
Proof.
  unfold sorted.
  destruct (mapM key l) as [keys|] eqn:Hkeys; cbn [bind]; [|discriminate].
  destruct (mapM_combine _ _ Hkeys) as [Hsnd _].
  set (keyed := combine keys l) in *.
  destruct (list_sort (if reverse then rev keyed else keyed)) as [s|] eqn:Hs;
    cbn [bind]; [|discriminate].
  intros [= <-]. apply list_sort_perm in Hs.
  rewrite <- Hsnd. apply Permutation_map.
  destruct reverse.
  - rewrite <- Permutation_rev, Hs, <- Permutation_rev. apply Permutation_refl.
  - exact Hs.
Qed.

(** The keyed list of [sorted], when no key is the float that is no
    number. *)
Lemma sorted_keyed (l out : list A) (key : A -> Outcome Key) (reverse : bool) :
  (forall a, In a l -> key a <> Return (KFloat S754_nan)) ->
  sorted l key reverse = Return out ->
  exists keyed s : list (Key * A),
    map snd keyed = l
    /\ Forall (fun p => key (snd p) = Return (fst p)) keyed
    /\ Forall (fun p => key (snd p) = Return (fst p)) s
    /\ out = map snd (if reverse then rev s else s)
    /\ ordered s
    /\ forall k, filter (same_key k) s
                 = filter (same_key k) (if reverse then rev keyed else keyed).
Proof.
  intros Nkey. unfold sorted.
  destruct (mapM key l) as [keys|] eqn:Hkeys; cbn [bind]; [|discriminate].
  destruct (mapM_combine _ _ Hkeys) as [Hsnd Hall].
  set (keyed := combine keys l) in *.
  destruct (list_sort (if reverse then rev keyed else keyed)) as [s|] eqn:Hs;
    cbn [bind]; [|discriminate].
  intros [= <-]. exists keyed, s.
  pose proof (@list_sort_perm _ _ Hs) as Hperm.
  assert (Hin_all : Forall (fun p => key (snd p) = Return (fst p))
                           (if reverse then rev keyed else keyed)).
  { destruct reverse; [apply Forall_rev|]; exact Hall. }
  assert (Hs_all : Forall (fun p => key (snd p) = Return (fst p)) s).
  { eapply Permutation_Forall; [apply Permutation_sym; exact Hperm | exact Hin_all]. }
  assert (Nkeyed : plain (if reverse then rev keyed else keyed)).
  { assert (N : plain keyed).
    { rewrite Forall_forall in Hall |- *. intros [k a] Hin E. simpl in E. subst k.
      apply (Nkey a).
      - unfold keyed in Hin. exact (in_combine_r _ _ _ _ Hin).
      - exact (Hall _ Hin). }
    destruct reverse; [apply Forall_rev|]; exact N. }
  destruct (@list_sort_spec _ _ Nkeyed Hs) as [Hord Hfilter].
  repeat split; assumption.
Qed.

(** Without the float that is no number among the keys, [sorted] keeps the
    elements whose keys are equal in the order they came in, in either
    direction. *)
Lemma sorted_stable (l out : list A) (key : A -> Outcome Key) (reverse : bool) :
  (forall a, In a l -> key a <> Return (KFloat S754_nan)) ->
  sorted l key reverse = Return out ->
  forall k : Key,
    filter (fun a => match key a with Return k' => key_eqb k k' | Raise _ => false end) out
    = filter (fun a => match key a with Return k' => key_eqb k k' | Raise _ => false end) l.
Proof.
  intros Nkey Hs k.
  destruct (@sorted_keyed l out key reverse Nkey Hs) as (keyed & s & Hsnd & Hall & Hs_all & -> & _ & Hf).
  rewrite <- Hsnd. rewrite (filter_map_snd _ k Hall).
  destruct reverse.
  - rewrite (filter_map_snd _ k (Forall_rev Hs_all)).
    rewrite filter_rev, Hf, filter_rev, rev_involutive. reflexivity.
  - rewrite (filter_map_snd _ k Hs_all), Hf. reflexivity.
Qed.

(** And what [sorted] returns is in the order of the keys: going down the
    list no key is less than one before it, or, for [reverse], greater. *)
Lemma sorted_ordered (l out : list A) (key : A -> Outcome Key) (reverse : bool) :
  (forall a, In a l -> key a <> Return (KFloat S754_nan)) ->
  sorted l key reverse = Return out ->
  StronglySorted
    (fun a b => forall ka kb, key a = Return ka -> key b = Return kb ->
                              (if reverse then key_lt ka kb else key_lt kb ka) = Return false)
    out.
Proof.
  intros Nkey Hs.
  destruct (@sorted_keyed l out key reverse Nkey Hs) as (keyed & s & _ & _ & Hs_all & -> & Hord & _).
  rewrite Forall_forall in Hs_all.
  destruct reverse.
  - apply StronglySorted_rev in Hord.
    eapply StronglySorted_map_in; [|exact Hord].
    intros x y Hx Hy Hxy ka kb Ha Hb.
    apply in_rev in Hx, Hy.
    rewrite (Hs_all x Hx) in Ha. rewrite (Hs_all y Hy) in Hb.
    injection Ha as <-. injection Hb as <-. exact Hxy.
  - eapply StronglySorted_map_in; [|exact Hord].
    intros x y Hx Hy Hxy ka kb Ha Hb.
    rewrite (Hs_all x Hx) in Ha. rewrite (Hs_all y Hy) in Hb.
    injection Ha as <-. injection Hb as <-. exact Hxy.
Qed.

(** Keys of one kind can always be sorted. *)
Lemma sorted_returns (c : KeyKind) (l : list A) (key : A -> Outcome Key) (reverse : bool) :
  (forall a, In a l -> exists k, key a = Return k /\ key_kind k = Some c) ->
  exists out, sorted l key reverse = Return out.
Proof.
  intros Hkey. unfold sorted.
  assert (Hkeys : exists keys, mapM key l = Return keys
                               /\ kinded c (combine keys l)).
  { induction l as [|a l IH]; [exists []; split; [reflexivity | constructor]|].
    destruct (Hkey a (or_introl eq_refl)) as (k & Hk & Hc).
    destruct IH as (keys & Hm & Hf); [intros b Hb; apply Hkey; right; exact Hb|].
    exists (k :: keys). simpl. rewrite Hk, Hm. simpl.
    split; [reflexivity|]. constructor; [exact Hc | exact Hf]. }
  destruct Hkeys as (keys & -> & Hf). cbn [bind].
  assert (Hf' : kinded c (if reverse then rev (combine keys l) else combine keys l)).
  { destruct reverse; [apply Forall_rev|]; exact Hf. }
  destruct (@list_sort_returns c _ Hf') as (s & ->). cbn [bind]. eauto.
Qed.

End SortedFacts.

Section SortFacts.
Context {os : OsModule} {re : ReModule} {num : NumModule}.

(** The flag loop of [sort] fails with one of its two statuses only. *)
Lemma sort_flags_error (split_flags : list string) (f : SortFlags) (e : CommandResults.t) :
  sort_flags split_flags f = inr e -> e = InvalidSortColumn \/ e = InvalidSortFlag.
Proof.
  revert f. induction split_flags as [|flag more IH]; intros f; cbn [sort_flags].
  - discriminate.
  - repeat match goal with
           | |- context [if ?c then _ else _] => destruct c
           end; eauto.
    + destruct (parse_column (removeprefix flag "column=")); eauto.
      intros [= <-]. auto.
    + intros [= <-]. auto.
Qed.

(** What [sort] does when it returns [Ok]. *)
Lemma sort_ok (self self' : CommandProcessor) (flags : string) :
  sort self [VStr flags] = (self', Return (Status Ok)) ->
  exists (f : SortFlags) (out : list string),
    sort_flags (split flags ",") sort_defaults = inl f
    /\ sorted (lines_of self) (sort_get_value f) (reverse f) = Return out
    /\ self' = set_current_output self (join NL out).
Proof.
  unfold sort, status, ok.
  destruct (sort_flags (split flags ",") sort_defaults) as [f|e] eqn:Hf.
  2:{ intros H. destruct (sort_flags_error _ _ Hf) as [-> | ->]; discriminate H. }
  destruct (mapM (sort_get_value f) (lines_of self)); [|intros H; discriminate H].
  destruct (sorted (lines_of self) (sort_get_value f) (reverse f)) as [out|] eqn:Hs;
    [|intros H; discriminate H].
  intros [= <-]. exists f, out. repeat split. exact Hs.
Qed.

(** C8. When [--sort] returns [Ok] and no line has the float that is no
    number for its key, the new buffer holds the old lines in another
    order, and for every key the lines with a key equal to it stand in the
    order they had before: the sort is stable, whether the flags ask for
    ascending or for descending order. *)
Theorem sort_is_stable (self self' : CommandProcessor) (flags : string) :
  sort self [VStr flags] = (self', Return (Status Ok)) ->
  (forall (f : SortFlags) (line : string),
      sort_flags (split flags ",") sort_defaults = inl f ->
      In line (lines_of self) ->
      sort_get_value f line <> Return (KFloat S754_nan)) ->
  exists (f : SortFlags) (out : list string),
    sort_flags (split flags ",") sort_defaults = inl f
    /\ self' = set_current_output self (join NL out)
    /\ Permutation out (lines_of self)
    /\ forall k : Key,
         filter (has_key f k) out = filter (has_key f k) (lines_of self).
Proof.
  intros Hsort Hplain.
  destruct (sort_ok _ _ Hsort) as (f & out & Hf & Hs & ->).
  exists f, out. split; [exact Hf|]. split; [reflexivity|]. split.
  - exact (@sorted_perm string _ _ _ _ Hs).
  - intros k.
    apply (@sorted_stable string (lines_of self) out (sort_get_value f) (reverse f));
      [|exact Hs].
    intros line Hin. exact (Hplain f line Hf Hin).
Qed.

End SortFacts.

Section SortRuns.
Import TestDoubles.

Let scores : CommandProcessor (os := mem_os) :=
  set_current_output (fresh linux_host empty_fs) (join NL ["b 1"; "a 2"; "c 1"; "a 1"]).

(** Sorting on the second column, downwards: the three lines with key 1
    stay in the order b, c, a. *)
Lemma sort_is_stable_witness :
  sort (re := literal_re) (num := no_floats) scores [VStr "column=2,int,desc"]
  = (set_current_output scores (join NL ["a 2"; "b 1"; "c 1"; "a 1"]),
     Return (Status Ok))
  /\ exists (f : SortFlags (re := literal_re)) (out : list string),
       sort_flags (split "column=2,int,desc" ",") sort_defaults = inl f
       /\ set_current_output scores (join NL ["a 2"; "b 1"; "c 1"; "a 1"])
          = set_current_output scores (join NL out)
       /\ Permutation out (lines_of scores)
       /\ forall k : Key,
            filter (has_key (num := no_floats) f k) out
            = filter (has_key (num := no_floats) f k) (lines_of scores).
Proof.
  split; [reflexivity|].
  apply (sort_is_stable (re := literal_re) (num := no_floats) scores
           (self' := set_current_output scores (join NL ["a 2"; "b 1"; "c 1"; "a 1"]))
           "column=2,int,desc").
  - reflexivity.
  - intros f line [= <-] Hin.
    repeat (destruct Hin as [<- | Hin]; [discriminate|]). destruct Hin.
Defined.

Let readings : CommandProcessor (os := mem_os) :=
  set_current_output (fresh linux_host empty_fs)
    (join NL ["0 a"; "1 b"; "0 c"; "0 d"; "nan e"; "0 f"; "0 g"]).

(** C8 fails on the code when a key is the float that is no number.  [<]
    is false on that key both ways, so that the binary search goes right at
    it whatever the pivot is.  In [readings] the run is [0 a], [1 b]; the
    lines [0 c], [0 d] and [nan e] are put in, which gives 0 a, 0 c, 0 d,
    1 b, nan e; [0 f] is compared with [0 d] and with [nan e] and comes
    last; [0 g] is compared with [1 b], [0 c] and [0 d] and goes in before
    [1 b], ahead of [0 f], which came before it. *)
Lemma sort_moves_equal_keys_past_nan :
  exists (f : SortFlags (re := literal_re)) (out : list string),
    sort_flags (split "float" ",") sort_defaults = inl f
    /\ sort (re := literal_re) (num := few_floats) readings [VStr "float"]
       = (set_current_output readings (join NL out), Return (Status Ok))
    /\ out = ["0 a"; "0 c"; "0 d"; "0 g"; "1 b"; "nan e"; "0 f"]
    /\ filter (has_key (num := few_floats) f (KInt 0)) (lines_of readings)
       = ["0 a"; "0 c"; "0 d"; "0 f"; "0 g"]
    /\ filter (has_key (num := few_floats) f (KInt 0)) out
       = ["0 a"; "0 c"; "0 d"; "0 g"; "0 f"]
    /\ ~ (forall k : Key,
            filter (has_key (num := few_floats) f k) out
            = filter (has_key (num := few_floats) f k) (lines_of readings)).
Proof.
  eexists. exists ["0 a"; "0 c"; "0 d"; "0 g"; "1 b"; "nan e"; "0 f"].
  split; [reflexivity|]. split; [reflexivity|]. split; [reflexivity|].
  split; [reflexivity|]. split; [reflexivity|].
  intros H. specialize (H (KInt 0)). discriminate H.
Qed.

End SortRuns.

(* ================================================================== *)
(** * Further properties *)

(** ** Prefixes and suffixes *)

Lemma startswith_app (p s : string) : startswith (p ++ s) p = true.
Proof.
  induction p as [|c p IH]; simpl; [apply startswith_empty|].
  rewrite Ascii.eqb_refl. exact IH.
Qed.

Lemma str_drop_app (p s : string) : str_drop (String.length p) (p ++ s) = s.
Proof.
  induction p as [|c p IH]; simpl; [reflexivity | exact IH].
Qed.

Lemma str_take_app (s t : string) : str_take (String.length s) (s ++ t) = s.
Proof.
  induction s as [|c s IH]; simpl; [destruct t; reflexivity|]. rewrite IH. reflexivity.
Qed.

Lemma endswith_append (s suffix : string) : endswith (s ++ suffix) suffix = true.
Proof.
  unfold endswith. rewrite append_length.
  replace (String.length s + String.length suffix - String.length suffix)
    with (String.length s) by lia.
  rewrite str_drop_app, String.eqb_refl.
  destruct (Nat.leb_spec (String.length suffix) (String.length s + String.length suffix));
    [reflexivity | lia].
Qed.

Lemma removeprefix_app (p s : string) : removeprefix (p ++ s) p = s.
Proof. unfold removeprefix. rewrite startswith_app. apply str_drop_app. Qed.

Lemma str_drop_all (s : string) : str_drop (String.length s) s = EmptyString.
Proof.
  induction s as [|c s IH]; simpl; [reflexivity | exact IH].
Qed.

(** X1. [removeprefix] takes a prefix off again and [removesuffix] a suffix
    that is not empty.  With an empty suffix [removesuffix] gives the empty
    string, whatever the text: the slice it takes ends at index [-0]. *)
Theorem remove_undoes_append (s affix : string) :
  removeprefix (affix ++ s) affix = s
  /\ (affix <> EmptyString -> removesuffix (s ++ affix) affix = s)
  /\ removesuffix s EmptyString = EmptyString.
Proof.
  split; [|split].
  - unfold removeprefix. rewrite startswith_app. apply str_drop_app.
  - intros Hne. unfold removesuffix. rewrite endswith_append.
    destruct affix as [|c affix]; [contradiction|].
    rewrite append_length.
    replace (String.length s + String.length (String c affix)
             - String.length (String c affix)) with (String.length s) by lia.
    simpl String.length. apply str_take_app.
  - unfold removesuffix, endswith. simpl String.length.
    rewrite Nat.sub_0_r, str_drop_all. reflexivity.
Qed.

Lemma remove_undoes_append_witness :
  removeprefix "column=3" "column=" = "3"
  /\ removesuffix "/cygdrive/c/" "/" = "/cygdrive/c"
  /\ removesuffix "/cygdrive/c" EmptyString = EmptyString.
Proof.
  split; [|split].
  - exact (proj1 (remove_undoes_append "3" "column=")).
  - apply (proj1 (proj2 (remove_undoes_append "/cygdrive/c" "/"))). discriminate.
  - exact (proj2 (proj2 (remove_undoes_append "/cygdrive/c" "/"))).
Defined.

(** ** Result codes *)

Lemma code_injective (a b : CommandResults.t) : code a = code b -> a = b.
Proof.
  destruct a, b; simpl; intros H; try reflexivity; discriminate H.
Qed.

(** X2. [CommandResults.check] accepts the code of every declared result
    and no other number, and two results never share a code. *)
Theorem check_accepts_declared_codes :
  (forall r : CommandResults.t, check (code r) = true)
  /\ (forall z : Z, check z = true -> exists r : CommandResults.t, code r = z)
  /\ (forall a b : CommandResults.t, code a = code b -> a = b).
Proof.
  split; [|split].
  - intros r. destruct r; reflexivity.
  - intros z H. unfold check in H. apply andb_true_iff in H as [Hlo Hhi].
    apply Z.leb_le in Hlo, Hhi. simpl in Hlo, Hhi.
    assert (Hz : z = Z.of_nat (Z.to_nat z)) by lia.
    assert (Hn : Z.to_nat z <= 20) by lia.
    revert Hz Hn. generalize (Z.to_nat z) as n. intros n Hz Hn. subst z.
    do 21 (destruct n as [|n];
           [first [ now exists Ok | now exists UndefinedError | now exists RegexError
                  | now exists IOError | now exists InvalidLine
                  | now exists InvalidEnvValue | now exists MissingParameter
                  | now exists UnknownArgument | now exists NoCommands
                  | now exists CommandError | now exists CommandNotFoundError
                  | now exists CommandExecFailedError | now exists CommandOSError
                  | now exists InvalidOutputMode | now exists InvalidSortFlag
                  | now exists InvalidSortColumn | now exists InvalidSortValue
                  | now exists InvalidSumFlag | now exists InvalidSumValue
                  | now exists InvalidFilterFlag | now exists Not ]|]).
    lia.
  - exact code_injective.
Qed.

Lemma check_accepts_declared_codes_witness :
  check 7 = true /\ exists r : CommandResults.t, code r = 7%Z.
Proof.
  split; [reflexivity|].
  apply (proj1 (proj2 check_accepts_declared_codes) 7%Z). reflexivity.
Defined.

(** ** Lines *)

(** No line that [splitlines] gives holds a line boundary. *)
Lemma splitlines_lines (n : nat) (s : string) :
  String.length s <= n -> Forall (fun line => one_line line = true) (splitlines s).
Proof.
  revert s. induction n as [|n IH]; intros s Hlen.
  - destruct s; [constructor | simpl in Hlen; lia].
  - destruct s as [|c s]; [constructor|]. simpl in Hlen.
    cbn [splitlines].
    destruct (is_linebreak c) eqn:Hc.
    + destruct s as [|c' s']; [repeat constructor|].
      simpl in Hlen.
      destruct (Ascii.eqb c CR && Ascii.eqb c' LF); constructor;
        try reflexivity; apply IH; simpl; lia.
    + assert (Hs : Forall (fun line => one_line line = true) (splitlines s))
        by (apply IH; lia).
      destruct (splitlines s) as [|l ls].
      * repeat constructor. unfold one_line. simpl. rewrite Hc. reflexivity.
      * inversion Hs as [|? ? Hl Hls]; subst. constructor; [|exact Hls].
        unfold one_line in *. simpl. rewrite Hc, Hl. reflexivity.
Qed.

Lemma splitlines_all_one_line (s : string) :
  Forall (fun line => one_line line = true) (splitlines s).
Proof. eapply splitlines_lines. apply Nat.le_refl. Qed.

Lemma join_cons (sep x y : string) (l : list string) :
  join sep (x :: y :: l) = (x ++ sep ++ join sep (y :: l))%string.
Proof. reflexivity. Qed.

Lemma splitlines_cons_plain (c : ascii) (s : string) :
  is_linebreak c = false ->
  splitlines (String c s)
  = match splitlines s with
    | [] => [String c EmptyString]
    | l :: ls => String c l :: ls
    end.
Proof. intros H. cbn [splitlines]. rewrite H. reflexivity. Qed.

(** A line written before a line feed comes back as the first line. *)
Lemma splitlines_line_LF (line rest : string) :
  one_line line = true ->
  splitlines (line ++ NL ++ rest) = line :: splitlines rest.
Proof.
  unfold one_line. induction line as [|c line IH]; intros H.
  - simpl. destruct rest as [|c' rest']; reflexivity.
  - simpl in H. apply andb_true_iff in H as [Hc Hl]. apply negb_true_iff in Hc.
    change (String c line ++ NL ++ rest)%string with (String c (line ++ NL ++ rest)).
    rewrite splitlines_cons_plain by exact Hc. rewrite (IH Hl). reflexivity.
Qed.

(** Joining lines with line feeds and splitting again gives the lines
    back, when no line holds a boundary and the last line is not empty. *)
Lemma splitlines_join (lines : list string) :
  Forall (fun line => one_line line = true) lines ->
  last lines "x" <> EmptyString ->
  splitlines (join NL lines) = lines.
Proof.
  induction lines as [|x lines IH]; intros Hall Hlast; [reflexivity|].
  inversion Hall as [|? ? Hx Hrest]; subst.
  destruct lines as [|y lines].
  - simpl in *. apply splitlines_one_line; assumption.
  - rewrite join_cons. rewrite splitlines_line_LF by exact Hx. rewrite IH; auto.
Qed.

(** An empty line at the end is not read back. *)
Lemma splitlines_join_empty_last (lines : list string) :
  Forall (fun line => one_line line = true) lines ->
  splitlines (join NL (lines ++ [EmptyString])) = lines.
Proof.
  induction lines as [|x lines IH]; intros Hall; [reflexivity|].
  inversion Hall as [|? ? Hx Hrest]; subst.
  change ((x :: lines) ++ [EmptyString]) with (x :: (lines ++ [EmptyString])).
  destruct (lines ++ [EmptyString]) as [|y more] eqn:E.
  - destruct lines; discriminate E.
  - rewrite join_cons. rewrite splitlines_line_LF by exact Hx.
    rewrite (IH Hrest). reflexivity.
Qed.

Section BufferFacts.
Context {os : OsModule}.

(** X3. A handler that writes lines into the buffer, joined by line feeds,
    leaves a buffer that reads back as those lines when none of them holds a
    line boundary and the last one is not empty; an empty last line is
    lost. *)
Theorem buffer_lines_round_trip (self : CommandProcessor) (lines : list string) :
  Forall (fun line => one_line line = true) lines ->
  (last lines "x" <> EmptyString ->
   lines_of (set_current_output self (join NL lines)) = lines)
  /\ lines_of (set_current_output self (join NL (lines ++ [EmptyString]))) = lines.
Proof.
  intros Hall. split.
  - intros Hlast. apply splitlines_join; assumption.
  - apply splitlines_join_empty_last. exact Hall.
Qed.

End BufferFacts.

Lemma buffer_lines_round_trip_witness :
  let self := TestDoubles.fresh TestDoubles.linux_host TestDoubles.empty_fs in
  lines_of (set_current_output self (join NL ["a"; ""; "b"])) = ["a"; ""; "b"]
  /\ lines_of (set_current_output self (join NL (["a"; ""; "b"] ++ [EmptyString])))
     = ["a"; ""; "b"].
Proof.
  intros self.
  assert (H : Forall (fun line => one_line line = true) ["a"; ""; "b"])
    by (repeat constructor).
  split.
  - apply (proj1 (buffer_lines_round_trip self H)). discriminate.
  - apply (proj2 (buffer_lines_round_trip self H)).
Defined.

(** ** Handlers that add to the buffer *)

Lemma splitlines_app_NL_fuel (n : nat) (a b : string) :
  String.length a <= n -> a <> EmptyString -> ends_with_linebreak a = false ->
  splitlines (a ++ NL ++ b) = splitlines a ++ splitlines b.
Proof.
  revert a. induction n as [|n IH]; intros a Hlen Hne Hend.
  - destruct a; [contradiction | simpl in Hlen; lia].
  - destruct a as [|c a]; [contradiction|]. simpl in Hlen.
    destruct a as [|c' a].
    + (* one character, which is no boundary *)
      simpl in Hend.
      change (String c EmptyString ++ NL ++ b)%string
        with (String c EmptyString ++ NL ++ b)%string.
      rewrite splitlines_line_LF by (unfold one_line; simpl; rewrite Hend; reflexivity).
      simpl. rewrite Hend. reflexivity.
    + assert (Hend' : ends_with_linebreak (String c' a) = false) by exact Hend.
      assert (IHa : splitlines (String c' a ++ NL ++ b)
                    = splitlines (String c' a) ++ splitlines b).
      { apply IH; [simpl in *; lia | discriminate | exact Hend']. }
      change (String c (String c' a) ++ NL ++ b)%string
        with (String c (String c' a ++ NL ++ b)).
      destruct (is_linebreak c) eqn:Hc.
      * change (String c' a ++ NL ++ b)%string with (String c' (a ++ NL ++ b)) in *.
        cbn [splitlines]. rewrite Hc.
        destruct (Ascii.eqb c CR && Ascii.eqb c' LF) eqn:Hcrlf.
        -- (* the pair CR LF is one boundary *)
           apply andb_true_iff in Hcrlf as [_ Hlf]. apply Ascii.eqb_eq in Hlf. subst c'.
           destruct a as [|c'' a]; [discriminate Hend|].
           assert (Hend'' : ends_with_linebreak (String c'' a) = false) by exact Hend.
           rewrite (IH (String c'' a)); [reflexivity | simpl in *; lia | discriminate
                                        | exact Hend''].
        -- cbn [splitlines] in IHa. rewrite IHa. reflexivity.
      * rewrite !splitlines_cons_plain by exact Hc. rewrite IHa.
        destruct (splitlines (String c' a)) as [|l ls] eqn:E.
        -- exfalso. eapply splitlines_nonempty; [|exact E]. discriminate.
        -- reflexivity.
Qed.

(** A text put after a buffer and a line feed adds its lines to the lines
    of the buffer, unless the buffer ends with a line boundary. *)
Lemma splitlines_app_NL (a b : string) :
  a <> EmptyString -> ends_with_linebreak a = false ->
  splitlines (a ++ NL ++ b) = splitlines a ++ splitlines b.
Proof. apply (@splitlines_app_NL_fuel (String.length a)). apply Nat.le_refl. Qed.

Lemma startswith_no_char (c : ascii) (s t : string) :
  has_char c s = false -> contains s (String c t) = false.
Proof.
  induction s as [|x s IH]; [reflexivity|]. simpl has_char. intros H.
  apply orb_false_iff in H as [Hx Hs].
  change (contains (String x s) (String c t))
    with (startswith (String x s) (String c t) || contains s (String c t)).
  simpl startswith. rewrite Hx, (IH Hs). reflexivity.
Qed.

Section InputFacts.
Context {os : OsModule}.

(** The buffer after the separator that the input handlers write. *)
Lemma start_line_lines (self : CommandProcessor) (text : string) :
  ends_with_linebreak (current_output self) = false ->
  splitlines (current_output (start_line self) ++ text)
  = lines_of self ++ splitlines text.
Proof.
  intros Hend. unfold start_line, lines_of.
  destruct (String.eqb (current_output self) EmptyString) eqn:E; simpl.
  - apply String.eqb_eq in E. rewrite E. reflexivity.
  - apply String.eqb_neq in E. rewrite append_assoc.
    apply splitlines_app_NL; assumption.
Qed.

(** X4. The handlers that add to the buffer add whole lines, when the
    buffer does not end with a line boundary: [--in] adds the lines of a
    text that holds no backslash; [--platform] adds one line, the name of
    the host's platform; [--platform-exec] adds the line [.exe] on Windows
    and none elsewhere; [--platform-open] adds none on any host.  The lines
    that were there stay, in their order. *)
Theorem inputs_add_lines (self : CommandProcessor) :
  ends_with_linebreak (current_output self) = false ->
  (forall input : string,
      has_char (ascii_of_nat 92) input = false ->
      exists self' : CommandProcessor,
        append self [VStr input] = ok self'
        /\ lines_of self' = lines_of self ++ splitlines input)
  /\ (exists self' : CommandProcessor,
        platform self [] = ok self'
        /\ lines_of self' = lines_of self ++ [platform_name (host self)]
        /\ In (platform_name (host self)) ["Windows"; "Linux"; "MacOS"; "Unknown"])
  /\ (exists self' : CommandProcessor,
        platform_exec self [] = ok self'
        /\ lines_of self' = lines_of self ++ (if on_windows self then [".exe"] else []))
  /\ (exists self' : CommandProcessor,
        platform_open self [] = ok self' /\ lines_of self' = lines_of self).
Proof.
  intros Hend.
  assert (Hhost : host (start_line self) = host self).
  { unfold start_line. destruct (negb _); reflexivity. }
  split; [|split; [|split]].
  - intros input Hplain. unfold append.
    rewrite (replace_absent ESC_N NL input) by (apply startswith_no_char; exact Hplain).
    rewrite (replace_absent ESC_T TABS input) by (apply startswith_no_char; exact Hplain).
    rewrite (replace_absent ESC_R CRS input) by (apply startswith_no_char; exact Hplain).
    eexists. split; [reflexivity|].
    unfold lines_of at 1. simpl current_output.
    apply start_line_lines. exact Hend.
  - assert (Hname : In (platform_name (host self)) ["Windows"; "Linux"; "MacOS"; "Unknown"]).
    { unfold platform_name.
      destruct (String.eqb (os_name (host self)) "nt"
                || String.eqb (sys_platform (host self)) "cygwin"); [simpl; auto|].
      destruct (String.eqb (sys_platform (host self)) "linux"); [simpl; auto|].
      destruct (String.eqb (sys_platform (host self)) "darwin"); simpl; auto. }
    eexists. split; [reflexivity|]. split; [|exact Hname].
    unfold lines_of at 1. simpl current_output.
    rewrite Hhost, start_line_lines by exact Hend.
    f_equal.
    destruct Hname as [<- | [<- | [<- | [<- | []]]]]; reflexivity.
  - eexists. split; [reflexivity|].
    unfold lines_of at 1. simpl current_output.
    rewrite Hhost, start_line_lines by exact Hend.
    unfold on_windows.
    destruct (String.eqb (os_name (host self)) "nt"
              || String.eqb (sys_platform (host self)) "cygwin"); reflexivity.
  - eexists. split; [reflexivity|].
    unfold lines_of at 1. simpl current_output.
    rewrite start_line_lines by exact Hend. apply app_nil_r.
Qed.

End InputFacts.

Section InputRuns.
Import TestDoubles.

Let notes : CommandProcessor (os := mem_os) :=
  set_current_output (fresh linux_host empty_fs) (join NL ["a"; "b"]).

Lemma inputs_add_lines_witness :
  (exists self' : CommandProcessor (os := mem_os),
      append notes [VStr (join NL ["c"; "d"])] = ok self'
      /\ lines_of self' = lines_of notes ++ splitlines (join NL ["c"; "d"]))
  /\ (exists self' : CommandProcessor (os := mem_os),
        platform notes [] = ok self'
        /\ lines_of self' = lines_of notes ++ ["Linux"]
        /\ In "Linux" ["Windows"; "Linux"; "MacOS"; "Unknown"]).
Proof.
  destruct (inputs_add_lines notes eq_refl) as (Hin & Hplatform & _).
  split; [apply Hin; reflexivity | exact Hplatform].
Defined.

End InputRuns.

(** ** Handlers that select lines *)

Lemma py_slice_nonneg {A : Type} (l : list A) (a b : Z) :
  (0 <= a)%Z -> (0 <= b)%Z ->
  py_slice l a b = firstn (Z.to_nat b - Z.to_nat a) (skipn (Z.to_nat a) l).
Proof.
  intros Ha Hb. unfold py_slice, slice_bound.
  destruct (Z.ltb_spec a 0); [lia|]. destruct (Z.ltb_spec b 0); [lia|].
  destruct (Nat.le_gt_cases (List.length l) (Z.to_nat a)) as [Hge | Hlt].
  - replace (Z.to_nat (Z.min a (Z.of_nat (List.length l)))) with (List.length l) by lia.
    rewrite skipn_all, (skipn_all2 l Hge), !firstn_nil. reflexivity.
  - replace (Z.to_nat (Z.min a (Z.of_nat (List.length l)))) with (Z.to_nat a) by lia.
    destruct (Nat.le_gt_cases (Z.to_nat b) (List.length l)) as [Hb' | Hb'].
    + f_equal. lia.
    + rewrite !firstn_all2; [reflexivity | |]; rewrite length_skipn; lia.
Qed.

Lemma py_slice_to_end {A : Type} (l : list A) (a : Z) :
  (0 <= a)%Z ->
  py_slice l a (Z.of_nat (List.length l)) = skipn (Z.to_nat a) l.
Proof.
  intros Ha. rewrite py_slice_nonneg by lia.
  apply firstn_all2. rewrite length_skipn. lia.
Qed.

Lemma py_slice_from_start {A : Type} (l : list A) (a : Z) :
  (0 <= a)%Z -> py_slice l 0 a = firstn (Z.to_nat a) l.
Proof.
  intros Ha. rewrite py_slice_nonneg by lia. simpl. f_equal. lia.
Qed.

Lemma skipn_last {A : Type} (l : list A) (d : A) :
  l <> [] -> skipn (List.length l - 1) l = [last l d].
Proof.
  induction l as [|x l IH]; [contradiction|]. intros _.
  destruct l as [|y l]; [reflexivity|].
  replace (List.length (x :: y :: l) - 1) with (S (List.length (y :: l) - 1))
    by (simpl; lia).
  change (last (x :: y :: l) d) with (last (y :: l) d).
  cbn [skipn]. apply IH. discriminate.
Qed.

Lemma py_slice_last {A : Type} (l : list A) (d : A) :
  l <> [] -> py_slice l (-1) (Z.of_nat (List.length l)) = [last l d].
Proof.
  intros Hne. unfold py_slice, slice_bound.
  change (-1 <? 0)%Z with true. cbv iota.
  destruct (Z.ltb_spec (Z.of_nat (List.length l)) 0); [lia|].
  assert (Hlen : List.length l <> 0) by (destruct l; [contradiction | discriminate]).
  replace (Z.to_nat (Z.max 0 (-1 + Z.of_nat (List.length l))))
    with (List.length l - 1) by lia.
  rewrite (skipn_last d Hne).
  replace (Z.to_nat (Z.min (Z.of_nat (List.length l)) (Z.of_nat (List.length l))
                     - Z.max 0 (-1 + Z.of_nat (List.length l))))
    with 1 by lia.
  reflexivity.
Qed.

Lemma last_default_or_in {A : Type} (l : list A) (d : A) :
  last l d = d \/ In (last l d) l.
Proof.
  induction l as [|x l IH]; [left; reflexivity|].
  destruct l as [|y l]; [right; left; reflexivity|].
  change (last (x :: y :: l) d) with (last (y :: l) d).
  destruct IH as [IH | IH]; [left; exact IH | right; right; exact IH].
Qed.

Lemma filter_twice {A : Type} (p : A -> bool) (l : list A) :
  filter p (filter p l) = filter p l.
Proof.
  induction l as [|x l IH]; [reflexivity|]. simpl.
  destruct (p x) eqn:E; [|exact IH]. simpl. rewrite E, IH. reflexivity.
Qed.

Lemma filter_split_perm {A : Type} (p : A -> bool) (l : list A) :
  Permutation (filter p l ++ filter (fun x => negb (p x)) l) l.
Proof.
  induction l as [|x l IH]; [constructor|]. simpl.
  destruct (p x); simpl.
  - constructor. exact IH.
  - apply Permutation_sym, Permutation_cons_app, Permutation_sym. exact IH.
Qed.

Lemma strip_empty : strip EmptyString = EmptyString.
Proof. reflexivity. Qed.

Section SelectionFacts.
Context {os : OsModule} {re : ReModule}.

(** X5. [--include FROM TO] and [--exclude FROM TO] with [0 <= FROM <= TO]
    and [TO] not zero split the lines in three: the lines before [FROM], the
    lines from [FROM] up to [TO], and the rest.  [--include] keeps the
    middle part and [--exclude] the two others, in their order. *)
Theorem include_exclude_partition (self : CommandProcessor) (a b : Z) :
  (0 <= a <= b)%Z -> b <> 0%Z ->
  exists before inside after : list string,
    lines_of self = before ++ inside ++ after
    /\ List.length before = Nat.min (Z.to_nat a) (List.length (lines_of self))
    /\ List.length (before ++ inside)
       = Nat.min (Z.to_nat b) (List.length (lines_of self))
    /\ lines self [VInt a; VInt b] = ok (set_current_output self (join NL inside))
    /\ remove_lines self [VInt a; VInt b]
       = ok (set_current_output self (join NL (before ++ after))).
Proof.
  intros Hab Hb.
  exists (firstn (Z.to_nat a) (lines_of self)),
         (firstn (Z.to_nat b - Z.to_nat a) (skipn (Z.to_nat a) (lines_of self))),
         (skipn (Z.to_nat b) (lines_of self)).
  assert (Hskip : skipn (Z.to_nat b) (lines_of self)
                  = skipn (Z.to_nat b - Z.to_nat a) (skipn (Z.to_nat a) (lines_of self))).
  { rewrite skipn_skipn. f_equal. lia. }
  apply Z.eqb_neq in Hb.
  repeat split.
  - rewrite Hskip, firstn_skipn, firstn_skipn. reflexivity.
  - apply length_firstn.
  - rewrite length_app, !length_firstn, length_skipn. lia.
  - unfold lines. rewrite Hb, py_slice_nonneg by lia. reflexivity.
  - unfold remove_lines. rewrite Hb, py_slice_from_start, py_slice_to_end by lia.
    reflexivity.
Qed.

(** X6. A [TO] of zero stands for the end of the buffer: [--include FROM 0]
    keeps the lines from [FROM] on, [--exclude FROM 0] the lines before
    [FROM], so that [--exclude 0 0] empties the buffer. *)
Theorem include_exclude_to_end (self : CommandProcessor) (a : Z) :
  (0 <= a)%Z ->
  lines self [VInt a; VInt 0]
  = ok (set_current_output self (join NL (skipn (Z.to_nat a) (lines_of self))))
  /\ remove_lines self [VInt a; VInt 0]
     = ok (set_current_output self (join NL (firstn (Z.to_nat a) (lines_of self)))).
Proof.
  intros Ha. split.
  - unfold lines. simpl Z.eqb. cbv iota. rewrite py_slice_to_end by exact Ha. reflexivity.
  - unfold remove_lines. simpl Z.eqb. cbv iota.
    rewrite py_slice_from_start, py_slice_to_end by lia.
    rewrite Nat2Z.id, skipn_all, app_nil_r. reflexivity.
Qed.


(** X8. [--first] is [--include 0 1] and [--last] is [--include -1 0]: on
    every buffer the two give the same processor and the same result.  On
    the empty buffer all four return [Ok] and leave the buffer empty. *)
Theorem first_last_as_include (self : CommandProcessor) :
  first_line self [] = lines self [VInt 0; VInt 1]
  /\ last_line self [] = lines self [VInt (-1); VInt 0]
  /\ (current_output self = EmptyString ->
      first_line self [] = ok (set_current_output self EmptyString)
      /\ lines self [VInt 0; VInt 1] = ok (set_current_output self EmptyString)
      /\ last_line self [] = ok (set_current_output self EmptyString)
      /\ lines self [VInt (-1); VInt 0] = ok (set_current_output self EmptyString)).
Proof.
  split; [|split].
  - unfold first_line, lines. simpl Z.eqb. cbv iota.
    rewrite py_slice_from_start by lia.
    destruct (lines_of self) as [|x l]; reflexivity.
  - unfold last_line, lines. simpl Z.eqb. cbv iota.
    destruct (lines_of self) as [|x l] eqn:E; [reflexivity|].
    rewrite (py_slice_last EmptyString) by discriminate. reflexivity.
  - intros Hempty. unfold first_line, last_line, lines, lines_of.
    rewrite Hempty. repeat split; reflexivity.
Qed.

(** X9. [--noempty] leaves the lines that hold something besides white
    space, and nothing is left for a second [--noempty] to do. *)
Theorem noempty_drops_blank_lines (self : CommandProcessor) :
  exists self' : CommandProcessor,
    remove_empty_lines self [] = ok self'
    /\ lines_of self'
       = filter (fun line => negb (String.eqb (strip line) EmptyString)) (lines_of self)
    /\ remove_empty_lines self' [] = ok self'.
Proof.
  eexists. split; [reflexivity|].
  assert (Hlines :
    lines_of (set_current_output self
                (join NL (filter (fun line => negb (String.eqb (strip line) EmptyString))
                                 (lines_of self))))
    = filter (fun line => negb (String.eqb (strip line) EmptyString)) (lines_of self)).
  { unfold lines_of at 1. simpl current_output. apply splitlines_join.
    - apply Forall_forall. intros line Hin. apply filter_In in Hin as [Hin _].
      pose proof (splitlines_all_one_line (current_output self)) as H.
      rewrite Forall_forall in H. apply H. exact Hin.
    - destruct (last_default_or_in
                  (filter (fun line => negb (String.eqb (strip line) EmptyString))
                          (lines_of self)) "x") as [-> | Hin]; [discriminate|].
      apply filter_In in Hin as [_ Hne]. intros E. rewrite E in Hne. discriminate Hne. }
  split; [exact Hlines|].
  unfold remove_empty_lines. rewrite Hlines, filter_twice. reflexivity.
Qed.

(** X10. For a pattern that compiles, [--filter] keeps the lines the
    pattern is found in and [--filter-out] the other lines: every line of
    the buffer goes to exactly one of the two. *)
Theorem filter_and_filter_out_split (self : CommandProcessor) (pattern : string)
    (p : Pattern) :
  re_compile pattern = Return p ->
  let found := fun line => is_some (re_search p line) in
  filter_lines self [VStr pattern]
  = ok (set_current_output self (join NL (filter found (lines_of self))))
  /\ remove_lines_regex self [VStr pattern]
     = ok (set_current_output self
             (join NL (filter (fun line => negb (found line)) (lines_of self))))
  /\ Permutation (filter found (lines_of self)
                  ++ filter (fun line => negb (found line)) (lines_of self))
                 (lines_of self).
Proof.
  intros Hp found. unfold filter_lines, remove_lines_regex, filter_by. rewrite Hp.
  assert (Hkeep : forall (keep : bool) (l : list string),
             filter (fun line => Bool.eqb (is_some (re_search p line)) keep) l
             = filter (fun line => if keep then found line else negb (found line)) l).
  { intros keep l. apply filter_ext. intros line. subst found. cbv beta.
    destruct (is_some (re_search p line)), keep; reflexivity. }
  split; [|split].
  - rewrite (Hkeep true). reflexivity.
  - rewrite (Hkeep false). reflexivity.
  - apply filter_split_perm.
Qed.

(** X11. [--reverse] turns the order of the lines round, and a second
    [--reverse] gives the lines back, when neither the first nor the last
    line is empty. *)
Theorem reverse_twice (self : CommandProcessor) :
  hd "x" (lines_of self) <> EmptyString ->
  last (lines_of self) "x" <> EmptyString ->
  exists self' self'' : CommandProcessor,
    reverse_lines self [] = ok self'
    /\ lines_of self' = rev (lines_of self)
    /\ reverse_lines self' [] = ok self''
    /\ lines_of self'' = lines_of self.
Proof.
  intros Hhd Hlast.
  pose proof (splitlines_all_one_line (current_output self)) as Hall.
  fold (lines_of self) in Hall.
  assert (H1 : lines_of (set_current_output self (join NL (rev (lines_of self))))
               = rev (lines_of self)).
  { unfold lines_of at 1. simpl current_output. apply splitlines_join.
    - apply Forall_rev. exact Hall.
    - destruct (lines_of self) as [|x l]; [discriminate|].
      simpl rev. rewrite last_last. exact Hhd. }
  do 2 eexists. split; [reflexivity|]. split; [exact H1|].
  split; [reflexivity|].
  rewrite H1, rev_involutive. unfold lines_of at 1. simpl current_output.
  apply splitlines_join; assumption.
Qed.

End SelectionFacts.

Section SelectionRuns.
Import TestDoubles.

Let five : CommandProcessor (os := mem_os) :=
  set_current_output (fresh linux_host empty_fs) (join NL ["a"; "b"; "c"; "d"; "e"]).

Lemma first_last_as_include_witness :
  first_line five [] = lines five [VInt 0; VInt 1]
  /\ last_line five [] = lines five [VInt (-1); VInt 0]
  /\ first_line (fresh linux_host empty_fs) []
     = ok (set_current_output (fresh linux_host empty_fs) EmptyString)
  /\ lines (fresh linux_host empty_fs) [VInt 0; VInt 1]
     = ok (set_current_output (fresh linux_host empty_fs) EmptyString)
  /\ last_line (fresh linux_host empty_fs) []
     = ok (set_current_output (fresh linux_host empty_fs) EmptyString)
  /\ lines (fresh linux_host empty_fs) [VInt (-1); VInt 0]
     = ok (set_current_output (fresh linux_host empty_fs) EmptyString).
Proof.
  split; [exact (proj1 (first_last_as_include five))|].
  split; [exact (proj1 (proj2 (first_last_as_include five)))|].
  apply (proj2 (proj2 (first_last_as_include (fresh linux_host empty_fs)))).
  reflexivity.
Defined.

Lemma include_exclude_partition_witness :
  exists before inside after : list string,
    lines_of five = before ++ inside ++ after
    /\ List.length before = Nat.min (Z.to_nat 1) (List.length (lines_of five))
    /\ List.length (before ++ inside)
       = Nat.min (Z.to_nat 3) (List.length (lines_of five))
    /\ lines five [VInt 1; VInt 3] = ok (set_current_output five (join NL inside))
    /\ remove_lines five [VInt 1; VInt 3]
       = ok (set_current_output five (join NL (before ++ after))).
Proof. apply (include_exclude_partition five (a := 1) (b := 3)); [lia | discriminate]. Defined.

Lemma include_exclude_to_end_witness :
  lines five [VInt 1; VInt 0]
  = ok (set_current_output five (join NL ["b"; "c"; "d"; "e"]))
  /\ remove_lines five [VInt 1; VInt 0] = ok (set_current_output five "a").
Proof. apply (include_exclude_to_end five (a := 1)). lia. Defined.


Lemma filter_and_filter_out_split_witness :
  filter_lines (re := literal_re) five [VStr "a"] = ok (set_current_output five "a")
  /\ remove_lines_regex (re := literal_re) five [VStr "a"]
     = ok (set_current_output five (join NL ["b"; "c"; "d"; "e"])).
Proof.
  destruct (filter_and_filter_out_split (re := literal_re) five "a" (p := "a") eq_refl)
    as (Hin & Hout & _).
  split; [exact Hin | exact Hout].
Defined.

Lemma reverse_twice_witness :
  exists self' self'' : CommandProcessor (os := mem_os),
    reverse_lines five [] = ok self'
    /\ lines_of self' = rev (lines_of five)
    /\ reverse_lines self' [] = ok self''
    /\ lines_of self'' = lines_of five.
Proof. apply (reverse_twice five); discriminate. Defined.

End SelectionRuns.

(** ** Lower case *)

Lemma lower_char_boundary (c : ascii) :
  is_linebreak (lower_char c) = is_linebreak c
  /\ Ascii.eqb (lower_char c) CR = Ascii.eqb c CR
  /\ Ascii.eqb (lower_char c) LF = Ascii.eqb c LF
  /\ lower_char (lower_char c) = lower_char c.
Proof.
  destruct c as [[] [] [] [] [] [] [] []]; repeat split; reflexivity.
Qed.

Lemma lower_twice (s : string) : lower (lower s) = lower s.
Proof.
  induction s as [|c s IH]; simpl; [reflexivity|].
  destruct (lower_char_boundary c) as (_ & _ & _ & ->). rewrite IH. reflexivity.
Qed.

Lemma splitlines_lower_fuel (n : nat) (s : string) :
  String.length s <= n -> splitlines (lower s) = map lower (splitlines s).
Proof.
  revert s. induction n as [|n IH]; intros s Hlen.
  - destruct s; [reflexivity | simpl in Hlen; lia].
  - destruct s as [|c s]; [reflexivity|]. simpl in Hlen.
    destruct (lower_char_boundary c) as (Hb & Hcr & _ & _).
    cbn [lower splitlines]. rewrite Hb.
    destruct (is_linebreak c).
    + destruct s as [|c' s']; [reflexivity|].
      destruct (lower_char_boundary c') as (_ & _ & Hlf & _).
      cbn [lower]. rewrite Hcr, Hlf.
      destruct (Ascii.eqb c CR && Ascii.eqb c' LF).
      * cbn [map]. rewrite IH by (simpl in Hlen; lia). reflexivity.
      * change (String (lower_char c') (lower s')) with (lower (String c' s')).
        cbn [map]. rewrite IH by (simpl in Hlen |- *; lia). reflexivity.
    + rewrite IH by lia.
      destruct (splitlines s); reflexivity.
Qed.

Section LowerFacts.
Context {os : OsModule}.

(** X12. [--lower] keeps the lines apart: the new lines are the old ones in
    lower case, one for one, and a second [--lower] changes nothing. *)
Theorem lower_keeps_lines (self : CommandProcessor) :
  exists self' : CommandProcessor,
    to_lower self [] = ok self'
    /\ lines_of self' = map lower (lines_of self)
    /\ to_lower self' [] = ok self'.
Proof.
  eexists. split; [reflexivity|]. split.
  - unfold lines_of. simpl current_output.
    eapply splitlines_lower_fuel. apply Nat.le_refl.
  - unfold to_lower. simpl current_output. rewrite lower_twice. reflexivity.
Qed.

End LowerFacts.

(** ** The environment and the output modes *)

Lemma split_once_first (key value : string) (sep : ascii) :
  has_char sep key = false ->
  split_once (key ++ String sep value) sep = (key, Some value).
Proof.
  induction key as [|c key IH]; simpl.
  - intros _. rewrite Ascii.eqb_refl. reflexivity.
  - intros H. apply orb_false_iff in H as [Hc Hk].
    rewrite Hc, (IH Hk). reflexivity.
Qed.

Lemma split_once_found (s : string) (sep : ascii) :
  has_char sep s = true -> exists key value, split_once s sep = (key, Some value).
Proof.
  induction s as [|c s IH]; simpl; [discriminate|].
  destruct (Ascii.eqb c sep); simpl.
  - intros _. eauto.
  - intros H. destruct (IH H) as (key & value & ->). eauto.
Qed.

Lemma dict_set_same (d : list (string * string)) (key value : string) :
  environ_get (dict_set d key value) key = Some value.
Proof.
  induction d as [|[k v] d IH]; simpl.
  - rewrite String.eqb_refl. reflexivity.
  - destruct (String.eqb k key) eqn:E; simpl.
    + rewrite String.eqb_sym, E. reflexivity.
    + rewrite String.eqb_sym, E. exact IH.
Qed.

Lemma dict_set_other (d : list (string * string)) (key value k : string) :
  k <> key -> environ_get (dict_set d key value) k = environ_get d k.
Proof.
  intros Hne. induction d as [|[k' v] d IH]; simpl.
  - apply String.eqb_neq in Hne. rewrite Hne. reflexivity.
  - destruct (String.eqb k' key) eqn:E; simpl.
    + apply String.eqb_eq in E. subst k'.
      apply String.eqb_neq in Hne. rewrite Hne. reflexivity.
    + rewrite IH. reflexivity.
Qed.

Section SettingsFacts.
Context {os : OsModule}.

(** X13. [--env KEY=VALUE] binds the key to the value, which is everything
    after the first equals sign, and leaves the other keys and the buffer
    alone; a parameter without an equals sign is refused with
    [InvalidEnvValue], and the handler never raises on a string. *)
Theorem set_env_binds (self : CommandProcessor) :
  (forall key value : string,
      has_char "=" key = false ->
      exists self' : CommandProcessor,
        set_env self [VStr (key ++ "=" ++ value)] = ok self'
        /\ environ_get (env self') key = Some value
        /\ (forall k : string, k <> key -> environ_get (env self') k = environ_get (env self) k)
        /\ current_output self' = current_output self)
  /\ (forall text : string,
        has_char "=" text = false ->
        set_env self [VStr text] = status self InvalidEnvValue)
  /\ (forall text : string, exists r : PyRet, snd (set_env self [VStr text]) = Return r).
Proof.
  split; [|split].
  - intros key value Hkey. unfold set_env.
    rewrite has_char_app. simpl (has_char "=" ("=" ++ value)). rewrite orb_true_r.
    change ("=" ++ value)%string with (String "=" value).
    rewrite split_once_first by exact Hkey.
    eexists. split; [reflexivity|]. simpl env.
    split; [apply dict_set_same|]. split; [|reflexivity].
    intros k Hk. apply dict_set_other. exact Hk.
  - intros text H. unfold set_env. rewrite H. reflexivity.
  - intros text. unfold set_env.
    destruct (has_char "=" text) eqn:E.
    + destruct (@split_once_found text "=" E) as (key & value & ->). eexists. reflexivity.
    + eexists. reflexivity.
Qed.

(** X14. [--stdout] and [--stderr] return [Ok] whatever the parameter is.
    A parameter that is one of the three console modes becomes the mode of
    the stream, with no path; any other parameter, the word [write]
    included, becomes the path of the stream, with the mode [write].  So
    the mode and the path of the stream fit together afterwards; the two
    settings do not touch each other, so that their order does not matter;
    and a new processor starts with fitting modes. *)
Theorem output_modes_fit (self : CommandProcessor) (out err : string) :
  let self1 := fst (set_stdout self [VStr out]) in
  let self2 := fst (set_stderr self [VStr err]) in
  (In out console_modes ->
     set_stdout self [VStr out] = ok (set_stdout_fields self out None))
  /\ (~ In out console_modes ->
      set_stdout self [VStr out]
      = ok (set_stdout_fields self CommandOutputMode.Write (Some out)))
  /\ (In err console_modes ->
      set_stderr self [VStr err] = ok (set_stderr_fields self err None))
  /\ (~ In err console_modes ->
      set_stderr self [VStr err]
      = ok (set_stderr_fields self CommandOutputMode.Write (Some err)))
  /\ ~ In CommandOutputMode.Write console_modes
  /\ mode_fits (stdout_mode self1) (stdout_path self1) = true
  /\ mode_fits (stderr_mode self2) (stderr_path self2) = true
  /\ fst (set_stderr self1 [VStr err]) = fst (set_stdout self2 [VStr out])
  /\ (forall (cwd : string) (h : Host) (f : FS),
        let new := CommandProcessor_init cwd h f in
        mode_fits (stdout_mode new) (stdout_path new) = true
        /\ mode_fits (stderr_mode new) (stderr_path new) = true).
Proof.
  intros self1 self2. subst self1 self2. unfold set_stdout, set_stderr.
  split; [|split; [|split; [|split; [|split; [|split; [|split; [|split]]]]]]].
  - intros H. apply str_in_In in H. rewrite H. reflexivity.
  - intros H. apply str_in_not_In in H. rewrite H. reflexivity.
  - intros H. apply str_in_In in H. rewrite H. reflexivity.
  - intros H. apply str_in_not_In in H. rewrite H. reflexivity.
  - intros [H | [H | [H | []]]]; discriminate H.
  - destruct (str_in out console_modes) eqn:E; unfold ok, mode_fits;
      cbn [fst stdout_mode stdout_path set_stdout_fields];
      [rewrite E; reflexivity | reflexivity].
  - destruct (str_in err console_modes) eqn:E; unfold ok, mode_fits;
      cbn [fst stderr_mode stderr_path set_stderr_fields];
      [rewrite E; reflexivity | reflexivity].
  - destruct (str_in out console_modes), (str_in err console_modes); reflexivity.
  - intros cwd h f. split; reflexivity.
Qed.

End SettingsFacts.

Section SettingsRuns.
Import TestDoubles.

Lemma set_env_binds_witness :
  let self := fresh linux_host empty_fs in
  (exists self' : CommandProcessor (os := mem_os),
      set_env self [VStr "CFLAGS=-O2 -DX=1"] = ok self'
      /\ environ_get (env self') "CFLAGS" = Some "-O2 -DX=1"
      /\ (forall k : string, k <> "CFLAGS" -> environ_get (env self') k = environ_get (env self) k)
      /\ current_output self' = current_output self)
  /\ set_env self [VStr "CFLAGS"] = status self InvalidEnvValue.
Proof.
  intros self. split.
  - apply (proj1 (set_env_binds self) "CFLAGS" "-O2 -DX=1"). reflexivity.
  - apply (proj1 (proj2 (set_env_binds self)) "CFLAGS"). reflexivity.
Defined.

(** [--stdout print] with [--stderr log.txt], and [--stdout write] with
    [--stderr ignore]. *)
Lemma output_modes_fit_witness :
  let self := fresh linux_host empty_fs in
  set_stdout self [VStr "print"] = ok (set_stdout_fields self "print" None)
  /\ set_stderr self [VStr "log.txt"] = ok (set_stderr_fields self "write" (Some "log.txt"))
  /\ set_stdout self [VStr "write"] = ok (set_stdout_fields self "write" (Some "write"))
  /\ set_stderr self [VStr "ignore"] = ok (set_stderr_fields self "ignore" None).
Proof.
  intros self.
  assert (Hnot : forall word : string,
             String.eqb word "process" = false -> String.eqb word "print" = false ->
             String.eqb word "ignore" = false -> ~ In word console_modes).
  { intros word H1 H2 H3 [H | [H | [H | []]]]; subst word; discriminate. }
  split; [|split; [|split]].
  - apply (proj1 (output_modes_fit self "print" "log.txt")).
    right. left. reflexivity.
  - apply (proj1 (proj2 (proj2 (proj2 (output_modes_fit self "print" "log.txt"))))).
    apply Hnot; reflexivity.
  - apply (proj1 (proj2 (output_modes_fit self "write" "ignore"))).
    apply Hnot; reflexivity.
  - apply (proj1 (proj2 (proj2 (output_modes_fit self "write" "ignore")))).
    right. right. left. reflexivity.
Defined.

End SettingsRuns.

(** ** Processes *)

Section ProcessFacts.
Context {os : OsModule}.
Variable exec_cmd :
  CommandProcessor -> Value -> list Value -> FS * Outcome (CommandResults.t * string).



(** X16. [--exec] adds what the command printed after the lines of the
    buffer and returns the status of the command, or [Ok] for any status
    when errors are not to stop the run. *)
Theorem run_command_adds_output (self : CommandProcessor) (command : Value)
    (args : list Value) (fs' : FS) (result : CommandResults.t) (output : string) :
  exec_cmd self command args = (fs', Return (result, output)) ->
  ends_with_linebreak (current_output self) = false ->
  exists self' : CommandProcessor,
    run_command exec_cmd self (command :: args)
    = (self', Return (Status (if stop_on_error self then result else Ok)))
    /\ lines_of self' = lines_of self ++ splitlines output
    /\ fs self' = fs'.
Proof.
  intros Hexec Hend. unfold run_command. rewrite Hexec.
  assert (Hstop : forall text,
             stop_on_error (set_current_output (start_line (set_fs self fs')) text)
             = stop_on_error self).
  { intros text. unfold start_line. simpl. destruct (negb _); reflexivity. }
  assert (Hfs : forall text,
             fs (set_current_output (start_line (set_fs self fs')) text) = fs').
  { intros text. unfold start_line. simpl. destruct (negb _); reflexivity. }
  cbv zeta. rewrite Hstop.
  eexists. split.
  - destruct (stop_on_error self); reflexivity.
  - split; [|apply Hfs].
    unfold lines_of at 1. simpl current_output.
    rewrite (start_line_lines (set_fs self fs') output) by exact Hend.
    reflexivity.
Qed.

End ProcessFacts.

Section ProcessRuns.
Import TestDoubles Processes.

Let words : CommandProcessor (os := mem_os) :=
  set_current_output (fresh linux_host empty_fs) (join NL ["a"; "b"]).


Lemma run_command_adds_output_witness :
  exists self' : CommandProcessor (os := mem_os),
    run_command echo_only words [VStr "echo"; VStr "c"; VStr "d"]
    = (self', Return (Status Ok))
    /\ lines_of self' = lines_of words ++ splitlines "c d"
    /\ fs self' = empty_fs.
Proof.
  apply (run_command_adds_output echo_only words (VStr "echo") [VStr "c"; VStr "d"]
           (fs' := empty_fs) (result := Ok) (output := "c d")); reflexivity.
Defined.

End ProcessRuns.

(** ** Flags and the registry *)

Lemma append_empty_r (s : string) : (s ++ EmptyString)%string = s.
Proof.
  induction s as [|c s IH]; simpl; [reflexivity|]. rewrite IH. reflexivity.
Qed.

(** X17. A command is named by its long flag alone, by its long flag with
    [=value] after it, which puts the value at the head of the argument
    list, or by its short flag.  A token that goes on after the long flag
    with anything but an equals sign does not name the command. *)
Theorem flag_forms (arg_long : string) (arg_short : option string) (rest : list string) :
  match_flag arg_long rest arg_long arg_short = Some rest
  /\ (forall value : string,
        match_flag (arg_long ++ "=" ++ value) rest arg_long arg_short
        = Some (value :: rest))
  /\ (forall (c : ascii) (tail : string),
        c <> "="%char ->
        match_flag (arg_long ++ String c tail) rest arg_long arg_short = None)
  /\ (forall short : string,
        arg_short = Some short -> startswith short arg_long = false ->
        match_flag short rest arg_long arg_short = Some rest).
Proof.
  unfold match_flag. split; [|split; [|split]].
  - pose proof (startswith_app arg_long EmptyString) as Hs.
    pose proof (removeprefix_app arg_long EmptyString) as Hr.
    rewrite append_empty_r in Hs, Hr. rewrite Hs, Hr. reflexivity.
  - intros value. rewrite startswith_app, removeprefix_app.
    rewrite (startswith_app "=" value), (removeprefix_app "=" value). reflexivity.
  - intros c tail Hc. rewrite startswith_app, removeprefix_app.
    simpl. apply Ascii.eqb_neq in Hc. rewrite Hc. reflexivity.
  - intros short -> Hs. rewrite Hs, String.eqb_refl. reflexivity.
Qed.

Lemma flag_forms_witness :
  match_flag "--include" ["1"; "0"] "--in" (Some "-i") = None
  /\ match_flag "-i" ["x"] "--in" (Some "-i") = Some ["x"].
Proof.
  destruct (flag_forms "--in" (Some "-i") ["1"; "0"])
    as (_ & _ & Hnot & _).
  destruct (flag_forms "--in" (Some "-i") ["x"])
    as (_ & _ & _ & Hshort).
  split.
  - apply (Hnot "c"%char "lude"). discriminate.
  - apply (Hshort "-i"); reflexivity.
Defined.

Section RegistryFacts.
Context {os : OsModule} {re : ReModule} {num : NumModule}.
Variable extern : string -> Handler.

(** X18. In the registry every long flag, alone or with [=value], and every
    short flag reaches the command it is declared for: no command that
    stands earlier takes it, although [--in] begins [--include] and
    [--filter] begins [--filter-out]. *)
Theorem registry_flags_reach_their_command (command : Command) (rest : list string) :
  In command (registry extern) ->
  first_match (registry extern) (arg_long command) rest = Some (command, rest)
  /\ (forall value : string,
        first_match (registry extern) (arg_long command ++ "=" ++ value) rest
        = Some (command, value :: rest))
  /\ (forall short : string,
        arg_short command = Some short ->
        first_match (registry extern) short rest = Some (command, rest)).
Proof.
  intros Hin. unfold registry in Hin. cbn [In] in Hin.
  repeat (destruct Hin as [<- | Hin];
          [split; [reflexivity | split; [intros value; destruct value; reflexivity
                                        | intros short [= <-]; reflexivity]]|]).
  contradiction.
Qed.

End RegistryFacts.

Section RegistryRuns.
Import TestDoubles.

Lemma registry_flags_reach_their_command_witness :
  let include :=
    Command_init (os := mem_os) "--include" None ["FROM"; "TO"] (-1) None
                 (Some int_converter) lines in
  first_match test_registry "--include" ["1"; "0"] = Some (include, ["1"; "0"])
  /\ first_match test_registry "--include=1" ["0"] = Some (include, ["1"; "0"]).
Proof.
  intros include.
  assert (Hin : In include test_registry).
  { unfold test_registry, registry. do 18 right. left. reflexivity. }
  destruct (@registry_flags_reach_their_command mem_os literal_re no_floats
              (@idle mem_os) include ["1"; "0"] Hin) as (Hlong & _).
  destruct (@registry_flags_reach_their_command mem_os literal_re no_floats
              (@idle mem_os) include ["0"] Hin) as (_ & Hvalue & _).
  split; [exact Hlong | exact (Hvalue "1")].
Defined.

End RegistryRuns.

(** ** Parameters and the loop *)

Lemma list_index_split (x : string) (l : list string) :
  In x l ->
  l = firstn (list_index x l) l ++ x :: skipn (S (list_index x l)) l
  /\ ~ In x (firstn (list_index x l) l)
  /\ list_index x l < List.length l.
Proof.
  induction l as [|y l IH]; [intros []|]. intros Hin. cbn [list_index].
  destruct (String.eqb y x) eqn:E.
  - apply String.eqb_eq in E. subst y. simpl. repeat split; [tauto | lia].
  - destruct Hin as [-> | Hin]; [rewrite String.eqb_refl in E; discriminate|].
    destruct (IH Hin) as (Hl & Hn & Hlt).
    cbn [firstn skipn app]. repeat split.
    + f_equal. exact Hl.
    + intros [-> | H]; [rewrite String.eqb_refl in E; discriminate | exact (Hn H)].
    + simpl. lia.
Qed.

Lemma skipn_length_firstn {A : Type} (n : nat) (l : list A) :
  skipn (List.length (firstn n l)) l = skipn n l.
Proof.
  rewrite length_firstn.
  destruct (Nat.le_gt_cases n (List.length l)) as [H | H].
  - rewrite Nat.min_l by exact H. reflexivity.
  - rewrite Nat.min_r by lia. rewrite skipn_all, skipn_all2 by lia. reflexivity.
Qed.

Lemma converted_params (convert : option (string -> Outcome Value))
    (captured left : list string) (params : list Value) (rest : list string) :
  match convert with
  | Some convert => converted <- mapM convert captured ;; Return (converted, left)
  | None => Return (map VStr captured, left)
  end = Return (params, rest) ->
  rest = left
  /\ match convert with
     | Some convert => mapM convert captured = Return params
     | None => params = map VStr captured
     end.
Proof.
  destruct convert as [convert|].
  - destruct (mapM convert captured) as [converted|]; simpl; [|discriminate].
    intros [= <- <-]. auto.
  - intros [= <- <-]. auto.
Qed.

Section LoopFacts.
Context {os : OsModule}.

(** X19. Capturing parameters loses no token: the argument list is the
    captured tokens, then the terminator if the command has one, then the
    list left for the next stage; the terminator is not among the captured
    tokens; and the parameters handed over are the captured tokens,
    converted if the command has a converter. *)
Theorem params_conserve_tokens (command : Command) (args : list string)
    (params : list Value) (rest : list string) :
  parse_command_params command args = Return (params, rest) ->
  exists captured : list string,
    args = captured
           ++ match param_until command with
              | Some (String c u) => [String c u]
              | _ => []
              end
           ++ rest
    /\ (forall (c : ascii) (u : string),
          param_until command = Some (String c u) -> ~ In (String c u) captured)
    /\ match param_convert command with
       | Some convert => mapM convert captured = Return params
       | None => params = map VStr captured
       end.
Proof.
  unfold parse_command_params.
  set (taken := if (0 <=? param_count command)%Z
                then firstn (Z.to_nat (param_count command)) args else args).
  assert (Htaken : exists tail, args = taken ++ tail
                                /\ skipn (List.length taken) args = tail).
  { subst taken. destruct (0 <=? param_count command)%Z.
    - exists (skipn (Z.to_nat (param_count command)) args).
      rewrite firstn_skipn. split; [reflexivity | apply skipn_length_firstn].
    - exists []. rewrite app_nil_r, skipn_all. auto. }
  destruct Htaken as (tail & Hargs & Htail). clearbody taken.
  destruct (param_until command) as [[|c u]|] eqn:Hu; cbn [truthy andb].
  - (* an empty terminator counts as none *)
    intros H. apply converted_params in H as [-> Hc].
    exists taken. rewrite Htail. repeat split; [exact Hargs | discriminate | exact Hc].
  - destruct (str_in (String c u) taken) eqn:Hin; cbn [negb]; [|discriminate].
    apply str_in_In in Hin.
    destruct (list_index_split _ _ Hin) as (Hsplit & Hnot & Hlt).
    intros H. apply converted_params in H as [-> Hc].
    exists (firstn (list_index (String c u) taken) taken).
    split; [|split; [|exact Hc]].
    + set (cap := firstn (list_index (String c u) taken) taken) in *.
      set (after := skipn (S (list_index (String c u) taken)) taken) in *.
      assert (Hall : args = cap ++ String c u :: (after ++ tail)).
      { rewrite Hargs, Hsplit, <- app_assoc. reflexivity. }
      assert (Hrest : skipn (List.length cap + 1) args = after ++ tail).
      { rewrite Hall. apply skipn_length_app. }
      rewrite Hrest. exact Hall.
    + intros c' u' [= <- <-]. exact Hnot.
  - intros H. apply converted_params in H as [-> Hc].
    exists taken. rewrite Htail. repeat split; [exact Hargs | discriminate | exact Hc].
Qed.

Variable registry : list Command.

Lemma args_weight_positive (arg : string) (rest : list string) :
  0 < args_weight (arg :: rest).
Proof. unfold args_weight. simpl. lia. Qed.

Lemma parse_loop_returns (fuel : nat) :
  forall (args : list string) (self : CommandProcessor) (result : PyRet) (calls : Trace),
    args_weight args <= fuel ->
    exists (final : Outcome PyRet) (self' : CommandProcessor) (calls' : Trace),
      parse_loop registry fuel args self result calls = Done final self' calls'
      /\ List.length calls' <= List.length calls + args_weight args.
Proof.
  induction fuel as [|fuel IH]; intros args self result calls Hw.
  - destruct args as [|a l]; [|pose proof (args_weight_positive a l); lia].
    simpl. eauto 6 with arith.
  - destruct args as [|a l]; [simpl; eauto 6 with arith|].
    pose proof (args_weight_positive a l) as Hpos.
    cbn [parse_loop].
    destruct (dispatch registry (a :: l) self) as [| e | c ps rest s' [r|e]] eqn:Hd.
    + do 3 eexists. split; [reflexivity | lia].
    + unfold on_exception. destruct (PyExn_eqb e ParameterCountError);
        do 3 eexists; (split; [reflexivity | lia]).
    + apply dispatch_weight in Hd.
      assert (Hlen : List.length (calls ++ [(arg_long c, ps)])
                     <= List.length calls + args_weight (a :: l))
        by (rewrite length_app; simpl; lia).
      destruct (PyRet_is r UnknownArgument).
      * destruct rest; do 3 eexists; (split; [reflexivity | exact Hlen]).
      * destruct (negb (PyRet_is r Ok) && stop_on_error s').
        -- destruct (forallb is_VStr ps); do 3 eexists; (split; [reflexivity | exact Hlen]).
        -- destruct (IH rest s' r (calls ++ [(arg_long c, ps)]) ltac:(lia))
             as (final & self' & calls' & Hrun & Hcalls).
           exists final, self', calls'. split; [exact Hrun|].
           rewrite length_app in Hcalls. simpl in Hcalls. lia.
    + assert (Hlen : List.length (calls ++ [(arg_long c, ps)])
                     <= List.length calls + args_weight (a :: l))
        by (rewrite length_app; simpl; lia).
      unfold on_exception. destruct (PyExn_eqb e ParameterCountError);
        do 3 eexists; (split; [reflexivity | exact Hlen]).
Qed.

(** X20. [parse_commands] always comes to an end, with a result or an
    exception, for every registry and every argument list, and it calls no
    more handlers than the arguments have characters and tokens together:
    each stage takes at least a character off the argument list. *)
Theorem parse_commands_returns (args : list string) (self : CommandProcessor) :
  exists (final : Outcome PyRet) (self' : CommandProcessor) (calls : Trace),
    parse_commands registry args self = Done final self' calls
    /\ List.length calls <= args_weight args.
Proof.
  destruct (parse_loop_returns (fuel := args_weight args) args self (Status NoCommands) []
              (Nat.le_refl _)) as (final & self' & calls & Hrun & Hlen).
  exists final, self', calls. split; [exact Hrun | exact Hlen].
Qed.

(** X21. When every stage lets the loop go on until the arguments are used
    up, the run returns what the last stage returned, with the processor
    that stage left and a call for each stage; without arguments that is
    [NoCommands] and no call. *)
Theorem run_to_completion (args : list string) (self : CommandProcessor)
    (s : LoopState) :
  reaches registry (initial args self) s ->
  ls_args s = [] ->
  parse_commands registry args self = Done (Return (ls_result s)) (ls_self s) (ls_calls s).
Proof.
  intros Hr Hdone.
  destruct (run_from_reaches Hr (fuel := args_weight args)) as (fuel' & _ & Heq);
    [simpl; lia|].
  unfold parse_commands.
  change (run_from registry (args_weight args) (initial args self)
          = Done (Return (ls_result s)) (ls_self s) (ls_calls s)).
  rewrite Heq. unfold run_from. rewrite Hdone. destruct fuel'; reflexivity.
Qed.

(** X22. A stage whose handler returns anything but [Ok] while
    [stop_on_error] is set ends the run: the run returns what the handler
    returned, [None] included, and the arguments after the stage are never
    looked at.  (Were a parameter of the stage not a string, writing the
    message would raise [TypeError] instead.) *)
Theorem failed_stage_halts_run (args0 : list string) (self0 : CommandProcessor)
    (arg : string) (rest : list string) (self : CommandProcessor) (result : PyRet)
    (calls : Trace) (command : Command) (params : list Value) (rest' : list string)
    (self' : CommandProcessor) (r : PyRet) :
  reaches registry (initial args0 self0)
    {| ls_args := arg :: rest; ls_self := self; ls_result := result; ls_calls := calls |} ->
  dispatch registry (arg :: rest) self = Invoked command params rest' self' (Return r) ->
  PyRet_is r Ok = false ->
  PyRet_is r UnknownArgument = false ->
  stop_on_error self' = true ->
  parse_commands registry args0 self0
  = Done (if forallb is_VStr params then Return r else Raise TypeError) self'
         (calls ++ [(arg_long command, params)]).
Proof.
  intros Hr Hd Hok Hunknown Hstop.
  apply (parse_commands_at Hr). intros fuel. cbn [parse_loop].
  rewrite Hd, Hunknown, Hok, Hstop. cbn [negb andb].
  destruct (forallb is_VStr params); reflexivity.
Qed.

End LoopFacts.

Section LoopRuns.
Import TestDoubles.

Let start : CommandProcessor (os := mem_os) := fresh linux_host empty_fs.

Ltac run_stage :=
  eapply stage_intro;
  [ simpl; discriminate | reflexivity | reflexivity | reflexivity | reflexivity ].

(** The terminator of [--exec] with a limit of four tokens. *)
Lemma params_conserve_tokens_witness :
  let command :=
    Command_init "--exec" (Some "-e") ["COMMAND"; "ARGS..."] 4 (Some ";") None
                 (@idle mem_os "run_command") in
  exists captured : list string,
    ["make"; "-j"; ";"; "--first"; ";"] = captured ++ [";"] ++ ["--first"; ";"]
    /\ (forall (c : ascii) (u : string),
          Some ";" = Some (String c u) -> ~ In (String c u) captured)
    /\ [VStr "make"; VStr "-j"] = map VStr captured.
Proof.
  intros command.
  apply (params_conserve_tokens command ["make"; "-j"; ";"; "--first"; ";"]
           (params := [VStr "make"; VStr "-j"]) (rest := ["--first"; ";"])).
  reflexivity.
Defined.

(** [--in b --in a --sort asc --first] *)
Lemma run_to_completion_witness :
  run ["--in"; "b"; "--in"; "a"; "--sort"; "asc"; "--first"] start
  = Done (Return (Status Ok)) (set_current_output start "a")
         [("--in", [VStr "b"]); ("--in", [VStr "a"]); ("--sort", [VStr "asc"]);
          ("--first", [])].
Proof.
  unfold run.
  apply (run_to_completion (registry := test_registry)
           (s := {| ls_args := []; ls_self := set_current_output start "a";
                    ls_result := Status Ok;
                    ls_calls := [("--in", [VStr "b"]); ("--in", [VStr "a"]);
                                 ("--sort", [VStr "asc"]); ("--first", [])] |}));
    [|reflexivity].
  eapply reaches_next with
    (s2 := {| ls_args := ["--in"; "a"; "--sort"; "asc"; "--first"];
              ls_self := set_current_output start "b";
              ls_result := Status Ok;
              ls_calls := [("--in", [VStr "b"])] |}); [run_stage|].
  eapply reaches_next with
    (s2 := {| ls_args := ["--sort"; "asc"; "--first"];
              ls_self := set_current_output start (join NL ["b"; "a"]);
              ls_result := Status Ok;
              ls_calls := [("--in", [VStr "b"]); ("--in", [VStr "a"])] |}); [run_stage|].
  eapply reaches_next with
    (s2 := {| ls_args := ["--first"];
              ls_self := set_current_output start (join NL ["a"; "b"]);
              ls_result := Status Ok;
              ls_calls := [("--in", [VStr "b"]); ("--in", [VStr "a"]);
                           ("--sort", [VStr "asc"])] |}); [run_stage|].
  eapply reaches_next; [| apply reaches_here]; run_stage.
Defined.

(** [--in x --filter ( --first]: the pattern does not compile. *)
Lemma failed_stage_halts_run_witness :
  run ["--in"; "x"; "--filter"; "("; "--first"] start
  = Done (Return (Status RegexError)) (set_current_output start "x")
         [("--in", [VStr "x"]); ("--filter", [VStr "("])].
Proof.
  unfold run.
  apply (failed_stage_halts_run (registry := test_registry)
           (self := set_current_output start "x")
           (self' := set_current_output start "x")
           (arg := "--filter") (rest := ["("; "--first"]) (result := Status Ok)
           (calls := [("--in", [VStr "x"])])
           (command := Command_init "--filter" (Some "-f") ["REGEX"] (-1) None None
                                    (filter_lines (re := literal_re)))
           (params := [VStr "("]) (rest' := ["--first"]) (r := Status RegexError)).
  - eapply reaches_next; [| apply reaches_here]; run_stage.
  - reflexivity.
  - reflexivity.
  - reflexivity.
  - reflexivity.
Defined.

End LoopRuns.

Section EnsureDirsFacts.
Context {os : OsModule} {re : ReModule} {num : NumModule}.
Variable extern : string -> Handler.

(** X23. [--ensure-dirs] in a run: when every line of the buffer is blank
    or names something that exists, the handler returns [None]; with
    [stop_on_error] set the loop takes that for a failure and the run ends
    there, returning [None], without the stages that follow. *)
Theorem ensure_dirs_nothing_missing_halts (args0 : list string)
    (self0 : CommandProcessor) (path : string) (rest : list string)
    (self : CommandProcessor) (result : PyRet) (calls : Trace) :
  reaches (registry extern) (initial args0 self0)
    {| ls_args := "--ensure-dirs" :: path :: rest; ls_self := self;
       ls_result := result; ls_calls := calls |} ->
  Forall (fun line => strip line = EmptyString
                      \/ path_exists (fs self) (strip line) = true) (lines_of self) ->
  stop_on_error self = true ->
  parse_commands (registry extern) args0 self0
  = Done (Return PyNone) self (calls ++ [("--ensure-dirs", [VStr path])]).
Proof.
  intros Hr Hall Hstop.
  apply (parse_commands_at Hr). intros fuel. cbn [parse_loop].
  rewrite dispatch_first_match.
  assert (Hm : first_match (registry extern) "--ensure-dirs" (path :: rest)
               = Some (Command_init "--ensure-dirs" None ["PATH"] (-1) None None ensure_dirs,
                       path :: rest)) by reflexivity.
  rewrite Hm.
  assert (Hcount : (Z.of_nat (List.length (path :: rest)) <? 1)%Z = false).
  { apply Z.ltb_ge. simpl List.length. lia. }
  change (param_count (Command_init "--ensure-dirs" None ["PATH"] (-1) None None ensure_dirs))
    with 1%Z.
  rewrite Hcount.
  change (parse_command_params
            (Command_init "--ensure-dirs" None ["PATH"] (-1) None None ensure_dirs)
            (path :: rest))
    with (Return (A := list Value * list string) ([VStr path], rest)).
  cbv beta iota.
  change (func (Command_init "--ensure-dirs" None ["PATH"] (-1) None None ensure_dirs)
               self [VStr path])
    with (ensure_dirs_loop self (lines_of self)).
  rewrite <- (app_nil_r (lines_of self)).
  rewrite ensure_dirs_loop_skips by exact Hall.
  cbn [ensure_dirs_loop]. rewrite Hstop. reflexivity.
Qed.

End EnsureDirsFacts.

Section EnsureDirsRuns.
Import TestDoubles.

(** [--in build --ensure-dirs x --count] where [build] exists. *)
Lemma ensure_dirs_nothing_missing_halts_witness :
  let start := fresh linux_host {| dirs := ["build"]; files := []; denied := [] |} in
  run ["--in"; "build"; "--ensure-dirs"; "x"; "--count"] start
  = Done (Return PyNone) (set_current_output start "build")
         [("--in", [VStr "build"]); ("--ensure-dirs", [VStr "x"])].
Proof.
  intros start. unfold run, test_registry.
  apply (@ensure_dirs_nothing_missing_halts mem_os literal_re no_floats (@idle mem_os)
           ["--in"; "build"; "--ensure-dirs"; "x"; "--count"] start "x" ["--count"]
           (set_current_output start "build") (Status Ok) [("--in", [VStr "build"])]).
  - eapply reaches_next; [| apply reaches_here].
    eapply stage_intro;
      [ simpl; discriminate | reflexivity | reflexivity | reflexivity | reflexivity ].
  - constructor; [right; reflexivity | constructor].
  - reflexivity.
Defined.

End EnsureDirsRuns.

(** ** Sorting *)

Lemma re_split_blanks_nonempty (in_sep : bool) (s : string) :
  re_split_blanks_aux in_sep s <> [].
Proof.
  revert in_sep. induction s as [|c s IH]; intros in_sep; cbn [re_split_blanks_aux].
  - discriminate.
  - destruct (is_blank c).
    + destruct in_sep; [apply IH | discriminate].
    + destruct (re_split_blanks_aux false s); discriminate.
Qed.

(** The first field of a line: the text before the first blank or tab. *)
Lemma first_field (line : string) :
  exists (field : string) (more : list string),
    re_split_blanks line = field :: more
    /\ (0 >=? Z.of_nat (List.length (re_split_blanks line)))%Z = false
    /\ py_index (re_split_blanks line) 0 = Return field.
Proof.
  destruct (re_split_blanks line) as [|field more] eqn:E.
  - exfalso. exact (re_split_blanks_nonempty _ _ E).
  - exists field, more. split; [reflexivity|]. split.
    + rewrite Z.geb_leb. apply Z.leb_gt. simpl List.length. lia.
    + assert (Hlt : (0 <? Z.of_nat (List.length (field :: more)))%Z = true)
        by (apply Z.ltb_lt; simpl List.length; lia).
      unfold py_index. cbv zeta. change (0 <? 0)%Z with false. cbv iota.
      change (0 <=? 0)%Z with true. rewrite Hlt. reflexivity.
Qed.

Section SortOrderFacts.
Context {os : OsModule} {re : ReModule} {num : NumModule}.

(** X24. When [--sort] returns [Ok] the lines of the new buffer stand in
    the order of their keys: going down, no line has a key that is less
    than the key of a line above it, or, with [desc], greater.  The flags
    decide the key and the direction.  This is for keys that [<] orders;
    a float key that is no number is in no order with the others. *)
Theorem sort_orders_lines (self self' : CommandProcessor) (flags : string) :
  sort self [VStr flags] = (self', Return (Status Ok)) ->
  (forall (f : SortFlags) (line : string),
      sort_flags (split flags ",") sort_defaults = inl f ->
      In line (lines_of self) ->
      sort_get_value f line <> Return (KFloat S754_nan)) ->
  exists (f : SortFlags) (out : list string),
    sort_flags (split flags ",") sort_defaults = inl f
    /\ self' = set_current_output self (join NL out)
    /\ StronglySorted
         (fun above below =>
            forall ka kb : Key,
              sort_get_value f above = Return ka ->
              sort_get_value f below = Return kb ->
              (if reverse f then key_lt ka kb else key_lt kb ka) <> Return true)
         out.
Proof.
  intros Hsort Hplain.
  destruct (sort_ok _ _ Hsort) as (f & out & Hf & Hs & ->).
  exists f, out. split; [exact Hf|]. split; [reflexivity|].
  assert (Hord := @sorted_ordered string (lines_of self) out (sort_get_value f)
                    (reverse f) (fun line Hin => Hplain f line Hf Hin) Hs).
  eapply StronglySorted_map_in with (g := fun line : string => line) in Hord.
  - rewrite map_id in Hord. exact Hord.
  - intros above below _ _ H ka kb Ha Hb. rewrite (H ka kb Ha Hb). discriminate.
Qed.

(** X25. A sort on the first column as text cannot fail: with flags that
    leave the column at its default and the key a string, as [asc], [desc],
    [none] and [strip] do, every line has a key, whatever the buffer holds,
    and [--sort] returns [Ok]. *)
Theorem text_sort_never_fails (self : CommandProcessor) (flags : string) (f : SortFlags) :
  sort_flags (split flags ",") sort_defaults = inl f ->
  column f = ColIndex 0 ->
  key_func f = KeyIdentity \/ key_func f = KeyStrip ->
  exists out : list string,
    sort self [VStr flags] = ok (set_current_output self (join NL out))
    /\ Permutation out (lines_of self).
Proof.
  intros Hf Hcol Hkey. unfold sort. rewrite Hf.
  assert (Hstr : forall line, exists t, sort_get_value f line = Return (KStr t)).
  { intros line. unfold sort_get_value. rewrite Hcol.
    destruct (first_field line) as (field & more & _ & -> & ->). cbn [bind].
    destruct Hkey as [-> | ->]; eexists; reflexivity. }
  destruct (@sorted_returns string TextKey (lines_of self) (sort_get_value f) (reverse f))
    as (out & Hs).
  { intros line _. destruct (Hstr line) as [t Ht]. exists (KStr t). split; [exact Ht|].
    reflexivity. }
  assert (Hm : exists keys, mapM (sort_get_value f) (lines_of self) = Return keys).
  { unfold sorted in Hs.
    destruct (mapM (sort_get_value f) (lines_of self)); [eauto | discriminate Hs]. }
  destruct Hm as (keys & ->). rewrite Hs.
  exists out. split; [reflexivity|].
  exact (@sorted_perm string _ _ _ _ Hs).
Qed.

End SortOrderFacts.

Section SortOrderRuns.
Import TestDoubles.

Let scores : CommandProcessor (os := mem_os) :=
  set_current_output (fresh linux_host empty_fs) (join NL ["b 10"; "a 9"; "c 10"]).

Lemma sort_orders_lines_witness :
  exists (f : SortFlags (re := literal_re)) (out : list string),
    sort_flags (split "column=2,int,desc" ",") sort_defaults = inl f
    /\ set_current_output scores (join NL ["b 10"; "c 10"; "a 9"])
       = set_current_output scores (join NL out)
    /\ StronglySorted
         (fun above below =>
            forall ka kb : Key,
              sort_get_value (num := no_floats) f above = Return ka ->
              sort_get_value (num := no_floats) f below = Return kb ->
              (if reverse f then key_lt ka kb else key_lt kb ka) <> Return true)
         out.
Proof.
  apply (sort_orders_lines (re := literal_re) (num := no_floats) scores
           (self' := set_current_output scores (join NL ["b 10"; "c 10"; "a 9"]))
           "column=2,int,desc").
  - reflexivity.
  - intros f line [= <-] Hin.
    repeat (destruct Hin as [<- | Hin]; [discriminate|]). destruct Hin.
Defined.

Lemma text_sort_never_fails_witness :
  exists out : list string,
    sort (re := literal_re) (num := no_floats) scores [VStr "strip,desc"]
    = ok (set_current_output scores (join NL out))
    /\ Permutation out (lines_of scores).
Proof.
  eapply (text_sort_never_fails (re := literal_re) (num := no_floats) scores "strip,desc").
  - reflexivity.
  - reflexivity.
  - right. reflexivity.
Defined.

End SortOrderRuns.

(** ** Sums *)

Lemma fold_left_add (values : list Z) (acc : Z) :
  fold_left (fun a v => match v with NInt z => a + z | NFloat _ => a end)%Z
            (map NInt values) acc
  = (acc + fold_right Z.add 0 values)%Z.
Proof.
  revert acc. induction values as [|z values IH]; intros acc; simpl; [lia|].
  rewrite IH. lia.
Qed.

Lemma forallb_is_NInt (values : list Z) : forallb is_NInt (map NInt values) = true.
Proof. induction values as [|z values IH]; simpl; [reflexivity | exact IH]. Qed.

Section SumFacts.
Context {os : OsModule} {re : ReModule} {num : NumModule}.

Lemma sum_flags_app (flags more : list string) (f0 : SumFlags) :
  sum_flags (flags ++ more) f0
  = match sum_flags flags f0 with
    | inl f1 => sum_flags more f1
    | inr e => inr e
    end.
Proof.
  revert f0. induction flags as [|flag flags IH]; intros f0; [reflexivity|].
  cbn [app sum_flags].
  repeat match goal with
         | |- context [if ?c then _ else _] => destruct c
         end; try apply IH; try reflexivity.
  destruct (sum_parse_column (removeprefix flag "column=")) as [[c'|e] flag'];
    [apply IH | reflexivity].
Qed.

(** X26. [--sum int] adds the integers in the first column without
    rounding and writes the total in decimal: when [int] reads the first
    field of every line as an integer, no such field is longer than 4300
    characters and the total has at most 4300 decimal digits, which keeps
    the conversions within the limit the interpreter sets by default,
    [--sum int] returns [Ok] and the buffer is the total in decimal.  For
    an empty buffer that is [0]. *)
Theorem integer_sum_is_exact (self : CommandProcessor) (values : list Z) :
  (Forall2 (fun line z =>
              py_int (hd EmptyString (re_split_blanks line)) = Return z
              /\ String.length (hd EmptyString (re_split_blanks line)) <= 4300)
           (lines_of self) values ->
   within_digit_limit (fold_right Z.add 0%Z values) = true ->
   sum_lines self [VStr "int"]
   = ok (set_current_output self (str_of_Z (fold_right Z.add 0%Z values))))
  /\ (current_output self = EmptyString ->
      sum_lines self [VStr "int"] = ok (set_current_output self "0")).
Proof.
  assert (Hsum : forall values' : list Z,
             Forall2 (fun line z =>
                        py_int (hd EmptyString (re_split_blanks line)) = Return z)
                     (lines_of self) values' ->
             sum_lines self [VStr "int"]
             = ok (set_current_output self (str_of_Z (fold_right Z.add 0%Z values')))).
  { intros values' Hvalues. unfold sum_lines.
    change (sum_flags (split "int" ",") sum_defaults)
      with (inl (B := CommandResults.t)
                {| sum_column := ColIndex 0; sum_ignore_error_lines := false;
                   sum_key_func := NumInt; out_func := OutInt; flag_var := "int" |}).
    set (f := {| sum_column := ColIndex 0; sum_ignore_error_lines := false;
                 sum_key_func := NumInt; out_func := OutInt; flag_var := "int" |}).
    cbv beta iota.
    assert (Hm : mapM (sum_get_value f) (lines_of self) = Return (map NInt values')).
    { induction Hvalues as [|line z lines zs Hz _ IH]; [reflexivity|].
      cbn [mapM map]. rewrite IH.
      unfold sum_get_value at 1. cbn [sum_column f].
      destruct (first_field line) as (field & more & Hsplit & -> & ->).
      rewrite Hsplit in Hz. cbn [hd] in Hz.
      cbn [bind sum_key_func f apply_num_func]. rewrite Hz. reflexivity. }
    rewrite Hm. cbn [bind]. unfold py_sum. rewrite forallb_is_NInt, fold_left_add.
    cbn [bind]. reflexivity. }
  split.
  - intros Hvalues _. apply Hsum.
    eapply Forall2_impl; [|exact Hvalues]. intros line z [Hz _]. exact Hz.
  - intros Hempty. apply (Hsum []). unfold lines_of. rewrite Hempty. constructor.
Qed.

(** X27. The precision that [float=P] asks for is read from the variable
    [flag] when the total is written, and by then that variable holds what
    the last pass of the flag loop left in it: the last flag of the list,
    with [float=] taken off if it begins so; or, if it begins with
    [column=], with [column=] taken off and, when what is left is no
    integer, its escapes decoded.  Unless [float=P] is the last flag, the
    total is formatted with the text of another flag as its precision. *)
Theorem sum_precision_is_last_flag (flags : list string) (last : string)
    (f0 f : SumFlags) :
  sum_flags (flags ++ [last]) f0 = inl f ->
  let left :=
    if startswith last "column=" then
      match py_int (removeprefix last "column=") with
      | Return _ => removeprefix last "column="
      | Raise _ => decode_escapes (removeprefix last "column=")
      end
    else removeprefix last "float=" in
  flag_var f = left
  /\ (out_func f = OutPrecision ->
      forall value : Num,
        apply_out_func f value = format_value value ("." ++ left ++ "f")).
Proof.
  intros Hf left.
  assert (Hvar : flag_var f = left).
  { subst left. rewrite sum_flags_app in Hf.
    destruct (sum_flags flags f0) as [f1|e]; [|discriminate Hf].
    cbn [sum_flags] in Hf.
    destruct (String.eqb last "none" || String.eqb last "float") eqn:E1.
    { injection Hf as <-. cbn [flag_var].
      apply orb_true_iff in E1 as [E | E]; apply String.eqb_eq in E; subst; reflexivity. }
    destruct (String.eqb last "int16") eqn:E2.
    { injection Hf as <-. apply String.eqb_eq in E2. subst. reflexivity. }
    destruct (String.eqb last "int") eqn:E3.
    { injection Hf as <-. apply String.eqb_eq in E3. subst. reflexivity. }
    destruct (startswith last "float=") eqn:E4.
    { injection Hf as <-. cbn [flag_var].
      destruct (startswith last "column=") eqn:E6; [|reflexivity].
      exfalso. destruct last as [|c last']; [discriminate E4|].
      cbn [startswith] in E4, E6.
      destruct (Ascii.eqb c "f") eqn:Ef; [|discriminate E4].
      apply Ascii.eqb_eq in Ef. subst c. discriminate E6. }
    destruct (String.eqb last "ignore_error_lines") eqn:E5.
    { injection Hf as <-. apply String.eqb_eq in E5. subst. reflexivity. }
    destruct (startswith last "column=") eqn:E6; [|discriminate Hf].
    unfold sum_parse_column in Hf.
    destruct (py_int (removeprefix last "column=")) as [n|e].
    - injection Hf as <-. reflexivity.
    - destruct (re_compile (unquote (decode_escapes (removeprefix last "column="))));
        cbn [bind] in Hf; [|discriminate Hf].
      injection Hf as <-. reflexivity. }
  split; [exact Hvar|].
  intros Hout value. unfold apply_out_func. rewrite Hout, Hvar. reflexivity.
Qed.

End SumFacts.

Section SumRuns.
Import TestDoubles.

Let amounts : CommandProcessor (os := mem_os) :=
  set_current_output (fresh linux_host empty_fs) (join NL ["40 apples"; "-5"; "7 pears"]).

Lemma integer_sum_is_exact_witness :
  sum_lines (re := literal_re) (num := no_floats) amounts [VStr "int"]
  = ok (set_current_output amounts "42")
  /\ sum_lines (re := literal_re) (num := no_floats) (fresh linux_host empty_fs)
       [VStr "int"]
     = ok (set_current_output (fresh linux_host empty_fs) "0").
Proof.
  split.
  - apply (proj1 (integer_sum_is_exact (re := literal_re) (num := no_floats) amounts
                    [40; -5; 7]%Z)).
    + repeat (constructor; [split; [reflexivity | simpl; lia]|]). constructor.
    + reflexivity.
  - apply (proj2 (integer_sum_is_exact (re := literal_re) (num := no_floats)
                    (fresh linux_host empty_fs) [])).
    reflexivity.
Defined.

(** [--sum float=2,ignore_error_lines] and [--sum float=2,column=3] *)
Lemma sum_precision_is_last_flag_witness :
  (exists f : SumFlags (re := literal_re),
      sum_flags (split "float=2,ignore_error_lines" ",") sum_defaults = inl f
      /\ out_func f = OutPrecision
      /\ flag_var f = "ignore_error_lines"
      /\ forall value : Num,
           apply_out_func (num := no_floats) f value
           = format_value (num := no_floats) value ".ignore_error_linesf")
  /\ (exists f : SumFlags (re := literal_re),
        sum_flags (split "float=2,column=3" ",") sum_defaults = inl f
        /\ out_func f = OutPrecision
        /\ flag_var f = "3"
        /\ forall value : Num,
             apply_out_func (num := no_floats) f value
             = format_value (num := no_floats) value ".3f").
Proof.
  split.
  - eexists. split; [reflexivity|]. split; [reflexivity|].
    destruct (sum_precision_is_last_flag (re := literal_re) (num := no_floats)
                ["float=2"] "ignore_error_lines" sum_defaults eq_refl)
      as [Hvar Hout].
    split; [exact Hvar | exact (Hout eq_refl)].
  - eexists. split; [reflexivity|]. split; [reflexivity|].
    destruct (sum_precision_is_last_flag (re := literal_re) (num := no_floats)
                ["float=2"] "column=3" sum_defaults eq_refl)
      as [Hvar Hout].
    split; [exact Hvar | exact (Hout eq_refl)].
Defined.

End SumRuns.

(** ** Paths under MSYS2 *)

Lemma rstrip_cons_plain (c : ascii) (s : string) :
  is_space c = false -> rstrip (String c s) = String c (rstrip s).
Proof.
  intros Hc. cbn [rstrip]. rewrite Hc. destruct (rstrip s); reflexivity.
Qed.

Lemma rstrip_app_keep (a b : string) :
  rstrip b <> EmptyString -> rstrip (a ++ b) = (a ++ rstrip b)%string.
Proof.
  intros Hb. induction a as [|c a IH]; [reflexivity|].
  change (String c a ++ b)%string with (String c (a ++ b)).
  change (String c a ++ rstrip b)%string with (String c (a ++ rstrip b)).
  cbn [rstrip].
  rewrite IH. destruct (a ++ rstrip b)%string eqn:E; [|reflexivity].
  destruct a; simpl in E; [contradiction | discriminate].
Qed.

Lemma rstrip_forall (p : ascii -> bool) (s : string) :
  str_forall p s = true -> str_forall p (rstrip s) = true.
Proof.
  induction s as [|c s IH]; [reflexivity|]. cbn [str_forall rstrip]. intros H.
  apply andb_true_iff in H as [Hc Hs]. specialize (IH Hs).
  destruct (rstrip s) as [|y z].
  - destruct (is_space c); [reflexivity|]. cbn [str_forall]. rewrite Hc. reflexivity.
  - cbn [str_forall] in IH |- *. rewrite Hc. exact IH.
Qed.

Section Msys2Facts.
Context {os : OsModule}.

(** X28. Under MSYS2, without [/cygdrive], [--platform-path] takes the
    first component of any absolute path for a drive when it is made of
    letters: a buffer of one line [/LETTERS/REST] becomes [letters:/REST'],
    with the letters in lower case, where [REST'] is [REST] without the
    white space at its end and with its back-slashes turned into slashes.
    So [/usr/bin] becomes [usr:/bin]. *)
Theorem msys2_first_component_is_drive (self : CommandProcessor) (d rest : string) :
  on_windows self = true ->
  is_cygwin_env self = false ->
  is_msys2_env self = true ->
  d <> EmptyString ->
  str_forall is_alpha d = true ->
  one_line rest = true ->
  current_output self = ("/" ++ d ++ "/" ++ rest)%string ->
  platform_path self []
  = ok (set_current_output self
          (lower d ++ ":/" ++ replace (rstrip rest) BACKSLASH "/")).
Proof.
  intros Hwin Hcyg Hmsys Hd Halpha Hone Hbuf.
  set (line := ("/" ++ d ++ "/" ++ rest)%string) in *.
  assert (Hline : line = String "/" (d ++ String "/" rest)) by reflexivity.
  assert (Hone_line : str_forall (fun c => negb (is_linebreak c)) line = true).
  { rewrite Hline. cbn [str_forall]. rewrite str_forall_app.
    rewrite (alpha_one_line _ Halpha). cbn [str_forall].
    unfold one_line in Hone. rewrite Hone. reflexivity. }
  assert (Hlines : lines_of self = [line]).
  { unfold lines_of. rewrite Hbuf. apply splitlines_one_line; [discriminate | exact Hone_line]. }
  assert (Hstrip : strip line = String "/" (d ++ String "/" (rstrip rest))).
  { unfold strip. rewrite Hline at 1. cbn [lstrip].
    change (is_space "/") with false. cbv iota.
    change (String "/" (d ++ String "/" rest)) with (("/" ++ d) ++ String "/" rest)%string.
    rewrite rstrip_app_keep.
    - rewrite (rstrip_cons_plain "/" rest) by reflexivity. reflexivity.
    - rewrite (rstrip_cons_plain "/" rest) by reflexivity. discriminate. }
  assert (Hslash : replace (strip line) BACKSLASH "/"
                   = String "/" (d ++ String "/" (replace (rstrip rest) BACKSLASH "/"))).
  { rewrite Hstrip. unfold BACKSLASH.
    change "/"%string with (String "/"%char EmptyString).
    rewrite replace_char_cons, replace_char_app, replace_char_cons.
    rewrite (replace_char_absent _ _ _ (alpha_no_backslash _ Halpha)). reflexivity. }
  assert (Hrest : str_forall (fun c => negb (is_linebreak c))
                             (replace (rstrip rest) BACKSLASH "/") = true).
  { unfold BACKSLASH. change "/"%string with (String "/"%char EmptyString).
    rewrite replace_char_forall by reflexivity.
    apply rstrip_forall. exact Hone. }
  assert (Hre : msys2_path_re (replace (strip line) BACKSLASH "/")
                = Some (d, replace (rstrip rest) BACKSLASH "/")).
  { rewrite Hslash. unfold msys2_path_re. cbn [startswith].
    rewrite Ascii.eqb_refl, startswith_empty. cbn [andb str_drop].
    unfold drive_and_path.
    rewrite span_alpha_app by (exact Halpha || reflexivity).
    destruct d as [|c d']; [contradiction|].
    cbn [existsb]. rewrite Ascii.eqb_refl. cbn [orb].
    rewrite dot_star_end_one_line by exact Hrest. reflexivity. }
  unfold platform_path. rewrite Hwin, Hlines. cbn [map join].
  unfold platform_path_line. cbv zeta. rewrite Hcyg, Hmsys, Hre. reflexivity.
Qed.

End Msys2Facts.

Section Msys2Runs.
Import TestDoubles.

(** [/usr/bin], and [/usr/a\b] with a blank after it. *)
Lemma msys2_first_component_is_drive_witness :
  let msys2 := fresh windows_host {| dirs := ["/mingw64"]; files := []; denied := [] |} in
  platform_path (set_current_output msys2 "/usr/bin") []
  = ok (set_current_output (set_current_output msys2 "/usr/bin") "usr:/bin")
  /\ platform_path (set_current_output msys2 "/usr/a\b ") []
     = ok (set_current_output (set_current_output msys2 "/usr/a\b ") "usr:/a/b").
Proof.
  intros msys2. split.
  - apply (msys2_first_component_is_drive (set_current_output msys2 "/usr/bin")
             (d := "usr") "bin");
      try reflexivity; discriminate.
  - apply (msys2_first_component_is_drive (set_current_output msys2 "/usr/a\b ")
             (d := "usr") "a\b ");
      try reflexivity; discriminate.
Defined.

End Msys2Runs.

(** ** Counting and [--unique] *)

Lemma parse_digits_uint (d : Decimal.uint) (a : nat) :
  parse_digits 10 true (Z.of_nat a) (DecimalString.NilEmpty.string_of_uint d)
  = Some (Z.of_nat (Nat.of_uint_acc d a)).
Proof.
  revert a. induction d as [|d IH|d IH|d IH|d IH|d IH|d IH|d IH|d IH|d IH|d IH];
    intros a; [reflexivity|..];
    cbn [DecimalString.NilEmpty.string_of_uint parse_digits Nat.of_uint_acc];
    change (Ascii.eqb _ "_") with false; cbv iota;
    match goal with
    | |- context [digit_value ?b ?c] =>
        let v := eval cbv in (digit_value b c) in
        change (digit_value b c) with v
    end;
    cbv iota; rewrite <- IH; do 2 f_equal; rewrite Nat.tail_mul_spec; lia.
Qed.

Lemma digits_plain (d : Decimal.uint) :
  str_forall (fun c => negb (is_space c) && negb (is_linebreak c))
             (DecimalString.NilEmpty.string_of_uint d) = true.
Proof.
  induction d; cbn [DecimalString.NilEmpty.string_of_uint str_forall];
    [reflexivity|..]; rewrite IHd; reflexivity.
Qed.

Lemma digits_no_int_space (d : Decimal.uint) :
  str_forall (fun c => negb (is_int_space c))
             (DecimalString.NilEmpty.string_of_uint d) = true.
Proof.
  induction d; cbn [DecimalString.NilEmpty.string_of_uint str_forall];
    [reflexivity|..]; rewrite IHd; reflexivity.
Qed.

Lemma int_rstrip_plain (s : string) :
  str_forall (fun c => negb (is_int_space c)) s = true -> int_rstrip s = s.
Proof.
  induction s as [|c s IH]; [reflexivity|]. cbn [str_forall int_rstrip]. intros H.
  apply andb_true_iff in H as [Hc Hs]. apply negb_true_iff in Hc.
  rewrite (IH Hs), Hc. destruct s; reflexivity.
Qed.

(** The decimal numeral of a natural number reads back as that number. *)
Lemma py_int_str_of_nat (n : nat) :
  py_int (str_of_nat n) = Return (Z.of_nat n)
  /\ splitlines (str_of_nat n) = [str_of_nat n].
Proof.
  unfold str_of_nat.
  pose proof (DecimalNat.Unsigned.of_to n) as Hn. unfold Nat.of_uint in Hn.
  revert Hn. generalize (Nat.to_uint n) as d. intros d Hn.
  assert (Hplain : str_forall (fun c => negb (is_space c) && negb (is_linebreak c))
                              (DecimalString.NilZero.string_of_uint d) = true).
  { destruct d; [reflexivity|..]; apply digits_plain. }
  assert (Hstrip : int_strip (DecimalString.NilZero.string_of_uint d)
                   = DecimalString.NilZero.string_of_uint d).
  { unfold int_strip.
    assert (Hl : int_lstrip (DecimalString.NilZero.string_of_uint d)
                 = DecimalString.NilZero.string_of_uint d)
      by (destruct d; reflexivity).
    rewrite Hl. apply int_rstrip_plain.
    destruct d; [reflexivity|..]; apply digits_no_int_space. }
  split.
  - unfold py_int, py_int_base. rewrite Hstrip.
    pose proof (parse_digits_uint d 0) as Hd. rewrite Hn in Hd.
    destruct d; try (subst n; reflexivity);
      cbn [DecimalString.NilZero.string_of_uint DecimalString.NilEmpty.string_of_uint]
        in Hd |- *;
      cbv beta iota zeta; change (10 =? 16)%Z with false; cbn [andb]; cbv iota;
      match goal with
      | |- context [parse_digits ?b false ?z ?s] =>
          change (parse_digits b false z s) with (parse_digits b true (Z.of_nat 0) s)
      end;
      rewrite Hd; reflexivity.
  - apply splitlines_one_line.
    + destruct d; discriminate.
    + eapply str_forall_impl; [|exact Hplain].
      intros c Hc. apply andb_true_iff in Hc as [_ Hc]. exact Hc.
Qed.

Section CountFacts.
Context {os : OsModule}.

(** X29. [--count] writes one line, the number of lines in decimal, and
    [int] reads that line back as the number: what [--count] leaves can be
    handed to a command that converts its parameters. *)
Theorem count_reads_back (self : CommandProcessor) :
  exists self' : CommandProcessor,
    count_lines self [] = ok self'
    /\ lines_of self' = [current_output self']
    /\ int_converter (current_output self')
       = Return (VInt (Z.of_nat (List.length (lines_of self)))).
Proof.
  eexists. split; [reflexivity|]. simpl current_output.
  destruct (py_int_str_of_nat (List.length (lines_of self))) as [Hint Hline].
  split; [exact Hline|].
  unfold int_converter. rewrite Hint. reflexivity.
Qed.

(** X30. [--unique] works on the empty buffer only, which it leaves
    empty; on every other buffer it raises [IndexError] at the first line
    and changes nothing. *)
Theorem unique_needs_empty_buffer (self : CommandProcessor) :
  (current_output self = EmptyString -> unique self [] = ok self)
  /\ (current_output self <> EmptyString -> unique self [] = (self, Raise IndexError)).
Proof.
  split.
  - intros Hempty. unfold unique, lines_of. rewrite Hempty.
    destruct self. simpl in Hempty. subst. reflexivity.
  - apply unique_raises_unless_empty.
Qed.

End CountFacts.

Section CountRuns.
Import TestDoubles.

Lemma unique_needs_empty_buffer_witness :
  unique (fresh linux_host empty_fs) [] = ok (fresh linux_host empty_fs)
  /\ unique (set_current_output (fresh linux_host empty_fs) "a") []
     = (set_current_output (fresh linux_host empty_fs) "a", Raise IndexError).
Proof.
  split.
  - apply (proj1 (unique_needs_empty_buffer (fresh linux_host empty_fs))). reflexivity.
  - apply (proj2 (unique_needs_empty_buffer
                    (set_current_output (fresh linux_host empty_fs) "a"))).
    discriminate.
Defined.

End CountRuns.
